(** * Attendance-System: a shallow embedding of the core of
      [src/backend/services.py]

    The development follows the classes of the source file:

    - [FaceRecognitionServiceFAISS] : [load_face_map], [recognize_face]
      (the vector index and the multi-angle matcher);
    - [PooledDatabaseService]       : [log_attendance_update_only]
      (the attendance ledger);
    - [CameraService]               : the frame loop of [process_camera];
    - [WebSocketManager]            : [broadcast].

    Numbers that are floats in the source (similarities, confidences) are
    modelled as rationals [Q]: the arithmetic of the matcher ([-], [+],
    [/ 2], [* 0.6], comparisons with [0.08] and the threshold) is exact
    here, rounding is not modelled. *)

From Stdlib Require Import String ZArith QArith Bool Arith Lia Lqa.
From Stdlib Require Import List.
From Stdlib Require Import Permutation.
Import ListNotations.

Local Open Scope string_scope.
Local Open Scope list_scope.

(** ** Python helpers shared by the classes *)

Definition Qlt_bool (x y : Q) : bool := negb (Qle_bool y x).

(** [sorted(l, key=key, reverse=True)]: a stable sort, largest key first.
    The list is folded from its right end, and an element is inserted in
    front of the first element whose key is not strictly larger, so that
    elements with equal keys keep their original order. *)
Section SortedReverse.
Context {A : Type} (key : A -> Q).

Fixpoint insert_reverse (x : A) (l : list A) : list A :=
  match l with
  | [] => [x]
  | y :: l' =>
      if Qlt_bool (key x) (key y) then y :: insert_reverse x l'
      else x :: y :: l'
  end.

Definition sorted_reverse (l : list A) : list A :=
  fold_right (fun x acc => insert_reverse x acc) [] l.

(** Largest key first. *)
Fixpoint descending (l : list A) : Prop :=
  match l with
  | [] => True
  | x :: l' => Forall (fun y => (key y <= key x)%Q) l' /\ descending l'
  end.
End SortedReverse.

(** [enumerate(l)], counting from [i]. *)
Fixpoint enumerate_from {A : Type} (i : nat) (l : list A) : list (nat * A) :=
  match l with
  | [] => []
  | x :: l' => (i, x) :: enumerate_from (S i) l'
  end.

(** ** class FaceRecognitionServiceFAISS *)

Module FaceRecognitionServiceFAISS.
Local Open Scope Q_scope.

Definition embedding := list Q.

(** One entry of [face_map]: [{'name': ..., 'embeddings': [...]}]. *)
Record employee := {
  name : string;
  embeddings : list embedding
}.

(** A Python dict keeps insertion order: [face_map.items()] is this list. *)
Definition face_map_t := list (string * employee).

(** [faiss.IndexFlatIP(d)] after [add]: [d] and the stored rows. *)
Record IndexFlatIP := {
  d : nat;
  xb : list embedding
}.

Fixpoint inner_product (a b : embedding) : Q :=
  match a, b with
  | x :: a', y :: b' => x * y + inner_product a' b'
  | _, _ => 0
  end.

(** [index.search(query, k)] of a flat inner-product index: the [k] rows
    of largest inner product with the query, best first, as
    (row number, similarity).  A query of the wrong dimension makes the
    FAISS wrapper raise: [None]. *)
Definition search (index : IndexFlatIP) (query : embedding) (k : nat)
  : option (list (nat * Q)) :=
  if Nat.eqb (length query) (d index) then
    Some (firstn k
            (sorted_reverse snd
               (enumerate_from 0 (map (inner_product query) (xb index)))))
  else None.

(** The state of the service that the matcher reads and writes. *)
Record service := {
  face_map : face_map_t;
  recognition_threshold : Q;
  faiss_index : option IndexFlatIP;
  emp_id_map : list string;
  embeddings_cache : list embedding
}.

(** [__init__]: threshold 0.40, no index. *)
Definition init : service := {|
  face_map := [];
  recognition_threshold := 40 # 100;
  faiss_index := None;
  emp_id_map := [];
  embeddings_cache := []
|}.

(** [emp_scores[emp_id].append(sim)] on a [defaultdict(list)]: the keys
    stay in the order of their first appearance. *)
Fixpoint scores_append (emp_scores : list (string * list Q))
    (emp_id : string) (sim : Q) : list (string * list Q) :=
  match emp_scores with
  | [] => [(emp_id, [sim])]
  | (e, sims) :: rest =>
      if String.eqb e emp_id then (e, sims ++ [sim]) :: rest
      else (e, sims) :: scores_append rest emp_id sim
  end.

(** The grouping loop; [emp_id_map[idx]] out of range raises: [None]. *)
Fixpoint group_by_employee (emp_id_map : list string)
    (neighbors : list (nat * Q)) (emp_scores : list (string * list Q))
  : option (list (string * list Q)) :=
  match neighbors with
  | [] => Some emp_scores
  | (idx, sim) :: rest =>
      match nth_error emp_id_map idx with
      | None => None
      | Some emp_id =>
          group_by_employee emp_id_map rest
            (scores_append emp_scores emp_id sim)
      end
  end.

(** The body of the loop over [emp_scores.items()] up to the comparison
    with [best_confidence]: the confidence of one identity. *)
Definition confidence_of (sims : list Q) : Q :=
  let sims_sorted := sorted_reverse (fun x => x) sims in
  if Nat.leb 2 (length sims_sorted) then
    let top_sim := nth 0 sims_sorted 0 in
    let second_sim := nth 1 sims_sorted 0 in
    if Qle_bool (top_sim - second_sim) (8 # 100) then
      (top_sim + second_sim) / 2
    else top_sim * (6 # 10)
  else
    match sims_sorted with
    | x :: _ => x
    | [] => 0
    end.

(** One iteration: [if confidence > best_confidence: ...]. *)
Definition best_step (best : option string * Q) (item : string * list Q)
  : option string * Q :=
  let confidence := confidence_of (snd item) in
  if Qlt_bool (snd best) confidence then (Some (fst item), confidence)
  else best.

Definition best_of (emp_scores : list (string * list Q))
  : option string * Q :=
  fold_left best_step emp_scores (None, 0).

(** [emp_scores[e]] of the [defaultdict]: the empty list for a key that
    was never appended to. *)
Fixpoint lookup_scores (emp_scores : list (string * list Q)) (e : string)
  : list Q :=
  match emp_scores with
  | [] => []
  | (e', sims) :: rest =>
      if String.eqb e' e then sims else lookup_scores rest e
  end.

(** The similarities of the neighbours that [emp_id_map] maps to [e], in
    the order of the neighbour list. *)
Definition matched_similarities (emp_id_map : list string)
    (neighbors : list (nat * Q)) (e : string) : list Q :=
  map snd
    (filter (fun n => match nth_error emp_id_map (fst n) with
                      | Some e' => String.eqb e' e
                      | None => false
                      end) neighbors).

Section WithFaiss.
(** [faiss.normalize_L2]: division by the Euclidean norm, a square
    root; it is a parameter of the model. *)
Variable normalize_L2 : embedding -> embedding.

Definition load_face_map (self : service) (fm : face_map_t) : service :=
  let cache := flat_map (fun kv => embeddings (snd kv)) fm in
  let ids :=
    flat_map (fun kv => map (fun _ => fst kv) (embeddings (snd kv))) fm in
  match cache with
  | [] =>
      {| face_map := fm;
         recognition_threshold := recognition_threshold self;
         faiss_index := None;
         emp_id_map := ids;
         embeddings_cache := cache |}
  | first :: _ =>
      {| face_map := fm;
         recognition_threshold := recognition_threshold self;
         faiss_index :=
           Some {| d := length first; xb := map normalize_L2 cache |};
         emp_id_map := ids;
         embeddings_cache := cache |}
  end.

(** The neighbours the matcher looks at. *)
Definition neighbors_of (self : service) (index : IndexFlatIP)
    (face_embedding : embedding) : option (list (nat * Q)) :=
  let query_embedding := normalize_L2 face_embedding in
  let k := Nat.min 20 (length (embeddings_cache self)) in
  search index query_embedding k.

(** [emp_scores] of a query; [None] when the [try] block raises. *)
Definition emp_scores_of (self : service) (index : IndexFlatIP)
    (face_embedding : embedding) : option (list (string * list Q)) :=
  match neighbors_of self index face_embedding with
  | None => None
  | Some neighbors => group_by_employee (emp_id_map self) neighbors []
  end.

Definition recognize_face (self : service) (face_embedding : embedding)
  : option string * Q :=
  match faiss_index self with
  | None => (None, 0)
  | Some index =>
      if Nat.eqb (length (emp_id_map self)) 0 then (None, 0)
      else
        match emp_scores_of self index face_embedding with
        | None => (None, 0)              (* except Exception *)
        | Some emp_scores =>
            let best := best_of emp_scores in
            if Qle_bool (recognition_threshold self) (snd best)
            then (fst best, snd best)
            else (None, snd best)
        end
  end.
End WithFaiss.

End FaceRecognitionServiceFAISS.

(** ** class PooledDatabaseService *)

Module PooledDatabaseService.
Local Open Scope Z_scope.

(** A Python [datetime], to the second: the wall-clock reading in seconds
    since the epoch and, for an aware value, its UTC offset in seconds. *)
Record datetime := {
  wall_seconds : Z;
  tzinfo : option Z
}.

(** Asia/Kolkata is UTC+5:30 all year. *)
Definition IST_offset : Z := 19800.

(** [timestamp.replace(tzinfo=UTC)] for a naive value, then
    [.astimezone(IST)]: the IST wall-clock reading. *)
Definition timestamp_ist (timestamp : datetime) : Z :=
  let utc_offset :=
    match tzinfo timestamp with
    | None => 0
    | Some off => off
    end in
  wall_seconds timestamp - utc_offset + IST_offset.

(** [timestamp_ist.date()] as a day number. *)
Definition date_of (timestamp : datetime) : Z :=
  timestamp_ist timestamp / 86400.

(** [timestamp_ist.strftime('%H:%M:%S')] as the second of the day, which
    is how the TIME column orders its values. *)
Definition time_of (timestamp : datetime) : Z :=
  timestamp_ist timestamp mod 86400.

(** A row of [attendance_logs] (the columns the function reads or
    writes; [created_at], [updated_at] and [year_month] are left out). *)
Record row := {
  id : Z;
  emp_id : string;
  date : Z;
  first_in : option Z;
  last_out : option Z;
  in_camera_id : option string;
  out_camera_id : option string;
  in_confidence : option Q;
  out_confidence : option Q
}.

(** The store: the [employees] keys the foreign key refers to, the table
    and the BIGSERIAL counter. *)
Record database := {
  employees : list string;
  attendance_logs : list row;
  next_id : Z
}.

(** The dict the function returns; [action] is absent on failure. *)
Record result := {
  success : bool;
  message : string;
  action : option string
}.

Definition key_matches (e : string) (day : Z) (r : row) : bool :=
  String.eqb (emp_id r) e && Z.eqb (date r) day.

(** [SELECT ... WHERE emp_id = %s AND date = %s] then [fetchone()]. *)
Definition select_by_emp_date (db : database) (e : string) (day : Z)
  : option row :=
  find (key_matches e day) (attendance_logs db).

(** The declared column type of the camera ids: VARCHAR(50). *)
Definition fits_varchar50 (s : string) : bool :=
  Nat.leb (String.length s) 50.

(** The declared column type of [emp_id], in [employees] and in
    [attendance_logs]: VARCHAR(20). *)
Definition fits_varchar20 (s : string) : bool :=
  Nat.leb (String.length s) 20.

(** The store after a statement has drawn a value of the BIGSERIAL
    sequence of [id]: [nextval] is not undone by a rollback. *)
Definition draw_id (db : database) : database :=
  {| employees := employees db;
     attendance_logs := attendance_logs db;
     next_id := next_id db + 1 |}.

(** [INSERT INTO attendance_logs (emp_id, date, first_in, in_camera_id,
    in_confidence)]: the constraints of the table are checked; a
    violation is a [PostgresError], whose text is returned with the
    store the rollback leaves.  A literal that does not fit its column is
    refused when the statement is prepared, before a row is formed (the
    keys of [employees] fit VARCHAR(20), the type of their own column,
    so that only an identity that is not enrolled can be too long).
    [UNIQUE (emp_id, date)] and the foreign key to [employees] are
    checked on the row, which has its [id] by then: the value drawn from
    the sequence is lost. *)
Definition insert_first_in (db : database) (e : string) (day time_only : Z)
    (camera_id : string) (confidence : Q) : database + database * string :=
  let enrolled := existsb (String.eqb e) (employees db) in
  if negb (fits_varchar50 camera_id) then
    inr (db, "value too long for type character varying(50)")
  else if negb (enrolled || fits_varchar20 e) then
    inr (db, "value too long for type character varying(20)")
  else if existsb (key_matches e day) (attendance_logs db) then
    inr (draw_id db, "duplicate key value violates unique constraint")
  else if negb enrolled then
    inr (draw_id db, "violates foreign key constraint")
  else
    inl {| employees := employees db;
           attendance_logs :=
             attendance_logs db ++
             [ {| id := next_id db; emp_id := e; date := day;
                  first_in := Some time_only; last_out := None;
                  in_camera_id := Some camera_id; out_camera_id := None;
                  in_confidence := Some confidence;
                  out_confidence := None |} ];
           next_id := next_id db + 1 |}.

Definition set_last_out (time_only : Z) (camera_id : string)
    (confidence : Q) (r : row) : row :=
  {| id := id r; emp_id := emp_id r; date := date r;
     first_in := first_in r; last_out := Some time_only;
     in_camera_id := in_camera_id r; out_camera_id := Some camera_id;
     in_confidence := in_confidence r;
     out_confidence := Some confidence |}.

Definition set_first_in (time_only : Z) (camera_id : string)
    (confidence : Q) (r : row) : row :=
  {| id := id r; emp_id := emp_id r; date := date r;
     first_in := Some time_only; last_out := last_out r;
     in_camera_id := Some camera_id; out_camera_id := out_camera_id r;
     in_confidence := Some confidence;
     out_confidence := out_confidence r |}.

(** [UPDATE attendance_logs SET ... WHERE id = %s]; a refused statement
    leaves the store as it was. *)
Definition update_where_id (db : database) (record_id : Z)
    (camera_id : string) (f : row -> row) : database + database * string :=
  if negb (fits_varchar50 camera_id) then
    inr (db, "value too long for type character varying(50)")
  else
    inl {| employees := employees db;
           attendance_logs :=
             map (fun r => if Z.eqb (id r) record_id then f r else r)
                 (attendance_logs db);
           next_id := next_id db |}.

Definition ok (msg act : string) : result :=
  {| success := true; message := msg; action := Some act |}.

Definition failed (msg : string) : result :=
  {| success := false; message := msg; action := None |}.

(** The commit of a write, or [except PostgresError] with the store
    the refused statement leaves: no row is changed. *)
Definition commit (w : database + database * string) (r : result)
  : database * result :=
  match w with
  | inl db' => (db', r)
  | inr (db', e) => (db', failed e)
  end.

Definition log_attendance_update_only (db : database)
    (emp_id event_type camera_id : string) (confidence : Q)
    (timestamp : datetime) : database * result :=
  let today := date_of timestamp in
  let time_only := time_of timestamp in
  if String.eqb event_type "IN" then
    match select_by_emp_date db emp_id today with
    | Some existing => (db, ok "IN already logged" "skipped")
    | None =>
        commit
          (insert_first_in db emp_id today time_only camera_id confidence)
          (ok "IN logged" "inserted")
    end
  else if String.eqb event_type "OUT" then
    match select_by_emp_date db emp_id today with
    | Some existing =>
        match first_in existing with
        | Some _ =>
            commit
              (update_where_id db (id existing) camera_id
                 (set_last_out time_only camera_id confidence))
              (ok "OUT updated" "updated")
        | None =>
            commit
              (update_where_id db (id existing) camera_id
                 (set_first_in time_only camera_id confidence))
              (ok "IN logged (EXIT camera used)" "updated")
        end
    | None =>
        commit
          (insert_first_in db emp_id today time_only camera_id confidence)
          (ok "IN logged (EXIT camera used)" "inserted")
    end
  else (db, failed "Invalid event type").

(** One call of the worker and a run of calls, threading the store. *)
Record event := {
  ev_emp_id : string;
  ev_type : string;
  ev_camera_id : string;
  ev_confidence : Q;
  ev_timestamp : datetime
}.

Definition record_event (db : database) (ev : event) : database * result :=
  log_attendance_update_only db (ev_emp_id ev) (ev_type ev)
    (ev_camera_id ev) (ev_confidence ev) (ev_timestamp ev).

Fixpoint record_events (db : database) (evs : list event)
  : database * list result :=
  match evs with
  | [] => (db, [])
  | ev :: rest =>
      let (db1, r) := record_event db ev in
      let (db2, rs) := record_events db1 rest in
      (db2, r :: rs)
  end.

(** The calls come in the order of their timestamps: no call carries an
    earlier instant than a call made before it. *)
Fixpoint chronological (evs : list event) : Prop :=
  match evs with
  | [] => True
  | ev :: rest =>
      Forall (fun ev' => timestamp_ist (ev_timestamp ev)
                         <= timestamp_ist (ev_timestamp ev')) rest /\
      chronological rest
  end.

(** The row that a first sighting creates. *)
Definition first_sighting_row (db : database) (e : string)
    (camera_id : string) (confidence : Q) (timestamp : datetime) : row :=
  {| id := next_id db; emp_id := e; date := date_of timestamp;
     first_in := Some (time_of timestamp); last_out := None;
     in_camera_id := Some camera_id; out_camera_id := None;
     in_confidence := Some confidence; out_confidence := None |}.

(** The rows of one identity on one day. *)
Definition rows_of (db : database) (e : string) (day : Z) : list row :=
  filter (key_matches e day) (attendance_logs db).


(** The invariant of the rows of [(e, day)] while the calls [pending]
    are still to come: at most one row, its first-IN is set and not
    after its last-OUT nor after any pending call. *)
Definition day_invariant (e : string) (day : Z) (db : database)
    (pending : list event) : Prop :=
  (length (rows_of db e day) <= 1)%nat /\
  forall r,
    In r (rows_of db e day) ->
    exists a,
      first_in r = Some a /\
      (forall b, last_out r = Some b -> a <= b) /\
      Forall (fun ev => a <= time_of (ev_timestamp ev)) pending.

End PooledDatabaseService.

(** ** class CameraService *)

Module CameraService.
Local Open Scope nat_scope.

(** [FRAME_SKIP = 3] in [process_camera]. *)
Definition FRAME_SKIP : nat := 3.

(** What the inner loop does with one captured frame. *)
Inductive frame_action :=
| Drained      (* cap.grab(); frame_count += 1; continue *)
| Processed.   (* cap.read(), detection, matching, send_frame *)

(** The inner [while] loop of [process_camera] over the reads the capture
    will answer ([true]: a frame, [false]: [ret] is false).  The result
    is the final [frame_count] and the action taken on each captured
    frame, in capture order.  The loop ends when the reads run out (the
    monitoring flag went false) or at a failed read ([break]). *)
Fixpoint frame_loop (frame_count : nat) (cap : list bool)
  : nat * list frame_action :=
  match cap with
  | [] => (frame_count, [])
  | ret :: cap' =>
      if negb (Nat.eqb (frame_count mod FRAME_SKIP) 0) then
        let (n, acts) := frame_loop (S frame_count) cap' in
        (n, Drained :: acts)
      else if ret then
        let (n, acts) := frame_loop (S frame_count) cap' in
        (n, Processed :: acts)
      else (frame_count, [])
  end.



(** The outer [while] loop of [process_camera]: one run of the inner
    loop for each connection to the camera, given by the reads that
    connection answers until the inner loop is left (the flag went
    false, a read failed, or a statement raised and the [except] clause
    took over).  [frame_count] is not reset between connections.  The 20
    frames grabbed when a connection is opened are thrown away before
    the inner loop and are not part of the trace. *)
Fixpoint stream_connections (frame_count : nat)
    (connections : list (list bool)) : nat * list frame_action :=
  match connections with
  | [] => (frame_count, [])
  | cap :: connections' =>
      let pass := frame_loop frame_count cap in
      let later := stream_connections (fst pass) connections' in
      (fst later, snd pass ++ snd later)
  end.

(** [process_camera]: [frame_count = 0], then the loop over the
    connections. *)
Definition process_camera (connections : list (list bool))
  : nat * list frame_action :=
  stream_connections 0 connections.

End CameraService.

(** ** class WebSocketManager *)

Module WebSocketManager.
Local Open Scope nat_scope.

(** What [connection.send_json(message)] does for one viewer.  For a
    Starlette [WebSocket], [send_json] is a coroutine function: the call
    only builds the coroutine, the send happens when it is awaited. *)
Inductive send_behaviour :=
| Delivers            (* the awaited send completes *)
| RaisesWhenAwaited   (* the awaited send raises: delivery fails *)
| RaisesWhenCalled.   (* the call itself raises, before any await *)

Record websocket := {
  ws_id : nat;
  send_json : send_behaviour
}.

(** The keys of a message that [broadcast] and [cache_frame] read. *)
Record message := {
  msg_type : string;
  camera : option string;
  image : option string
}.

Record manager := {
  active_connections : list websocket;
  connection_users : list (nat * (string * string * string));
  last_frame_entry : option string;
  last_frame_exit : option string
}.

Definition ws_eqb (a b : websocket) : bool := Nat.eqb (ws_id a) (ws_id b).

(** [list.remove(ws)]: the first equal element. *)
Fixpoint remove_first (ws : websocket) (l : list websocket)
  : list websocket :=
  match l with
  | [] => []
  | x :: l' => if ws_eqb x ws then l' else x :: remove_first ws l'
  end.

(** [dict.pop(ws, None)]. *)
Definition pop_user (ws : websocket)
    (users : list (nat * (string * string * string)))
  : list (nat * (string * string * string)) :=
  filter (fun kv => negb (Nat.eqb (fst kv) (ws_id ws))) users.

Definition cache_frame (self : manager) (m : message) : manager :=
  match camera m with
  | Some c =>
      if String.eqb c "entry" then
        {| active_connections := active_connections self;
           connection_users := connection_users self;
           last_frame_entry := image m;
           last_frame_exit := last_frame_exit self |}
      else if String.eqb c "exit" then
        {| active_connections := active_connections self;
           connection_users := connection_users self;
           last_frame_entry := last_frame_entry self;
           last_frame_exit := image m |}
      else self
  | None => self
  end.

(** The first loop: [tasks] gets the coroutine of every connection whose
    call returns, [disconnected] the connections whose call raises. *)
Fixpoint collect_tasks (conns : list websocket)
  : list websocket * list websocket :=
  match conns with
  | [] => ([], [])
  | connection :: rest =>
      let (tasks, disconnected) := collect_tasks rest in
      match send_json connection with
      | RaisesWhenCalled => (tasks, connection :: disconnected)
      | _ => (connection :: tasks, disconnected)
      end
  end.

(** [await asyncio.gather] of the tasks with [return_exceptions=True]: every task
    runs to its end; an exception becomes an entry of the result list,
    which [broadcast] drops.  The viewers that received the message: *)
Definition gather (tasks : list websocket) : list nat :=
  map ws_id
    (filter (fun c => match send_json c with Delivers => true | _ => false end)
            tasks).

(** The last loop: [for ws in disconnected: ...]. *)
Fixpoint drop_disconnected (self : manager) (disconnected : list websocket)
  : manager :=
  match disconnected with
  | [] => self
  | ws :: rest =>
      if existsb (ws_eqb ws) (active_connections self) then
        drop_disconnected
          {| active_connections := remove_first ws (active_connections self);
             connection_users := pop_user ws (connection_users self);
             last_frame_entry := last_frame_entry self;
             last_frame_exit := last_frame_exit self |}
          rest
      else drop_disconnected self rest
  end.

(** [broadcast]: the manager afterwards and the viewers the message was
    delivered to. *)
Definition broadcast (self : manager) (m : message) : manager * list nat :=
  match active_connections self with
  | [] => (self, [])
  | _ :: _ =>
      let self1 :=
        if String.eqb (msg_type m) "frame" then cache_frame self m
        else self in
      let (tasks, disconnected) := collect_tasks (active_connections self1) in
      let delivered := gather tasks in
      (drop_disconnected self1 disconnected, delivered)
  end.

End WebSocketManager.

(** ** Concrete inputs used by the examples below *)

Module Examples.
Import FaceRecognitionServiceFAISS.
Local Open Scope Q_scope.

(** The embeddings below are unit vectors already, so the identity stands
    in for [faiss.normalize_L2] on them. *)
Definition unit_normalize (v : embedding) : embedding := v.

(** Two enrolled identities: E001 with two poses, E002 with one. *)
Definition two_employees : face_map_t :=
  [ ("E001", {| name := "Asha"; embeddings := [[1; 0]; [4 # 5; 3 # 5]] |});
    ("E002", {| name := "Ravi"; embeddings := [[0; 1]] |}) ].

Definition two_employees_service : service :=
  load_face_map unit_normalize init two_employees.

Definition two_employees_index : IndexFlatIP :=
  {| d := 2; xb := [[1; 0]; [4 # 5; 3 # 5]; [0; 1]] |}.

(** One enrolled identity with a single pose. *)
Definition one_employee_service : service :=
  load_face_map unit_normalize init
    [ ("E001", {| name := "Asha"; embeddings := [[1; 0]] |}) ].

Definition one_employee_index : IndexFlatIP :=
  {| d := 2; xb := [[1; 0]] |}.

(** A query close to both poses of E001 and what the matcher sees. *)
Definition near_E001 : embedding := [24 # 25; 7 # 25].

Definition near_E001_neighbors : list (nat * Q) :=
  [ (0%nat, 600 # 625); (1%nat, 14625 # 15625); (2%nat, 175 # 625) ].

Definition near_E001_scores : list (string * list Q) :=
  [ ("E001", [600 # 625; 14625 # 15625]); ("E002", [175 # 625]) ].

(** An employee record without any embedding (enrollment in progress). *)
Definition not_enrolled_yet : face_map_t :=
  [ ("E009", {| name := "Mina"; embeddings := [] |}) ].

(** Ledger inputs: one enrolled employee, an empty table, and aware
    timestamps of one day given by their IST wall-clock time. *)
Definition empty_ledger : PooledDatabaseService.database :=
  {| PooledDatabaseService.employees := ["E001"];
     PooledDatabaseService.attendance_logs := [];
     PooledDatabaseService.next_id := 1 |}.

Definition ist_time (hour minute : Z) : PooledDatabaseService.datetime :=
  {| PooledDatabaseService.wall_seconds :=
       (20000 * 86400 + hour * 3600 + minute * 60)%Z;
     PooledDatabaseService.tzinfo := Some 19800%Z |}.

Definition sighting (event_type camera_id : string) (hour minute : Z)
  : PooledDatabaseService.event :=
  {| PooledDatabaseService.ev_emp_id := "E001";
     PooledDatabaseService.ev_type := event_type;
     PooledDatabaseService.ev_camera_id := camera_id;
     PooledDatabaseService.ev_confidence := 9 # 10;
     PooledDatabaseService.ev_timestamp := ist_time hour minute |}.

(** Three viewers; the send to the second one fails when awaited. *)
Definition three_viewers : WebSocketManager.manager :=
  {| WebSocketManager.active_connections :=
       [ {| WebSocketManager.ws_id := 1;
            WebSocketManager.send_json := WebSocketManager.Delivers |};
         {| WebSocketManager.ws_id := 2;
            WebSocketManager.send_json :=
              WebSocketManager.RaisesWhenAwaited |};
         {| WebSocketManager.ws_id := 3;
            WebSocketManager.send_json := WebSocketManager.Delivers |} ];
     WebSocketManager.connection_users :=
       [ (1%nat, ("u1", "Asha", "admin")); (2%nat, ("u2", "Ravi", "user"));
         (3%nat, ("u3", "Mina", "user")) ];
     WebSocketManager.last_frame_entry := None;
     WebSocketManager.last_frame_exit := None |}.

Definition status_message : WebSocketManager.message :=
  {| WebSocketManager.msg_type := "status";
     WebSocketManager.camera := None;
     WebSocketManager.image := None |}.
End Examples.

(** ** PooledDatabaseService: the shape of the table and the retention job *)

Module AttendanceTable.
Import PooledDatabaseService.
Local Open Scope Z_scope.

(** The key of [UNIQUE (emp_id, date)]. *)
Definition key_of (r : row) : string * Z := (emp_id r, date r).

(** What the declaration of [attendance_logs] guarantees of a stored
    table: [id] is a primary key drawn from the BIGSERIAL counter, and
    [(emp_id, date)] is unique. *)
Definition well_formed (db : database) : Prop :=
  NoDup (map id (attendance_logs db)) /\
  Forall (fun r => id r < next_id db) (attendance_logs db) /\
  NoDup (map key_of (attendance_logs db)).

(** The range of [datetime.date], as day numbers of this development
    (days since 1970-01-01): [date.min] is 0001-01-01 and [date.max] is
    9999-12-31.  A [timedelta] holds at most 999999999 days, either
    way. *)
Definition date_min : Z := -719162.
Definition date_max : Z := 2932896.
Definition timedelta_max_days : Z := 999999999.

(** [d - datetime.timedelta(days=days)] for a date [d]; [None] is the
    [OverflowError] that the constructor of [timedelta] or the
    subtraction raises. *)
Definition date_minus_days (d days : Z) : option Z :=
  if Z.ltb timedelta_max_days (Z.abs days) then None
  else if Z.ltb (d - days) date_min || Z.ltb date_max (d - days) then None
  else Some (d - days).

(** [cleanup_old_logs(days_to_keep)], run on the day [today]
    ([datetime.date.today()]): [DELETE FROM attendance_logs WHERE date <
    cutoff_date]; the second component is [cursor.rowcount], returned as
    ["deleted"].  The function catches [PostgresError] only: when the
    cutoff date cannot be computed the [OverflowError] leaves the
    function, before any statement is run, and the result is [None]. *)
Definition cleanup_old_logs (db : database) (today days_to_keep : Z)
  : option (database * Z) :=
  match date_minus_days today days_to_keep with
  | None => None
  | Some cutoff_date =>
      let kept := filter (fun r => negb (Z.ltb (date r) cutoff_date))
                         (attendance_logs db) in
      let deleted := filter (fun r => Z.ltb (date r) cutoff_date)
                            (attendance_logs db) in
      Some ({| employees := employees db;
               attendance_logs := kept;
               next_id := next_id db |},
            Z.of_nat (length deleted))
  end.

End AttendanceTable.

(** ** PooledDatabaseService: the employees table *)

Module EmployeeStore.
Import FaceRecognitionServiceFAISS.

(** One pair of columns [<angle>_embedding], [<angle>_quality]. *)
Record slot := {
  slot_embedding : option embedding;
  slot_quality : option Q
}.

Definition empty_slot : slot :=
  {| slot_embedding := None; slot_quality := None |}.

(** A row of [employees]: the columns the functions below read or write
    ([id], [created_at] and [updated_at] are left out).  [is_active] is
    always set: every statement that writes the row gives it a value. *)
Record employee_row := {
  emp_id : string;
  name : string;
  department : string;
  position : string;
  is_active : bool;
  front_slot : slot;
  looking_up_slot : slot;
  left_slot : slot;
  right_slot : slot;
  up_left_slot : slot;
  up_right_slot : slot;
  tilt_left_slot : slot;
  tilt_right_slot : slot
}.

Definition employees_table := list employee_row.

(** The dict the functions return. *)
Record reply := {
  success : bool;
  message : string
}.

Definition done (msg : string) : reply :=
  {| success := true; message := msg |}.

Definition refused (msg : string) : reply :=
  {| success := false; message := msg |}.

Inductive angle :=
| A_front
| A_looking_up
| A_left
| A_right
| A_up_left
| A_up_right
| A_tilt_left
| A_tilt_right.

(** [angle_mapping] of [save_face_embedding]: the keys of the dict. *)
Definition angle_mapping (a : string) : option angle :=
  if String.eqb a "front" then Some A_front
  else if String.eqb a "looking_up" then Some A_looking_up
  else if String.eqb a "left" then Some A_left
  else if String.eqb a "right" then Some A_right
  else if String.eqb a "up_left" then Some A_up_left
  else if String.eqb a "up_right" then Some A_up_right
  else if String.eqb a "tilt_left" then Some A_tilt_left
  else if String.eqb a "tilt_right" then Some A_tilt_right
  else None.

Definition get_slot (a : angle) (r : employee_row) : slot :=
  match a with
  | A_front => front_slot r
  | A_looking_up => looking_up_slot r
  | A_left => left_slot r
  | A_right => right_slot r
  | A_up_left => up_left_slot r
  | A_up_right => up_right_slot r
  | A_tilt_left => tilt_left_slot r
  | A_tilt_right => tilt_right_slot r
  end.

Definition set_slot (a : angle) (s : slot) (r : employee_row)
  : employee_row :=
  match a with
  | A_front =>
      {| emp_id := emp_id r; name := name r;
         department := department r; position := position r;
         is_active := is_active r;
         front_slot := s;
         looking_up_slot := looking_up_slot r;
         left_slot := left_slot r;
         right_slot := right_slot r;
         up_left_slot := up_left_slot r;
         up_right_slot := up_right_slot r;
         tilt_left_slot := tilt_left_slot r;
         tilt_right_slot := tilt_right_slot r |}
  | A_looking_up =>
      {| emp_id := emp_id r; name := name r;
         department := department r; position := position r;
         is_active := is_active r;
         front_slot := front_slot r;
         looking_up_slot := s;
         left_slot := left_slot r;
         right_slot := right_slot r;
         up_left_slot := up_left_slot r;
         up_right_slot := up_right_slot r;
         tilt_left_slot := tilt_left_slot r;
         tilt_right_slot := tilt_right_slot r |}
  | A_left =>
      {| emp_id := emp_id r; name := name r;
         department := department r; position := position r;
         is_active := is_active r;
         front_slot := front_slot r;
         looking_up_slot := looking_up_slot r;
         left_slot := s;
         right_slot := right_slot r;
         up_left_slot := up_left_slot r;
         up_right_slot := up_right_slot r;
         tilt_left_slot := tilt_left_slot r;
         tilt_right_slot := tilt_right_slot r |}
  | A_right =>
      {| emp_id := emp_id r; name := name r;
         department := department r; position := position r;
         is_active := is_active r;
         front_slot := front_slot r;
         looking_up_slot := looking_up_slot r;
         left_slot := left_slot r;
         right_slot := s;
         up_left_slot := up_left_slot r;
         up_right_slot := up_right_slot r;
         tilt_left_slot := tilt_left_slot r;
         tilt_right_slot := tilt_right_slot r |}
  | A_up_left =>
      {| emp_id := emp_id r; name := name r;
         department := department r; position := position r;
         is_active := is_active r;
         front_slot := front_slot r;
         looking_up_slot := looking_up_slot r;
         left_slot := left_slot r;
         right_slot := right_slot r;
         up_left_slot := s;
         up_right_slot := up_right_slot r;
         tilt_left_slot := tilt_left_slot r;
         tilt_right_slot := tilt_right_slot r |}
  | A_up_right =>
      {| emp_id := emp_id r; name := name r;
         department := department r; position := position r;
         is_active := is_active r;
         front_slot := front_slot r;
         looking_up_slot := looking_up_slot r;
         left_slot := left_slot r;
         right_slot := right_slot r;
         up_left_slot := up_left_slot r;
         up_right_slot := s;
         tilt_left_slot := tilt_left_slot r;
         tilt_right_slot := tilt_right_slot r |}
  | A_tilt_left =>
      {| emp_id := emp_id r; name := name r;
         department := department r; position := position r;
         is_active := is_active r;
         front_slot := front_slot r;
         looking_up_slot := looking_up_slot r;
         left_slot := left_slot r;
         right_slot := right_slot r;
         up_left_slot := up_left_slot r;
         up_right_slot := up_right_slot r;
         tilt_left_slot := s;
         tilt_right_slot := tilt_right_slot r |}
  | A_tilt_right =>
      {| emp_id := emp_id r; name := name r;
         department := department r; position := position r;
         is_active := is_active r;
         front_slot := front_slot r;
         looking_up_slot := looking_up_slot r;
         left_slot := left_slot r;
         right_slot := right_slot r;
         up_left_slot := up_left_slot r;
         up_right_slot := up_right_slot r;
         tilt_left_slot := tilt_left_slot r;
         tilt_right_slot := s |}
  end.

(** The dimension of the [vector(512)] columns. *)
Definition vector_dim : nat := 512.

Definition fits_varchar (n : nat) (s : string) : bool :=
  Nat.leb (String.length s) n.

(** The column types of [name], [department] and [position]. *)
Definition details_fit (name department position : string) : bool :=
  fits_varchar 100 name && fits_varchar 50 department
  && fits_varchar 50 position.

(** [SELECT emp_id, is_active FROM employees WHERE emp_id = %s]. *)
Definition select_employee (tbl : employees_table) (e : string)
  : option employee_row :=
  find (fun r => String.eqb (emp_id r) e) tbl.

(** [UPDATE employees SET ... WHERE emp_id = %s] and its [rowcount]. *)
Definition update_where_emp_id (tbl : employees_table) (e : string)
    (f : employee_row -> employee_row) : employees_table * nat :=
  (map (fun r => if String.eqb (emp_id r) e then f r else r) tbl,
   length (filter (fun r => String.eqb (emp_id r) e) tbl)).

Definition set_details (n dep pos : string) (active : bool)
    (r : employee_row) : employee_row :=
  {| emp_id := emp_id r; name := n; department := dep; position := pos;
     is_active := active;
     front_slot := front_slot r;
     looking_up_slot := looking_up_slot r;
     left_slot := left_slot r;
     right_slot := right_slot r;
     up_left_slot := up_left_slot r;
     up_right_slot := up_right_slot r;
     tilt_left_slot := tilt_left_slot r;
     tilt_right_slot := tilt_right_slot r |}.

Definition set_active (active : bool) (r : employee_row) : employee_row :=
  set_details (name r) (department r) (position r) active r.

Definition new_employee (e n dep pos : string) : employee_row :=
  {| emp_id := e; name := n; department := dep; position := pos;
     is_active := true;
     front_slot := empty_slot;
     looking_up_slot := empty_slot;
     left_slot := empty_slot;
     right_slot := empty_slot;
     up_left_slot := empty_slot;
     up_right_slot := empty_slot;
     tilt_left_slot := empty_slot;
     tilt_right_slot := empty_slot |}.

(** [create_employee]: create or reactivate. *)
Definition create_employee (tbl : employees_table)
    (e n dep pos : string) : employees_table * reply :=
  match select_employee tbl e with
  | Some existing =>
      if negb (is_active existing) then
        if details_fit n dep pos then
          (fst (update_where_emp_id tbl (emp_id existing)
                  (set_details n dep pos true)),
           done "Employee reactivated")
        else (tbl, refused "value too long for type character varying")
      else (tbl, refused "Employee ID already exists")
  | None =>
      if fits_varchar 20 e && details_fit n dep pos then
        (tbl ++ [new_employee e n dep pos], done "Employee created")
      else (tbl, refused "value too long for type character varying")
  end.

(** [update_employee]. *)
Definition update_employee (tbl : employees_table)
    (e n dep pos : string) : employees_table * reply :=
  if details_fit n dep pos then
    let (tbl', rowcount) :=
      update_where_emp_id tbl e
        (fun r => set_details n dep pos (is_active r) r) in
    if Nat.eqb rowcount 0 then (tbl, refused "Employee not found")
    else (tbl', done "Employee updated")
  else (tbl, refused "value too long for type character varying").

(** [delete_employee]: a soft delete. *)
Definition delete_employee (tbl : employees_table) (e : string)
  : employees_table * reply :=
  let (tbl', rowcount) := update_where_emp_id tbl e (set_active false) in
  if Nat.eqb rowcount 0 then (tbl, refused "Employee not found")
  else (tbl', done "Employee deactivated").

(** [save_face_embedding]; the key ["quality"] of the success dict is left
    out of [reply]. *)
Definition save_face_embedding (tbl : employees_table) (e : string)
    (emb : embedding) (angle_name : string) (quality : Q)
  : employees_table * reply :=
  match angle_mapping angle_name with
  | None => (tbl, refused ("Invalid angle: " ++ angle_name))
  | Some a =>
      if Nat.eqb (length emb) vector_dim then
        let (tbl', rowcount) :=
          update_where_emp_id tbl e
            (set_slot a {| slot_embedding := Some emb;
                           slot_quality := Some quality |}) in
        if Nat.eqb rowcount 0 then (tbl, refused "Employee not found")
        else (tbl', done "Face saved")
      else (tbl, refused "expected 512 dimensions")
  end.

(** The eight embedding columns in the order of the SELECT of
    [load_all_embeddings]. *)
Definition embedding_columns (r : employee_row) : list (option embedding) :=
  [ slot_embedding (front_slot r);
    slot_embedding (looking_up_slot r);
    slot_embedding (left_slot r);
    slot_embedding (right_slot r);
    slot_embedding (up_left_slot r);
    slot_embedding (up_right_slot r);
    slot_embedding (tilt_left_slot r);
    slot_embedding (tilt_right_slot r) ].

(** The inner loop: the non-null embeddings of a row. *)
Fixpoint non_null (cols : list (option embedding)) : list embedding :=
  match cols with
  | [] => []
  | Some emb :: rest => emb :: non_null rest
  | None :: rest => non_null rest
  end.

(** [face_map[emp_id] = value] on a dict. *)
Fixpoint dict_set (fm : face_map_t) (k : string) (v : employee)
  : face_map_t :=
  match fm with
  | [] => [(k, v)]
  | (k', v') :: rest =>
      if String.eqb k' k then (k', v) :: rest
      else (k', v') :: dict_set rest k v
  end.

(** One iteration of the loop over the fetched rows. *)
Definition add_row (fm : face_map_t) (r : employee_row) : face_map_t :=
  match non_null (embedding_columns r) with
  | [] => fm
  | embs =>
      dict_set fm (emp_id r)
        {| FaceRecognitionServiceFAISS.name := name r;
           embeddings := embs |}
  end.

(** [load_all_embeddings]: the rows [WHERE is_active = TRUE]. *)
Definition load_all_embeddings (tbl : employees_table) : face_map_t :=
  fold_left add_row (filter is_active tbl) [].

(** [emp_id] is declared UNIQUE. *)
Definition unique_ids (tbl : employees_table) : Prop :=
  NoDup (map emp_id tbl).

(** The entry of the face map that a row contributes. *)
Definition entry_of (r : employee_row) : employee :=
  {| FaceRecognitionServiceFAISS.name := name r;
     embeddings := non_null (embedding_columns r) |}.

End EmployeeStore.

(** ** WebSocketManager and the [/ws] endpoint: the monitoring session *)

Module MonitoringHub.
Import WebSocketManager.
Local Open Scope nat_scope.

(** The manager with the fields that the claims' model of [broadcast]
    does not need: [is_monitoring] and [started_by]. *)
Record hub := {
  manager_of : manager;
  is_monitoring : bool;
  started_by : option string
}.

(** [WebSocketManager.__init__]. *)
Definition init : hub :=
  {| manager_of := {| active_connections := [];
                      connection_users := [];
                      last_frame_entry := None;
                      last_frame_exit := None |};
     is_monitoring := false;
     started_by := None |}.

(** The messages sent to one viewer. *)
Inductive outbound :=
| ConnectionStatus (active_users : nat) (cameras_running : bool)
    (your_role : string) (can_stop : bool)
| CachedFrame (camera image : string)        (* 'faces_count': 0 *)
| AlreadyRunning (starter : option string) (active_users : nat)
| StopRefused (starter : option string)
| StatsReply (stats : nat * nat * nat) (active_users : nat)
    (starter : option string).

(** What a handler does besides changing the hub. *)
Inductive effect :=
| SpawnCamera (camera_type : string)   (* asyncio.create_task(process_camera) *)
| Broadcasted (camera_status : string) (delivered : list nat)
| Sent (viewer : nat) (m : outbound).

Definition with_manager (h : hub) (m : manager) : hub :=
  {| manager_of := m;
     is_monitoring := is_monitoring h;
     started_by := started_by h |}.

(** [connection_users[websocket] = value]. *)
Fixpoint set_user (users : list (nat * (string * string * string)))
    (k : nat) (v : string * string * string)
  : list (nat * (string * string * string)) :=
  match users with
  | [] => [(k, v)]
  | (k', v') :: rest =>
      if Nat.eqb k' k then (k', v) :: rest
      else (k', v') :: set_user rest k v
  end.

(** [await websocket.send_json(m)] outside any [try]: the message when it
    is delivered, [None] when the send raises. *)
Definition send_to (ws : websocket) (m : outbound) : option effect :=
  match send_json ws with
  | Delivers => Some (Sent (ws_id ws) m)
  | _ => None
  end.

(** [connect]: register, then report the status to the new viewer.  The
    second component is [None] when that send raises (the registration
    has happened by then). *)
Definition connect (h : hub) (ws : websocket)
    (user_id user_name user_role : string) : hub * option effect :=
  let m := manager_of h in
  let m' :=
    {| active_connections := active_connections m ++ [ws];
       connection_users :=
         set_user (connection_users m) (ws_id ws)
                  (user_id, user_name, user_role);
       last_frame_entry := last_frame_entry m;
       last_frame_exit := last_frame_exit m |} in
  (with_manager h m',
   send_to ws (ConnectionStatus (length (active_connections m'))
                 (is_monitoring h) user_role
                 (String.eqb user_role "admin"))).

(** [disconnect]. *)
Definition disconnect (h : hub) (ws : websocket) : hub :=
  let m := manager_of h in
  if existsb (fun c => ws_eqb c ws) (active_connections m) then
    with_manager h
      {| active_connections := remove_first ws (active_connections m);
         connection_users := pop_user ws (connection_users m);
         last_frame_entry := last_frame_entry m;
         last_frame_exit := last_frame_exit m |}
  else h.

(** Python truth of a cached frame: neither [None] nor the empty
    string. *)
Definition truthy (frame : option string) : option string :=
  match frame with
  | Some "" => None
  | other => other
  end.

(** One of the two guarded sends of [send_cached_frames]: an exception of
    the send is caught and logged. *)
Definition send_cached (ws : websocket) (camera : string)
    (frame : option string) : list effect :=
  match truthy frame with
  | Some image =>
      match send_json ws with
      | Delivers => [Sent (ws_id ws) (CachedFrame camera image)]
      | _ => []
      end
  | None => []
  end.

(** [send_cached_frames]: the entry frame, then the exit frame. *)
Definition send_cached_frames (h : hub) (ws : websocket) : list effect :=
  send_cached ws "entry" (last_frame_entry (manager_of h)) ++
  send_cached ws "exit" (last_frame_exit (manager_of h)).

Definition status_message : message :=
  {| msg_type := "status"; camera := None; image := None |}.

(** [ws_manager.broadcast] of a status message. *)
Definition broadcast_status (h : hub) (camera_status : string)
  : hub * list effect :=
  let (m', delivered) := broadcast (manager_of h) status_message in
  (with_manager h m', [Broadcasted camera_status delivered]).

(** The outcome of a step of the endpoint: the hub, what was done, and
    whether the connection goes on ([false]: an exception ended the
    handler, which has called [disconnect]). *)
Definition step_result : Type := hub * list effect * bool.

(** A direct send of the receive loop: a failure is caught by [except
    Exception], which disconnects the viewer and ends the loop. *)
Definition reply (h : hub) (ws : websocket) (m : outbound)
    (then_do : list effect) : step_result :=
  match send_to ws m with
  | Some sent => (h, sent :: then_do, true)
  | None => (disconnect h ws, [], false)
  end.

(** One message of the receive loop of [websocket_endpoint] for the
    viewer [ws], logged in as [user_name] with role [user_role]; [stats]
    is [camera_service.get_stats()]. *)
Definition handle_action (h : hub) (ws : websocket)
    (user_name user_role : string) (action : string)
    (stats : nat * nat * nat) : step_result :=
  if String.eqb action "start" then
    if negb (is_monitoring h) then
      let h1 := {| manager_of := manager_of h;
                   is_monitoring := true;
                   started_by := Some user_name |} in
      let (h2, sent) := broadcast_status h1 "started" in
      (h2, SpawnCamera "entry" :: SpawnCamera "exit" :: sent, true)
    else
      reply h ws
        (AlreadyRunning (started_by h)
           (length (active_connections (manager_of h))))
        (send_cached_frames h ws)
  else if String.eqb action "stop" then
    if String.eqb user_role "admin"
       || match started_by h with
          | Some starter => String.eqb user_name starter
          | None => false
          end
    then
      let h1 := {| manager_of := manager_of h;
                   is_monitoring := false;
                   started_by := started_by h |} in
      let (h2, sent) := broadcast_status h1 "stopped" in
      (h2, sent, true)
    else reply h ws (StopRefused (started_by h)) []
  else if String.eqb action "get_cached_frames" then
    (h, send_cached_frames h ws, true)
  else if String.eqb action "stats" then
    reply h ws
      (StatsReply stats (length (active_connections (manager_of h)))
         (if is_monitoring h then started_by h else None))
      []
  else (h, [], true).

(** A request of a connected viewer. *)
Record request := {
  rq_ws : websocket;
  rq_user_name : string;
  rq_user_role : string;
  rq_action : string
}.

(** The requests of several viewers, handled one after the other. *)
Fixpoint handle_all (h : hub) (rqs : list request) (stats : nat * nat * nat)
  : hub * list effect :=
  match rqs with
  | [] => (h, [])
  | rq :: rest =>
      let '(h1, done, _) :=
        handle_action h (rq_ws rq) (rq_user_name rq) (rq_user_role rq)
          (rq_action rq) stats in
      let (h2, later) := handle_all h1 rest stats in
      (h2, done ++ later)
  end.

(** What the endpoint does when a viewer arrives, before its receive
    loop: [connect], and while monitoring runs the cached frames and the
    notice that the cameras are running. *)
Definition on_connect (h : hub) (ws : websocket)
    (user_id user_name user_role : string) : step_result :=
  match connect h ws user_id user_name user_role with
  | (h1, None) => (h1, [], false)
  | (h1, Some status) =>
      if is_monitoring h1 then
        match send_to ws
                (AlreadyRunning (started_by h1)
                   (length (active_connections (manager_of h1)))) with
        | Some notice =>
            (h1, status :: send_cached_frames h1 ws ++ [notice], true)
        | None => (h1, status :: send_cached_frames h1 ws, false)
        end
      else (h1, [status], true)
  end.

Definition is_spawn (e : effect) : bool :=
  match e with
  | SpawnCamera _ => true
  | _ => false
  end.

End MonitoringHub.

(** ** CameraService: one processed frame and the reconnect loop *)

Module CameraWorker.
Import FaceRecognitionServiceFAISS.
Local Open Scope nat_scope.

(** A detected face: what the worker reads of it. *)
Record face := {
  det_score : Q;
  face_embedding : embedding
}.

(** [self.cameras[camera_type]]. *)
Record camera := {
  purpose : string;    (* 'IN' or 'OUT' *)
  camera_id : string
}.

(** [self.stats]. *)
Record stats := {
  total_faces : nat;
  recognized : nat;
  unknown : nat
}.

(** The payload of an ['attendance'] message and the viewers it
    reached. *)
Record notification := {
  n_emp_id : string;
  n_event_type : string;
  n_confidence : Q;
  n_action : option string;
  n_delivered : list nat
}.

(** What a frame changes. *)
Record world := {
  w_stats : stats;
  w_db : PooledDatabaseService.database;
  w_manager : WebSocketManager.manager
}.

Definition attendance_message : WebSocketManager.message :=
  {| WebSocketManager.msg_type := "attendance";
     WebSocketManager.camera := None;
     WebSocketManager.image := None |}.

Section WithFaiss.
Variable normalize_L2 : embedding -> embedding.

(** The body of [for face in faces[:10]] for one face. *)
Definition process_face (svc : service) (cam : camera)
    (timestamp : PooledDatabaseService.datetime)
    (w : world) (f : face) : world * list notification :=
  if Qlt_bool (det_score f) (35 # 100) then (w, [])
  else
    let (emp, confidence) := recognize_face normalize_L2 svc
                               (face_embedding f) in
    match emp with
    | Some (String c rest as emp_id) =>
        if Qle_bool (40 # 100) confidence then
          let st := {| total_faces := total_faces (w_stats w);
                       recognized := S (recognized (w_stats w));
                       unknown := unknown (w_stats w) |} in
          let (db', result) :=
            PooledDatabaseService.log_attendance_update_only (w_db w)
              emp_id (purpose cam) (camera_id cam) confidence timestamp in
          if PooledDatabaseService.success result
             && negb (match PooledDatabaseService.action result with
                      | Some a => String.eqb a "skipped"
                      | None => false
                      end)
          then
            let (m', delivered) :=
              WebSocketManager.broadcast (w_manager w) attendance_message in
            ({| w_stats := st; w_db := db'; w_manager := m' |},
             [ {| n_emp_id := emp_id; n_event_type := purpose cam;
                  n_confidence := confidence;
                  n_action := PooledDatabaseService.action result;
                  n_delivered := delivered |} ])
          else ({| w_stats := st; w_db := db'; w_manager := w_manager w |}, [])
        else
          ({| w_stats := {| total_faces := total_faces (w_stats w);
                            recognized := recognized (w_stats w);
                            unknown := S (unknown (w_stats w)) |};
              w_db := w_db w; w_manager := w_manager w |}, [])
    | _ =>
        ({| w_stats := {| total_faces := total_faces (w_stats w);
                          recognized := recognized (w_stats w);
                          unknown := S (unknown (w_stats w)) |};
            w_db := w_db w; w_manager := w_manager w |}, [])
    end.

Fixpoint process_faces (svc : service) (cam : camera)
    (timestamp : PooledDatabaseService.datetime)
    (w : world) (faces : list face) : world * list notification :=
  match faces with
  | [] => (w, [])
  | f :: rest =>
      let (w1, sent) := process_face svc cam timestamp w f in
      let (w2, later) := process_faces svc cam timestamp w1 rest in
      (w2, sent ++ later)
  end.

(** A processed frame of [process_camera] from the detection on:
    [stats['total_faces'] += len(faces)], then the loop over
    [faces[:10]].  (The frame itself is published afterwards by
    [send_frame].) *)
Definition process_detections (svc : service) (cam : camera)
    (timestamp : PooledDatabaseService.datetime)
    (w : world) (faces : list face) : world * list notification :=
  let w0 := {| w_stats := {| total_faces :=
                               total_faces (w_stats w) + length faces;
                             recognized := recognized (w_stats w);
                             unknown := unknown (w_stats w) |};
               w_db := w_db w; w_manager := w_manager w |} in
  process_faces svc cam timestamp w0 (firstn 10 faces).
End WithFaiss.




(** The faces that pass [if face.det_score < 0.35: continue]. *)
Definition scored (f : face) : bool :=
  negb (Qlt_bool (det_score f) (35 # 100)).

(** A notification as the worker sends it. *)
Definition well_formed_notification (svc : service) (cam : camera)
    (n : notification) : Prop :=
  (n_action n = Some "inserted" \/ n_action n = Some "updated") /\
  n_event_type n = purpose cam /\
  (40 # 100 <= n_confidence n)%Q /\
  (recognition_threshold svc <= n_confidence n)%Q /\
  In (n_emp_id n) (emp_id_map svc).

End CameraWorker.

(** ** class AuthenticationService *)

Module AuthenticationService.
Local Open Scope Z_scope.

(** A row of [users] (the columns the service reads or writes).  Times
    are seconds; the clock of the database ([NOW()],
    [CURRENT_TIMESTAMP]) and the clock of the process
    ([datetime.now()]) are one clock here. *)
Record user_row := {
  id : Z;
  username : string;
  password_hash : string;
  full_name : string;
  email : string;
  role : string;
  is_active : bool;
  failed_attempts : Z;
  locked_until : option Z;
  last_login : option Z
}.

(** A row of [sessions]. *)
Record session_row := {
  session_token : string;
  user_id : Z;
  expires_at : Z;
  session_active : bool
}.

Record store := {
  users : list user_row;
  sessions : list session_row
}.

(** The dict that [authenticate_user] and [validate_session] return. *)
Record user_info := {
  info_id : Z;
  info_username : string;
  info_full_name : string;
  info_email : string;
  info_role : string
}.

Definition info_of (u : user_row) : user_info :=
  {| info_id := id u; info_username := username u;
     info_full_name := full_name u; info_email := email u;
     info_role := role u |}.

Definition update_user (db : store) (uid : Z) (f : user_row -> user_row)
  : store :=
  {| users := map (fun u => if Z.eqb (id u) uid then f u else u) (users db);
     sessions := sessions db |}.

(** [INTERVAL '30 minutes'] and [INTERVAL '8 hours']. *)
Definition lock_seconds : Z := 1800.
Definition session_seconds : Z := 28800.

(** [_handle_failed_login]: the CASE reads the count before the
    increment. *)
Definition handle_failed_login (db : store) (now uid : Z) : store :=
  update_user db uid
    (fun u =>
       {| id := id u; username := username u;
          password_hash := password_hash u; full_name := full_name u;
          email := email u; role := role u; is_active := is_active u;
          failed_attempts := failed_attempts u + 1;
          locked_until :=
            if Z.leb 4 (failed_attempts u) then Some (now + lock_seconds)
            else locked_until u;
          last_login := last_login u |}).

(** [_reset_failed_attempts] followed by [_update_last_login]. *)
Definition record_login (db : store) (now uid : Z) : store :=
  update_user
    (update_user db uid
       (fun u =>
          {| id := id u; username := username u;
             password_hash := password_hash u; full_name := full_name u;
             email := email u; role := role u; is_active := is_active u;
             failed_attempts := 0; locked_until := None;
             last_login := last_login u |}))
    uid
    (fun u =>
       {| id := id u; username := username u;
          password_hash := password_hash u; full_name := full_name u;
          email := email u; role := role u; is_active := is_active u;
          failed_attempts := failed_attempts u;
          locked_until := locked_until u;
          last_login := Some now |}).

Definition select_user (db : store) (name : string) : option user_row :=
  find (fun u => String.eqb (username u) name) (users db).

Section WithBcrypt.
(** [bcrypt.checkpw(password, hash)]: [None] when it raises [ValueError]
    (a stored value that is not a bcrypt hash). *)
Variable checkpw : string -> string -> option bool.

(** Whether the password is accepted, with the fallback to the comparison
    with the stored value after a [ValueError]. *)
Definition password_ok (password hash : string) : bool :=
  match checkpw password hash with
  | Some ok => ok
  | None => String.eqb password hash
  end.

Definition authenticate_user (db : store) (now : Z)
    (name password : string) : store * option user_info :=
  match select_user db name with
  | None => (db, None)
  | Some u =>
      if negb (is_active u) then (db, None)
      else if match locked_until u with
              | Some t => Z.ltb now t
              | None => false
              end
      then (db, None)
      else if password_ok password (password_hash u) then
        (record_login db now (id u), Some (info_of u))
      else (handle_failed_login db now (id u), None)
  end.

(** Login attempts for one user name, one after the other, each with its
    time and password. *)
Fixpoint login_attempts (db : store) (name : string)
    (tries : list (Z * string)) : store * list (option user_info) :=
  match tries with
  | [] => (db, [])
  | (now, password) :: rest =>
      let (db1, r) := authenticate_user db now name password in
      let (db2, rs) := login_attempts db1 name rest in
      (db2, r :: rs)
  end.
End WithBcrypt.

(** [create_session] with the token that [secrets.token_urlsafe] drew:
    [None] when the INSERT fails (the token is taken, or the user id is
    not in [users]). *)
Definition create_session (db : store) (now uid : Z) (token : string)
  : store * option string :=
  if existsb (fun s => String.eqb (session_token s) token) (sessions db)
     || negb (existsb (fun u => Z.eqb (id u) uid) (users db))
  then (db, None)
  else
    ({| users := users db;
        sessions := sessions db ++
                    [ {| session_token := token; user_id := uid;
                         expires_at := now + session_seconds;
                         session_active := true |} ] |},
     Some token).

(** The rows of the join of [validate_session], in the order sessions,
    then users. *)
Definition valid_pairs (db : store) (now : Z) (token : string)
  : list user_row :=
  flat_map
    (fun s =>
       if String.eqb (session_token s) token && session_active s
          && Z.ltb now (expires_at s)
       then filter (fun u => Z.eqb (id u) (user_id s) && is_active u)
                   (users db)
       else [])
    (sessions db).

Definition validate_session (db : store) (now : Z) (token : string)
  : option user_info :=
  match valid_pairs db now token with
  | u :: _ => Some (info_of u)
  | [] => None
  end.

(** [delete_session]: logout. *)
Definition delete_session (db : store) (token : string) : store :=
  {| users := users db;
     sessions :=
       map (fun s =>
              if String.eqb (session_token s) token then
                {| session_token := session_token s; user_id := user_id s;
                   expires_at := expires_at s; session_active := false |}
              else s) (sessions db) |}.

(** [cleanup_expired_sessions]: the store and the number of rows
    deleted. *)
Definition cleanup_expired_sessions (db : store) (now : Z) : store * nat :=
  let gone := fun s => Z.ltb (expires_at s) now || negb (session_active s) in
  ({| users := users db;
      sessions := filter (fun s => negb (gone s)) (sessions db) |},
   length (filter gone (sessions db))).

End AuthenticationService.

(** ** More concrete inputs *)

Module MoreExamples.
Import PooledDatabaseService Examples.

(** The ledger after E001 was seen at the entry at 09:00. *)
Definition ledger_after_in : database :=
  fst (record_event empty_ledger (sighting "IN" "cam-entry" 9 0)).

(** A ledger holding a row that has no first-IN (written by another
    program) and an old row. *)
Definition ledger_with_blank_row : database :=
  {| employees := ["E001"];
     attendance_logs :=
       [ {| id := 1; emp_id := "E001"; date := 19000;
            first_in := Some 32400%Z; last_out := Some 64800%Z;
            in_camera_id := Some "cam-entry";
            out_camera_id := Some "cam-exit";
            in_confidence := Some (9 # 10); out_confidence := Some (8 # 10) |};
         {| id := 2; emp_id := "E001"; date := 20000;
            first_in := None; last_out := None;
            in_camera_id := None; out_camera_id := None;
            in_confidence := None; out_confidence := None |} ];
     next_id := 3 |}.

(** The employees table: E001 with two poses, E002 with one, E003 not
    enrolled yet, E004 deactivated. *)
Definition pose (v : FaceRecognitionServiceFAISS.embedding)
  : EmployeeStore.slot :=
  {| EmployeeStore.slot_embedding := Some v;
     EmployeeStore.slot_quality := Some (8 # 10) |}.

Definition staff_row (e n : string) (active : bool)
    (front left : EmployeeStore.slot) : EmployeeStore.employee_row :=
  {| EmployeeStore.emp_id := e; EmployeeStore.name := n;
     EmployeeStore.department := "R&D"; EmployeeStore.position := "Engineer";
     EmployeeStore.is_active := active;
     EmployeeStore.front_slot := front;
     EmployeeStore.looking_up_slot := EmployeeStore.empty_slot;
     EmployeeStore.left_slot := left;
     EmployeeStore.right_slot := EmployeeStore.empty_slot;
     EmployeeStore.up_left_slot := EmployeeStore.empty_slot;
     EmployeeStore.up_right_slot := EmployeeStore.empty_slot;
     EmployeeStore.tilt_left_slot := EmployeeStore.empty_slot;
     EmployeeStore.tilt_right_slot := EmployeeStore.empty_slot |}.

Definition staff : EmployeeStore.employees_table :=
  [ staff_row "E001" "Asha" true (pose [1; 0]) (pose [4 # 5; 3 # 5]);
    staff_row "E002" "Ravi" true (pose [0; 1]) EmployeeStore.empty_slot;
    staff_row "E003" "Mina" true EmployeeStore.empty_slot
      EmployeeStore.empty_slot;
    staff_row "E004" "Omar" false (pose [1; 0]) EmployeeStore.empty_slot ].

(** An embedding of the dimension of the table columns. *)
Definition embedding_512 : FaceRecognitionServiceFAISS.embedding :=
  1 :: repeat 0 511.

(** The hub with the three viewers of [Examples.three_viewers], idle and
    with the cameras started by Asha; a fourth viewer; requests. *)
Definition idle_hub : MonitoringHub.hub :=
  {| MonitoringHub.manager_of := three_viewers;
     MonitoringHub.is_monitoring := false;
     MonitoringHub.started_by := None |}.

Definition running_hub : MonitoringHub.hub :=
  {| MonitoringHub.manager_of := three_viewers;
     MonitoringHub.is_monitoring := true;
     MonitoringHub.started_by := Some "Asha" |}.

Definition viewer (n : nat) : WebSocketManager.websocket :=
  {| WebSocketManager.ws_id := n;
     WebSocketManager.send_json := WebSocketManager.Delivers |}.

Definition asks (n : nat) (user_name user_role action : string)
  : MonitoringHub.request :=
  {| MonitoringHub.rq_ws := viewer n;
     MonitoringHub.rq_user_name := user_name;
     MonitoringHub.rq_user_role := user_role;
     MonitoringHub.rq_action := action |}.

(** A frame of the entry camera with twelve faces too faint to be
    looked up. *)
Definition entry_camera : CameraWorker.camera :=
  {| CameraWorker.purpose := "IN"; CameraWorker.camera_id := "cam-entry" |}.

Definition faint_face : CameraWorker.face :=
  {| CameraWorker.det_score := 30 # 100;
     CameraWorker.face_embedding := near_E001 |}.

Definition quiet_world : CameraWorker.world :=
  {| CameraWorker.w_stats :=
       {| CameraWorker.total_faces := 5; CameraWorker.recognized := 2;
          CameraWorker.unknown := 1 |};
     CameraWorker.w_db := empty_ledger;
     CameraWorker.w_manager := three_viewers |}.

(** A store with one account and no session; a stand-in for
    [bcrypt.checkpw] that knows this account's password. *)
Definition operator : AuthenticationService.user_row :=
  {| AuthenticationService.id := 7;
     AuthenticationService.username := "asha";
     AuthenticationService.password_hash := "$2b$12$operatorhash";
     AuthenticationService.full_name := "Asha Rao";
     AuthenticationService.email := "asha@example.org";
     AuthenticationService.role := "admin";
     AuthenticationService.is_active := true;
     AuthenticationService.failed_attempts := 0;
     AuthenticationService.locked_until := None;
     AuthenticationService.last_login := None |}.

Definition one_account : AuthenticationService.store :=
  {| AuthenticationService.users := [operator];
     AuthenticationService.sessions := [] |}.

Definition example_checkpw (password hash : string) : option bool :=
  Some (String.eqb password "correct horse"
        && String.eqb hash "$2b$12$operatorhash").
End MoreExamples.

(** * Properties *)

(** ** Comparisons and the descending sort *)

Lemma Qlt_bool_iff (x y : Q) : Qlt_bool x y = true <-> (x < y)%Q.
Proof.
  unfold Qlt_bool. rewrite negb_true_iff. split; intros H.
  - apply Qnot_le_lt. intros Hle. apply Qle_bool_iff in Hle. congruence.
  - destruct (Qle_bool y x) eqn:E; [|reflexivity].
    apply Qle_bool_iff in E. exfalso. revert E. apply Qlt_not_le, H.
Qed.

Lemma Qlt_bool_false_iff (x y : Q) : Qlt_bool x y = false <-> (y <= x)%Q.
Proof. unfold Qlt_bool. rewrite negb_false_iff. apply Qle_bool_iff. Qed.

Lemma Qle_bool_false_iff (x y : Q) : Qle_bool x y = false <-> (y < x)%Q.
Proof.
  rewrite <- Qlt_bool_iff. unfold Qlt_bool.
  destruct (Qle_bool x y); simpl; split; congruence.
Qed.

Section SortedReverseFacts.
Context {A : Type} (key : A -> Q).

Lemma insert_reverse_perm x l :
  Permutation (x :: l) (insert_reverse key x l).
Proof.
  induction l as [|y l IH]; simpl; [reflexivity|].
  destruct (Qlt_bool (key x) (key y)); [|reflexivity].
  rewrite perm_swap. now constructor.
Qed.

Lemma sorted_reverse_perm l : Permutation l (sorted_reverse key l).
Proof.
  induction l as [|x l IH]; simpl; [constructor|].
  rewrite <- insert_reverse_perm. now constructor.
Qed.

Lemma insert_reverse_descending x l :
  descending key l -> descending key (insert_reverse key x l).
Proof.
  induction l as [|y l IH]; simpl; intros Hd.
  - split; [constructor | exact I].
  - destruct Hd as [Hy Hl].
    destruct (Qlt_bool (key x) (key y)) eqn:E.
    + apply Qlt_bool_iff in E. simpl. split; [|now apply IH].
      rewrite <- (insert_reverse_perm x l).
      constructor; [now apply Qlt_le_weak | exact Hy].
    + apply Qlt_bool_false_iff in E. simpl. repeat split; trivial.
      constructor; [exact E|].
      eapply Forall_impl; [|exact Hy]. intros z Hz. simpl in Hz.
      eapply Qle_trans; [exact Hz | exact E].
Qed.

(** The sort is stable: elements whose keys are equal keep the order
    they had in the input.  [filter] selects the elements of one key. *)
Lemma insert_reverse_filter (p : A -> bool) x l :
  (forall y, p y = true -> p x = true -> key y == key x) ->
  descending key l ->
  filter p (insert_reverse key x l) = filter p (x :: l).
Proof.
  intros Hp. induction l as [|y l IH]; intros Hd; [reflexivity|].
  destruct Hd as [Hy Hl]. cbn [insert_reverse].
  destruct (Qlt_bool (key x) (key y)) eqn:E; [|reflexivity].
  apply Qlt_bool_iff in E.
  cbn [filter]. rewrite (IH Hl). cbn [filter].
  destruct (p y) eqn:Ey; [|reflexivity].
  destruct (p x) eqn:Ex; [|reflexivity].
  exfalso. specialize (Hp y Ey eq_refl). rewrite Hp in E.
  exact (Qlt_irrefl _ E).
Qed.

Lemma sorted_reverse_descending l : descending key (sorted_reverse key l).
Proof.
  induction l as [|x l IH]; simpl; [exact I|].
  now apply insert_reverse_descending.
Qed.

Lemma sorted_reverse_length l : length (sorted_reverse key l) = length l.
Proof. symmetry. apply Permutation_length, sorted_reverse_perm. Qed.

Lemma sorted_reverse_stable (p : A -> bool) l :
  (forall x y, p x = true -> p y = true -> key x == key y) ->
  filter p (sorted_reverse key l) = filter p l.
Proof.
  intros Hp. induction l as [|x l IH]; [reflexivity|].
  cbn [sorted_reverse fold_right].
  rewrite insert_reverse_filter.
  - cbn [filter]. fold (sorted_reverse key l). now rewrite IH.
  - intros y Hy Hx. now apply Hp.
  - apply sorted_reverse_descending.
Qed.
End SortedReverseFacts.

(** ** The multi-angle matcher *)

Section MatcherFacts.
Import FaceRecognitionServiceFAISS.
Local Open Scope Q_scope.

(** The confidence of an identity with two or more matched poses, stated
    on the best and the second-best similarity. *)
Lemma confidence_of_two_or_more (sims : list Q) :
  (2 <= length sims)%nat ->
  exists top second rest,
    Permutation sims (top :: second :: rest) /\
    Forall (fun x => x <= top) (second :: rest) /\
    Forall (fun x => x <= second) rest /\
    (top - second <= 8 # 100 -> confidence_of sims = (top + second) / 2) /\
    (8 # 100 < top - second -> confidence_of sims = top * (6 # 10)).
Proof.
  intros Hlen. unfold confidence_of.
  pose proof (sorted_reverse_perm (fun x : Q => x) sims) as Hperm.
  pose proof (sorted_reverse_descending (fun x : Q => x) sims) as Hdesc.
  pose proof (sorted_reverse_length (fun x : Q => x) sims) as Hl.
  destruct (sorted_reverse (fun x : Q => x) sims) as [|top [|second rest]];
    simpl in Hl; try lia.
  exists top, second, rest. simpl in Hdesc.
  destruct Hdesc as [Htop [Hsecond _]].
  repeat split; trivial.
  - intros Hgap. simpl. apply Qle_bool_iff in Hgap. now rewrite Hgap.
  - intros Hgap. simpl. apply Qle_bool_false_iff in Hgap. now rewrite Hgap.
Qed.

Lemma confidence_of_single (x : Q) : confidence_of [x] = x.
Proof. reflexivity. Qed.

(** *** The grouping loop *)

Lemma lookup_scores_append acc e s e' :
  lookup_scores (scores_append acc e s) e' =
  if String.eqb e e' then lookup_scores acc e ++ [s]
  else lookup_scores acc e'.
Proof.
  induction acc as [|[k sims] acc IH]; simpl.
  - destruct (String.eqb e e'); reflexivity.
  - destruct (String.eqb k e) eqn:Eke; simpl.
    + apply String.eqb_eq in Eke. subst k.
      destruct (String.eqb e e'); reflexivity.
    + rewrite IH. destruct (String.eqb e e') eqn:Eee'; [|reflexivity].
      apply String.eqb_eq in Eee'. subst e'. now rewrite Eke.
Qed.

Lemma scores_append_keys acc e s :
  map fst (scores_append acc e s) =
  if existsb (fun k => String.eqb k e) (map fst acc) then map fst acc
  else map fst acc ++ [e].
Proof.
  induction acc as [|[k sims] acc IH]; simpl; [reflexivity|].
  destruct (String.eqb k e) eqn:Eke; simpl; [reflexivity|].
  rewrite IH. now destruct (existsb _ _).
Qed.

Lemma scores_append_NoDup acc e s :
  NoDup (map fst acc) -> NoDup (map fst (scores_append acc e s)).
Proof.
  intros Hnd. rewrite scores_append_keys.
  destruct (existsb _ _) eqn:E; [exact Hnd|].
  apply NoDup_app; [exact Hnd | repeat constructor; intros [] |].
  intros k Hk [Hke|[]]. subst k.
  assert (existsb (fun k => String.eqb k e) (map fst acc) = true);
    [|congruence].
  apply existsb_exists. exists e. split; [exact Hk|apply String.eqb_refl].
Qed.

Lemma scores_append_nonempty acc e s :
  Forall (fun kv => snd kv <> []) acc ->
  Forall (fun kv => snd kv <> []) (scores_append acc e s).
Proof.
  induction acc as [|[k sims] acc IH]; simpl; intros H.
  - constructor; [discriminate|constructor].
  - inversion H; subst. destruct (String.eqb k e).
    + constructor; [|assumption]. simpl. now destruct sims.
    + constructor; [assumption|]. now apply IH.
Qed.

Lemma lookup_scores_In acc e sims :
  NoDup (map fst acc) -> In (e, sims) acc -> lookup_scores acc e = sims.
Proof.
  induction acc as [|[k s] acc IH]; simpl; intros Hnd Hin; [contradiction|].
  inversion Hnd as [|? ? Hk Hnd']; subst.
  destruct Hin as [Heq|Hin].
  - inversion Heq; subst. now rewrite String.eqb_refl.
  - destruct (String.eqb k e) eqn:E; [|now apply IH].
    apply String.eqb_eq in E. subst k. exfalso. apply Hk.
    change e with (fst (e, sims)). now apply in_map.
Qed.

(** What the loop leaves in [emp_scores]: distinct keys, no empty list,
    and for each key the similarities of its neighbours, in order. *)
Lemma group_by_employee_spec ids neighbors acc res :
  group_by_employee ids neighbors acc = Some res ->
  NoDup (map fst acc) ->
  Forall (fun kv => snd kv <> []) acc ->
  NoDup (map fst res) /\
  Forall (fun kv => snd kv <> []) res /\
  forall e,
    lookup_scores res e =
    lookup_scores acc e ++ matched_similarities ids neighbors e.
Proof.
  revert acc. induction neighbors as [|[idx sim] ns IH]; simpl; intros acc.
  - intros [= <-] Hnd Hne. repeat split; trivial.
    intros e. unfold matched_similarities. simpl. now rewrite app_nil_r.
  - destruct (nth_error ids idx) as [emp|] eqn:Eidx; [|discriminate].
    intros Hres Hnd Hne.
    destruct (IH _ Hres (scores_append_NoDup _ emp sim Hnd)
                (scores_append_nonempty _ emp sim Hne)) as (H1 & H2 & H3).
    repeat split; trivial.
    intros e. rewrite H3, lookup_scores_append.
    unfold matched_similarities. simpl. rewrite Eidx.
    destruct (String.eqb emp e) eqn:Ee; simpl; [|reflexivity].
    apply String.eqb_eq in Ee. subst e. now rewrite <- app_assoc.
Qed.

(** *** The loop that picks the best identity *)

Lemma best_step_fold (emp_scores : list (string * list Q)) :
  forall b c b' c',
    fold_left best_step emp_scores (b, c) = (b', c') ->
    c <= c' /\
    (forall e sims, In (e, sims) emp_scores -> confidence_of sims <= c') /\
    ((b' = b /\ c' = c) \/
     exists e sims,
       b' = Some e /\ In (e, sims) emp_scores /\
       c' = confidence_of sims /\ c < c').
Proof.
  induction emp_scores as [|[e sims] rest IH]; simpl; intros b c b' c' H.
  - inversion H; subst. split; [apply Qle_refl|].
    split; [intros ? ? []|now left].
  - unfold best_step in H at 2. simpl in H.
    destruct (Qlt_bool c (confidence_of sims)) eqn:E.
    + apply Qlt_bool_iff in E.
      destruct (IH _ _ _ _ H) as (Hle & Hall & Hsrc).
      split; [lra|]. split.
      * intros e0 s0 [Heq|Hin]; [inversion Heq; subst; exact Hle|eauto].
      * right. destruct Hsrc as [[-> ->]|(e1 & s1 & -> & Hin & -> & Hlt)].
        -- exists e, sims. repeat split; auto.
        -- exists e1, s1. repeat split; auto. lra.
    + apply Qlt_bool_false_iff in E.
      destruct (IH _ _ _ _ H) as (Hle & Hall & Hsrc).
      split; [exact Hle|]. split.
      * intros e0 s0 [Heq|Hin]; [inversion Heq; subst; lra|eauto].
      * destruct Hsrc as [?|(e1 & s1 & -> & Hin & -> & Hlt)]; [now left|].
        right. exists e1, s1. repeat split; auto.
Qed.

Lemma best_of_spec (emp_scores : list (string * list Q)) :
  0 <= snd (best_of emp_scores) /\
  (forall e sims,
      In (e, sims) emp_scores ->
      confidence_of sims <= snd (best_of emp_scores)) /\
  ((fst (best_of emp_scores) = None /\ snd (best_of emp_scores) = 0) \/
   exists e sims,
     fst (best_of emp_scores) = Some e /\ In (e, sims) emp_scores /\
     snd (best_of emp_scores) = confidence_of sims /\
     0 < confidence_of sims).
Proof.
  unfold best_of. destruct (fold_left _ _ _) as [b' c'] eqn:E.
  destruct (best_step_fold _ _ _ _ _ E) as (H1 & H2 & H3). simpl.
  repeat split; trivial.
  destruct H3 as [[-> ->]|(e & sims & -> & Hin & -> & Hlt)]; [now left|].
  right. exists e, sims. repeat split; auto.
Qed.
End MatcherFacts.

Section MatcherClaims.
Import FaceRecognitionServiceFAISS.
Local Open Scope Q_scope.
Variable normalize_L2 : embedding -> embedding.

(** Unfolding [recognize_face] once the index is there and the grouping
    went through. *)
Lemma recognize_face_unfold self index q emp_scores :
  faiss_index self = Some index ->
  Nat.eqb (length (emp_id_map self)) 0 = false ->
  emp_scores_of normalize_L2 self index q = Some emp_scores ->
  recognize_face normalize_L2 self q =
    if Qle_bool (recognition_threshold self) (snd (best_of emp_scores))
    then (fst (best_of emp_scores), snd (best_of emp_scores))
    else (None, snd (best_of emp_scores)).
Proof.
  intros Hidx Hmap Hes. unfold recognize_face.
  now rewrite Hidx, Hmap, Hes.
Qed.

(** Whatever the state, the result is [(None, 0)] or comes out of the
    loop over [emp_scores]. *)
Lemma recognize_face_cases self q :
  recognize_face normalize_L2 self q = (None, 0) \/
  exists index emp_scores,
    faiss_index self = Some index /\
    Nat.eqb (length (emp_id_map self)) 0 = false /\
    emp_scores_of normalize_L2 self index q = Some emp_scores.
Proof.
  unfold recognize_face.
  destruct (faiss_index self) as [index|]; [|now left].
  destruct (Nat.eqb (length (emp_id_map self)) 0) eqn:E; [now left|].
  destruct (emp_scores_of normalize_L2 self index q) as [es|] eqn:Ees;
    [|now left].
  right. now exists index, es.
Qed.

(** C1.  For every query and every identity grouped from the K nearest
    neighbours, the list of the identity is the similarities of its
    neighbours and is not empty; with two or more matched poses the
    confidence is the average of the best two when best minus second
    best is at most 0.08 and the best times 0.6 when the gap exceeds
    0.08; with exactly one matched pose it is that similarity.  An
    identity that is returned has the highest such confidence, and the
    confidence returned with it is its own.  An identity is returned
    whenever some identity has a positive confidence that reaches the
    recognition threshold, and an identity whose confidence is positive,
    reaches the threshold and is strictly above that of every other
    identity is the one returned, with its own confidence. *)
Theorem recognize_face_multi_angle_confidence
    (self : service) (index : IndexFlatIP) (face_embedding : embedding)
    (neighbors : list (nat * Q)) (emp_scores : list (string * list Q)) :
  faiss_index self = Some index ->
  Nat.eqb (length (emp_id_map self)) 0 = false ->
  neighbors_of normalize_L2 self index face_embedding = Some neighbors ->
  group_by_employee (emp_id_map self) neighbors [] = Some emp_scores ->
  (forall e sims,
      In (e, sims) emp_scores ->
      sims = matched_similarities (emp_id_map self) neighbors e /\
      sims <> [] /\
      ((2 <= length sims)%nat ->
       exists top second rest,
         Permutation sims (top :: second :: rest) /\
         Forall (fun x => x <= top) (second :: rest) /\
         Forall (fun x => x <= second) rest /\
         (top - second <= 8 # 100 ->
          confidence_of sims = (top + second) / 2) /\
         (8 # 100 < top - second ->
          confidence_of sims = top * (6 # 10))) /\
      (forall x, sims = [x] -> confidence_of sims = x)) /\
  (forall e c,
      recognize_face normalize_L2 self face_embedding = (Some e, c) ->
      exists sims,
        In (e, sims) emp_scores /\
        c = confidence_of sims /\
        forall e' sims',
          In (e', sims') emp_scores -> confidence_of sims' <= c) /\
  (forall e0 sims0,
      In (e0, sims0) emp_scores ->
      0 < confidence_of sims0 ->
      recognition_threshold self <= confidence_of sims0 ->
      exists e sims,
        recognize_face normalize_L2 self face_embedding
          = (Some e, confidence_of sims) /\
        In (e, sims) emp_scores /\
        forall e' sims',
          In (e', sims') emp_scores ->
          confidence_of sims' <= confidence_of sims) /\
  (forall e0 sims0,
      In (e0, sims0) emp_scores ->
      0 < confidence_of sims0 ->
      recognition_threshold self <= confidence_of sims0 ->
      (forall e' sims',
          In (e', sims') emp_scores -> e' <> e0 ->
          confidence_of sims' < confidence_of sims0) ->
      recognize_face normalize_L2 self face_embedding
        = (Some e0, confidence_of sims0)).
Proof.
  intros Hidx Hmap Hnb Hgrp.
  destruct (group_by_employee_spec _ _ _ _ Hgrp (NoDup_nil _) (Forall_nil _))
    as (Hnd & Hne & Hlook).
  assert (Hes : emp_scores_of normalize_L2 self index face_embedding
                = Some emp_scores).
  { unfold emp_scores_of. now rewrite Hnb. }
  pose proof (recognize_face_unfold _ _ _ _ Hidx Hmap Hes) as Hunf.
  assert (Hret : forall e0 sims0,
             In (e0, sims0) emp_scores ->
             0 < confidence_of sims0 ->
             recognition_threshold self <= confidence_of sims0 ->
             exists e sims,
               recognize_face normalize_L2 self face_embedding
                 = (Some e, confidence_of sims) /\
               In (e, sims) emp_scores /\
               forall e' sims',
                 In (e', sims') emp_scores ->
                 confidence_of sims' <= confidence_of sims).
  { intros e0 sims0 Hin0 Hpos Hthr.
    destruct (best_of_spec emp_scores) as (_ & Hall & Hsrc).
    pose proof (Hall _ _ Hin0) as Hle0.
    destruct Hsrc as [[_ Hzero]|(e1 & s1 & He1 & Hin & Hc1 & _)].
    - exfalso. rewrite Hzero in Hle0.
      exact (Qlt_irrefl _ (Qlt_le_trans _ _ _ Hpos Hle0)).
    - exists e1, s1. split; [|split; [exact Hin|]].
      + rewrite Hunf.
        assert (E : Qle_bool (recognition_threshold self)
                      (snd (best_of emp_scores)) = true).
        { apply Qle_bool_iff. eapply Qle_trans; [exact Hthr | exact Hle0]. }
        rewrite E, He1, Hc1. reflexivity.
      + intros e' sims' Hin'. rewrite <- Hc1. now apply (Hall e'). }
  split; [|split; [|split; [exact Hret|]]].
  - intros e sims Hin. repeat split.
    + rewrite <- (lookup_scores_In _ _ _ Hnd Hin). now rewrite Hlook.
    + rewrite Forall_forall in Hne. exact (Hne _ Hin).
    + apply confidence_of_two_or_more.
    + intros x ->. apply confidence_of_single.
  - intros e c Hrec.
    rewrite Hunf in Hrec.
    destruct (best_of_spec emp_scores) as (_ & Hall & Hsrc).
    destruct (Qle_bool _ _); [|discriminate].
    inversion Hrec as [[Hb Hc]].
    destruct Hsrc as [[Hnone _]|(e1 & s1 & He1 & Hin & Hc1 & _)];
      [congruence|].
    exists s1. rewrite He1 in Hb. inversion Hb; subst e1.
    subst c. repeat split; assumption.
  - intros e0 sims0 Hin0 Hpos Hthr Hstrict.
    destruct (Hret _ _ Hin0 Hpos Hthr) as (e & sims & Hrec & Hin & Hmax).
    destruct (string_dec e e0) as [->|Hneq].
    + rewrite Hrec.
      rewrite <- (lookup_scores_In _ _ _ Hnd Hin).
      now rewrite (lookup_scores_In _ _ _ Hnd Hin0).
    + exfalso. pose proof (Hstrict _ _ Hin Hneq) as Hlt.
      pose proof (Hmax _ _ Hin0) as Hle.
      exact (Qlt_irrefl _ (Qlt_le_trans _ _ _ Hlt Hle)).
Qed.

(** C6, as amended.  An identity is returned only with a confidence of at
    least the recognition threshold.  When every per-identity confidence
    is below the threshold no identity is returned, and the confidence
    returned is the highest per-identity confidence when that is
    positive and 0 otherwise. *)
Theorem recognize_face_threshold (self : service) (face_embedding : embedding) :
  (forall e c,
      recognize_face normalize_L2 self face_embedding = (Some e, c) ->
      recognition_threshold self <= c) /\
  (forall index emp_scores,
      faiss_index self = Some index ->
      Nat.eqb (length (emp_id_map self)) 0 = false ->
      emp_scores_of normalize_L2 self index face_embedding
        = Some emp_scores ->
      (forall e sims,
          In (e, sims) emp_scores ->
          confidence_of sims < recognition_threshold self) ->
      let c := snd (recognize_face normalize_L2 self face_embedding) in
      fst (recognize_face normalize_L2 self face_embedding) = None /\
      0 <= c /\
      (forall e sims, In (e, sims) emp_scores -> confidence_of sims <= c) /\
      ((c = 0 /\
        forall e sims, In (e, sims) emp_scores -> confidence_of sims <= 0) \/
       (exists e sims,
           In (e, sims) emp_scores /\ c = confidence_of sims /\ 0 < c))).
Proof.
  split.
  - intros e c Hrec.
    destruct (recognize_face_cases self face_embedding)
      as [H0|(index & es & Hidx & Hmap & Hes)]; [congruence|].
    rewrite (recognize_face_unfold _ _ _ _ Hidx Hmap Hes) in Hrec.
    destruct (Qle_bool _ _) eqn:E; [|discriminate].
    apply Qle_bool_iff in E. inversion Hrec; subst. exact E.
  - intros index es Hidx Hmap Hes Hbelow c. subst c.
    rewrite (recognize_face_unfold _ _ _ _ Hidx Hmap Hes).
    destruct (best_of_spec es) as (Hpos & Hall & Hsrc).
    destruct Hsrc as [[Hnone Hzero]|(e1 & s1 & He1 & Hin & Hc1 & Hlt)].
    + assert (Hfst : fst (if Qle_bool (recognition_threshold self)
                               (snd (best_of es))
                          then (fst (best_of es), snd (best_of es))
                          else (None, snd (best_of es))) = None)
        by (destruct (Qle_bool _ _); simpl; auto).
      assert (Hsnd : snd (if Qle_bool (recognition_threshold self)
                               (snd (best_of es))
                          then (fst (best_of es), snd (best_of es))
                          else (None, snd (best_of es)))
                     = snd (best_of es))
        by (destruct (Qle_bool _ _); reflexivity).
      rewrite Hfst, Hsnd. repeat split; trivial.
      left. split; [exact Hzero|]. intros e sims Hin.
      rewrite <- Hzero. eauto.
    + pose proof (Hbelow _ _ Hin) as Hb.
      assert (E : Qle_bool (recognition_threshold self) (snd (best_of es))
                  = false).
      { apply Qle_bool_false_iff. rewrite Hc1. exact Hb. }
      rewrite E. simpl. repeat split; trivial.
      right. exists e1, s1. repeat split; trivial. rewrite Hc1. exact Hlt.
Qed.

(** *** The empty index *)

Lemma flat_map_all_nil {A B : Type} (f : A -> list B) (l : list A) :
  Forall (fun x => f x = []) l -> flat_map f l = [].
Proof.
  induction 1 as [|x l Hx _ IH]; simpl; [reflexivity|].
  now rewrite Hx, IH.
Qed.

(** C7.  When the enrollment set holds no embedding at all (no identity,
    or identities without embeddings), [load_face_map] leaves the index
    in its empty state ([faiss_index] is [None]) and every query returns
    [(None, 0)], without an error. *)
Theorem recognize_face_empty_index
    (self : service) (fm : face_map_t) (face_embedding : embedding) :
  Forall (fun kv => embeddings (snd kv) = []) fm ->
  faiss_index (load_face_map normalize_L2 self fm) = None /\
  emp_id_map (load_face_map normalize_L2 self fm) = [] /\
  recognize_face normalize_L2 (load_face_map normalize_L2 self fm)
    face_embedding = (None, 0).
Proof.
  intros Hempty.
  assert (Hcache : flat_map (fun kv : string * employee =>
                               embeddings (snd kv)) fm = [])
    by now apply flat_map_all_nil.
  assert (Hids : flat_map (fun kv : string * employee =>
                             map (fun _ => fst kv) (embeddings (snd kv)))
                   fm = []).
  { apply flat_map_all_nil. eapply Forall_impl; [|exact Hempty].
    intros kv Hkv. simpl in Hkv. now rewrite Hkv. }
  unfold recognize_face, load_face_map. rewrite Hcache, Hids. simpl.
  repeat split.
Qed.

(** *** The range of the confidence *)

Lemma enumerate_from_In {A : Type} (l : list A) :
  forall i n x, In (n, x) (enumerate_from i l) -> In x l.
Proof.
  induction l as [|y l IH]; simpl; intros i n x H; [contradiction|].
  destruct H as [H|H]; [inversion H; now left|right; eauto].
Qed.

Lemma In_firstn {A : Type} (k : nat) (l : list A) (x : A) :
  In x (firstn k l) -> In x l.
Proof.
  intros H. rewrite <- (firstn_skipn k l). apply in_or_app. now left.
Qed.

Lemma search_similarity index query k neighbors :
  search index query k = Some neighbors ->
  forall n sim,
    In (n, sim) neighbors ->
    exists row, In row (xb index) /\ sim = inner_product query row.
Proof.
  unfold search. destruct (Nat.eqb _ _); [|discriminate].
  intros [= <-] n sim Hin.
  apply In_firstn in Hin.
  apply (Permutation_in _ (Permutation_sym (sorted_reverse_perm snd _)))
    in Hin.
  apply enumerate_from_In in Hin. apply in_map_iff in Hin.
  destruct Hin as (row & Heq & Hrow). exists row. now split.
Qed.

Lemma matched_similarities_In ids neighbors e x :
  In x (matched_similarities ids neighbors e) ->
  exists n, In (n, x) neighbors.
Proof.
  unfold matched_similarities. intros H. apply in_map_iff in H.
  destruct H as ([n y] & Heq & Hin). simpl in Heq. subst y.
  apply filter_In in Hin. exists n. tauto.
Qed.

Lemma confidence_of_le_1 (sims : list Q) :
  Forall (fun x => x <= 1) sims -> confidence_of sims <= 1.
Proof.
  intros Hall.
  destruct sims as [|x [|y rest]].
  - unfold confidence_of. simpl. lra.
  - rewrite confidence_of_single. now inversion Hall.
  - destruct (confidence_of_two_or_more (x :: y :: rest))
      as (top & second & r & Hperm & Htop & _ & Hclose & Hfar);
      [simpl; lia|].
    rewrite Forall_forall in Hall.
    assert (Ht : top <= 1)
      by (apply Hall; eapply Permutation_in;
          [apply Permutation_sym, Hperm|now left]).
    assert (Hs : second <= 1)
      by (apply Hall; eapply Permutation_in;
          [apply Permutation_sym, Hperm|right; now left]).
    destruct (Qlt_le_dec (8 # 100) (top - second)) as [Hgap|Hgap].
    + rewrite (Hfar Hgap). lra.
    + rewrite (Hclose Hgap). apply Qle_shift_div_r; lra.
Qed.

(** C8.  When every stored embedding has a similarity in [-1, 1] with
    the normalized query (as L2-normalized vectors have), the confidence
    that [recognize_face] returns lies in [0, 1], whatever the state of
    the index. *)
Theorem recognize_face_confidence_range
    (self : service) (face_embedding : embedding) :
  (forall index,
      faiss_index self = Some index ->
      Forall (fun row =>
                -1 <= inner_product (normalize_L2 face_embedding) row <= 1)
             (xb index)) ->
  0 <= snd (recognize_face normalize_L2 self face_embedding) <= 1.
Proof.
  intros Hunit.
  destruct (recognize_face_cases self face_embedding)
    as [H0|(index & es & Hidx & Hmap & Hes)].
  - rewrite H0. simpl. lra.
  - rewrite (recognize_face_unfold _ _ _ _ Hidx Hmap Hes).
    assert (Hsnd : snd (if Qle_bool (recognition_threshold self)
                             (snd (best_of es))
                        then (fst (best_of es), snd (best_of es))
                        else (None, snd (best_of es)))
                   = snd (best_of es))
      by (destruct (Qle_bool _ _); reflexivity).
    rewrite Hsnd.
    destruct (best_of_spec es) as (Hpos & _ & Hsrc).
    split; [exact Hpos|].
    destruct Hsrc as [[_ ->]|(e & sims & _ & Hin & -> & _)]; [lra|].
    apply confidence_of_le_1.
    unfold emp_scores_of in Hes.
    destruct (neighbors_of normalize_L2 self index face_embedding)
      as [neighbors|] eqn:Hnb; [|discriminate].
    destruct (group_by_employee_spec _ _ _ _ Hes (NoDup_nil _)
                (Forall_nil _)) as (Hnd & _ & Hlook).
    pose proof (lookup_scores_In _ _ _ Hnd Hin) as Hsims.
    rewrite Hlook in Hsims. simpl in Hsims. subst sims.
    apply Forall_forall. intros x Hx.
    apply matched_similarities_In in Hx. destruct Hx as [n Hn].
    destruct (search_similarity _ _ _ _ Hnb _ _ Hn) as (row & Hrow & ->).
    specialize (Hunit _ Hidx). rewrite Forall_forall in Hunit.
    apply (Hunit _ Hrow).
Qed.
End MatcherClaims.

(** *** The matcher on concrete queries *)

Section MatcherExamples.
Import FaceRecognitionServiceFAISS Examples.
Local Open Scope Q_scope.

(** The examples of the specification. *)
Example confidence_corroborated :
  confidence_of [82 # 100; 77 # 100] == 795 # 1000.
Proof. reflexivity. Qed.

(** Rows of equal similarity come out in the order of their row
    numbers, so that a search cut at [k] keeps the lowest-numbered of
    them. *)
Example sorted_reverse_keeps_ties_in_order :
  sorted_reverse snd
    [ (0%nat, 1 # 2); (1%nat, 9 # 10); (2%nat, 1 # 2); (3%nat, 9 # 10) ]
  = [ (1%nat, 9 # 10); (3%nat, 9 # 10); (0%nat, 1 # 2); (2%nat, 1 # 2) ].
Proof. reflexivity. Qed.

Example search_keeps_first_of_tied_rows :
  search {| d := 2; xb := [[1; 0]; [1; 0]; [0; 1]; [1; 0]] |} [1; 0] 2
  = Some [ (0%nat, 1 * 1 + (0 * 0 + 0)); (1%nat, 1 * 1 + (0 * 0 + 0)) ].
Proof. reflexivity. Qed.

Example confidence_single_pose : confidence_of [55 # 100] == 55 # 100.
Proof. reflexivity. Qed.

Example confidence_penalized :
  confidence_of [30 # 100; 50 # 100] == 30 # 100.
Proof. reflexivity. Qed.

Lemma recognize_face_multi_angle_confidence_witness :
  recognize_face unit_normalize two_employees_service near_E001
    = (Some "E001", confidence_of [600 # 625; 14625 # 15625]) /\
  confidence_of [600 # 625; 14625 # 15625] == 948 # 1000 /\
  confidence_of [175 # 625] == 28 # 100.
Proof.
  split; [|split; reflexivity].
  destruct (recognize_face_multi_angle_confidence unit_normalize
              two_employees_service two_employees_index near_E001
              near_E001_neighbors near_E001_scores) as (_ & _ & _ & H);
    [reflexivity | reflexivity | reflexivity | reflexivity |].
  apply (H "E001" [600 # 625; 14625 # 15625]).
  - left. reflexivity.
  - reflexivity.
  - discriminate.
  - intros e' sims' [Heq | [Heq | []]] Hne.
    + inversion Heq; subst. now contradiction Hne.
    + inversion Heq; subst. reflexivity.
Defined.

(** C6 as stated fails: with one enrolled pose opposite to the query the
    highest per-identity confidence is -1, below the threshold, and the
    matcher reports 0, which is not the best confidence observed. *)
Lemma recognize_face_reports_zero_not_best :
  emp_scores_of unit_normalize one_employee_service one_employee_index
    [-1; 0] = Some [("E001", [-1])] /\
  confidence_of [-1] < recognition_threshold one_employee_service /\
  recognize_face unit_normalize one_employee_service [-1; 0] = (None, 0) /\
  ~ (snd (recognize_face unit_normalize one_employee_service [-1; 0])
     == confidence_of [-1]).
Proof.
  split; [reflexivity|]. split; [reflexivity|]. split; [reflexivity|].
  intros H. vm_compute in H. discriminate H.
Qed.

Lemma recognize_face_threshold_witness :
  fst (recognize_face unit_normalize one_employee_service
         [7 # 25; 24 # 25]) = None /\
  0 <= snd (recognize_face unit_normalize one_employee_service
              [7 # 25; 24 # 25]).
Proof.
  destruct (proj2 (recognize_face_threshold unit_normalize
                     one_employee_service [7 # 25; 24 # 25])
              one_employee_index [("E001", [175 # 625])])
    as (H1 & H2 & _).
  - reflexivity.
  - reflexivity.
  - reflexivity.
  - intros e sims [Heq|[]]. inversion Heq. reflexivity.
  - split; assumption.
Defined.

Lemma recognize_face_empty_index_witness :
  faiss_index (load_face_map unit_normalize init not_enrolled_yet) = None /\
  emp_id_map (load_face_map unit_normalize init not_enrolled_yet) = [] /\
  recognize_face unit_normalize
    (load_face_map unit_normalize init not_enrolled_yet) near_E001
    = (None, 0).
Proof.
  apply (recognize_face_empty_index unit_normalize init not_enrolled_yet
           near_E001).
  repeat constructor.
Defined.

Lemma recognize_face_confidence_range_witness :
  0 <= snd (recognize_face unit_normalize two_employees_service near_E001)
    <= 1.
Proof.
  apply (recognize_face_confidence_range unit_normalize
           two_employees_service near_E001).
  intros index Hidx. inversion Hidx.
  repeat constructor; discriminate.
Defined.
End MatcherExamples.

(** ** The attendance ledger *)

Section LedgerFacts.
Import PooledDatabaseService.
Local Open Scope Z_scope.

Lemma key_matches_true e day r :
  key_matches e day r = true <-> emp_id r = e /\ date r = day.
Proof.
  unfold key_matches.
  now rewrite andb_true_iff, String.eqb_eq, Z.eqb_eq.
Qed.

Lemma select_none_rows_of db e day :
  select_by_emp_date db e day = None <-> rows_of db e day = [].
Proof.
  unfold select_by_emp_date, rows_of.
  induction (attendance_logs db) as [|r l IH]; simpl; [tauto|].
  destruct (key_matches e day r); [split; discriminate|exact IH].
Qed.

Lemma select_some_rows_of db e day r :
  select_by_emp_date db e day = Some r ->
  exists rest, rows_of db e day = r :: rest.
Proof.
  unfold select_by_emp_date, rows_of.
  induction (attendance_logs db) as [|r0 l IH]; simpl; [discriminate|].
  destruct (key_matches e day r0).
  - intros [= ->]. eauto.
  - exact IH.
Qed.

Lemma rows_of_none_existsb db e day :
  rows_of db e day = [] ->
  existsb (key_matches e day) (attendance_logs db) = false.
Proof.
  unfold rows_of.
  induction (attendance_logs db) as [|r l IH]; simpl; [reflexivity|].
  destruct (key_matches e day r); [discriminate|exact IH].
Qed.

Lemma enrolled_existsb db e :
  In e (employees db) -> existsb (String.eqb e) (employees db) = true.
Proof.
  intros H. apply existsb_exists. exists e.
  split; [exact H|apply String.eqb_refl].
Qed.

(** A first sighting that the table accepts. *)
Lemma insert_first_in_ok db e camera_id confidence timestamp :
  In e (employees db) ->
  rows_of db e (date_of timestamp) = [] ->
  fits_varchar50 camera_id = true ->
  insert_first_in db e (date_of timestamp) (time_of timestamp)
    camera_id confidence =
  inl {| employees := employees db;
         attendance_logs :=
           attendance_logs db ++
           [first_sighting_row db e camera_id confidence timestamp];
         next_id := next_id db + 1 |}.
Proof.
  intros He Hrows Hcam. unfold insert_first_in.
  now rewrite (enrolled_existsb _ _ He), (rows_of_none_existsb _ _ _ Hrows),
    Hcam.
Qed.

(** A refused statement changes no row; at most a value of the sequence
    is gone. *)
Lemma insert_first_in_inr db e day time_only camera_id confidence db' err :
  insert_first_in db e day time_only camera_id confidence = inr (db', err) ->
  db' = db \/ db' = draw_id db.
Proof.
  unfold insert_first_in.
  destruct (negb (fits_varchar50 camera_id)); [intros [= <- _]; now left|].
  destruct (negb (_ || _)); [intros [= <- _]; now left|].
  destruct (existsb (key_matches e day) _); [intros [= <- _]; now right|].
  destruct (negb _); [intros [= <- _]; now right|discriminate].
Qed.

Lemma update_where_id_inr db rid camera_id f db' err :
  update_where_id db rid camera_id f = inr (db', err) -> db' = db.
Proof.
  unfold update_where_id. destruct (negb _); [|discriminate].
  now intros [= <- _].
Qed.

(** Whatever the table answers, an insert only appends the new row. *)
Lemma insert_first_in_inl db e camera_id confidence timestamp db' :
  insert_first_in db e (date_of timestamp) (time_of timestamp)
    camera_id confidence = inl db' ->
  attendance_logs db' =
    attendance_logs db ++
    [first_sighting_row db e camera_id confidence timestamp].
Proof.
  unfold insert_first_in.
  destruct (negb (fits_varchar50 camera_id)); [discriminate|].
  destruct (negb (_ || _)); [discriminate|].
  destruct (existsb (key_matches _ _) _); [discriminate|].
  destruct (negb _); [discriminate|].
  now intros [= <-].
Qed.

Lemma rows_of_app_row db db' e day r :
  attendance_logs db' = attendance_logs db ++ [r] ->
  rows_of db' e day =
    rows_of db e day ++ (if key_matches e day r then [r] else []).
Proof.
  intros H. unfold rows_of. rewrite H, filter_app. reflexivity.
Qed.

Lemma update_where_id_inl db rid camera_id f db' :
  update_where_id db rid camera_id f = inl db' ->
  attendance_logs db' =
    map (fun r => if Z.eqb (id r) rid then f r else r) (attendance_logs db).
Proof.
  unfold update_where_id. destruct (negb _); [discriminate|].
  now intros [= <-].
Qed.

Lemma filter_map_same_key (k : row -> bool) (g : row -> row) l :
  (forall r, k (g r) = k r) -> filter k (map g l) = map g (filter k l).
Proof.
  intros Hk. induction l as [|r l IH]; simpl; [reflexivity|].
  rewrite Hk. destruct (k r); simpl; now rewrite IH.
Qed.

Lemma rows_of_update db db' rid f e day :
  (forall r, emp_id (f r) = emp_id r /\ date (f r) = date r) ->
  attendance_logs db' =
    map (fun r => if Z.eqb (id r) rid then f r else r) (attendance_logs db) ->
  rows_of db' e day =
    map (fun r => if Z.eqb (id r) rid then f r else r) (rows_of db e day).
Proof.
  intros Hf H. unfold rows_of. rewrite H.
  apply filter_map_same_key. intros r.
  destruct (Z.eqb (id r) rid); [|reflexivity].
  unfold key_matches. destruct (Hf r) as [-> ->]. reflexivity.
Qed.

Lemma set_last_out_key t c q r :
  emp_id (set_last_out t c q r) = emp_id r /\
  date (set_last_out t c q r) = date r.
Proof. split; reflexivity. Qed.

Lemma set_first_in_key t c q r :
  emp_id (set_first_in t c q r) = emp_id r /\
  date (set_first_in t c q r) = date r.
Proof. split; reflexivity. Qed.

(** The IST clock: day and second of the day of a timestamp. *)
Lemma ist_clock (timestamp : datetime) :
  0 <= time_of timestamp < 86400 /\
  86400 * date_of timestamp + time_of timestamp =
    wall_seconds timestamp
    - match tzinfo timestamp with None => 0 | Some off => off end
    + 19800.
Proof.
  unfold date_of, time_of. split.
  - apply Z.mod_pos_bound. lia.
  - rewrite <- Z.div_mod by lia. reflexivity.
Qed.

(** The first sighting of a day, whatever its kind, appends one row. *)
Lemma first_sighting_appends
    (db : database) (e event_type camera_id : string) (confidence : Q)
    (timestamp : datetime) :
  event_type = "IN" \/ event_type = "OUT" ->
  rows_of db e (date_of timestamp) = [] ->
  In e (employees db) ->
  fits_varchar50 camera_id = true ->
  let res := log_attendance_update_only db e event_type camera_id confidence
               timestamp in
  success (snd res) = true /\
  action (snd res) = Some "inserted" /\
  attendance_logs (fst res) =
    attendance_logs db ++
    [first_sighting_row db e camera_id confidence timestamp] /\
  rows_of (fst res) e (date_of timestamp) =
    [first_sighting_row db e camera_id confidence timestamp].
Proof.
  intros Hty Hrows He Hcam res. subst res.
  unfold log_attendance_update_only.
  rewrite (proj2 (select_none_rows_of _ _ _) Hrows).
  rewrite (insert_first_in_ok _ _ _ confidence _ He Hrows Hcam).
  assert (Hnew : rows_of
            {| employees := employees db;
               attendance_logs :=
                 attendance_logs db ++
                 [first_sighting_row db e camera_id confidence timestamp];
               next_id := next_id db + 1 |} e (date_of timestamp)
          = [first_sighting_row db e camera_id confidence timestamp]).
  { unfold rows_of in *. cbn [attendance_logs].
    rewrite filter_app, Hrows. cbn [filter app].
    unfold key_matches, first_sighting_row. cbn [emp_id date].
    now rewrite String.eqb_refl, Z.eqb_refl. }
  destruct Hty as [-> | ->]; simpl String.eqb; cbv iota;
    cbn [commit fst snd ok success action]; repeat split; exact Hnew.
Qed.

(** C3.  For an enrolled identity and a day without attendance record, a
    call with event kind OUT creates the record of that day: first-IN is
    set to the time, camera and confidence of the event, and last-OUT,
    its camera and its confidence are unset.  The time of the event is
    the second of the day on the IST clock and the day of the record is
    the IST day: the reading of the timestamp, taken back by its own UTC
    offset (none for a naive value) and forward by 5 h 30 min, is 86400
    times the day plus the time. *)
Theorem out_without_record_sets_first_in
    (db : database) (e camera_id : string) (confidence : Q)
    (timestamp : datetime) :
  rows_of db e (date_of timestamp) = [] ->
  In e (employees db) ->
  fits_varchar50 camera_id = true ->
  let res := log_attendance_update_only db e "OUT" camera_id confidence
               timestamp in
  success (snd res) = true /\
  action (snd res) = Some "inserted" /\
  attendance_logs (fst res) =
    attendance_logs db ++
    [first_sighting_row db e camera_id confidence timestamp] /\
  exists r,
    rows_of (fst res) e (date_of timestamp) = [r] /\
    first_in r = Some (time_of timestamp) /\
    in_camera_id r = Some camera_id /\
    in_confidence r = Some confidence /\
    last_out r = None /\ out_camera_id r = None /\ out_confidence r = None /\
    emp_id r = e /\
    exists day time_only,
      date r = day /\ first_in r = Some time_only /\
      0 <= time_only < 86400 /\
      86400 * day + time_only =
        wall_seconds timestamp
        - match tzinfo timestamp with None => 0 | Some off => off end
        + 19800.
Proof.
  intros Hrows He Hcam res.
  destruct (first_sighting_appends db e "OUT" camera_id confidence
              timestamp (or_intror eq_refl) Hrows He Hcam)
    as (Hs & Ha & Hl & Hr).
  fold res in Hs, Ha, Hl, Hr.
  split; [exact Hs|]. split; [exact Ha|]. split; [exact Hl|].
  exists (first_sighting_row db e camera_id confidence timestamp).
  split; [exact Hr|]. repeat (split; [reflexivity|]).
  exists (date_of timestamp), (time_of timestamp).
  split; [reflexivity|]. split; [reflexivity|].
  apply ist_clock.
Qed.

(** An IN call for a day that has a record is skipped. *)
Lemma in_with_record_skipped db e camera_id confidence timestamp r :
  select_by_emp_date db e (date_of timestamp) = Some r ->
  log_attendance_update_only db e "IN" camera_id confidence timestamp
  = (db, ok "IN already logged" "skipped").
Proof.
  intros H. unfold log_attendance_update_only. simpl String.eqb. cbv iota.
  now rewrite H.
Qed.

Lemma later_in_events_skipped db e day evs :
  rows_of db e day <> [] ->
  Forall (fun ev => ev_emp_id ev = e /\ ev_type ev = "IN" /\
                    date_of (ev_timestamp ev) = day) evs ->
  fst (record_events db evs) = db /\
  length (snd (record_events db evs)) = length evs /\
  Forall (fun r => success r = true /\ action r = Some "skipped")
         (snd (record_events db evs)).
Proof.
  intros Hrows. induction 1 as [|ev evs (He & Hty & Hday) _ IH]; simpl.
  - repeat split. constructor.
  - destruct (select_by_emp_date db e day) as [r|] eqn:Hsel.
    2:{ apply select_none_rows_of in Hsel. contradiction. }
    unfold record_event. rewrite He, Hty.
    rewrite <- Hday in Hsel.
    rewrite (in_with_record_skipped _ _ _ _ _ _ Hsel).
    destruct (record_events db evs) as [db2 rs]. simpl in *.
    destruct IH as (-> & Hlen & Hall).
    repeat split; [now rewrite Hlen|]. constructor; [now split|exact Hall].
Qed.

(** C2.  For every sequence of IN events of one enrolled identity on one
    day that has no record yet, the first call creates exactly one record
    with first-IN set from that event, and every later IN call of the
    sequence returns action "skipped" and leaves the store as the first
    call left it. *)
Theorem repeated_in_recorded_once
    (db : database) (e : string) (day : Z) (ev : event)
    (evs : list event) :
  rows_of db e day = [] ->
  In e (employees db) ->
  fits_varchar50 (ev_camera_id ev) = true ->
  Forall (fun ev' => ev_emp_id ev' = e /\ ev_type ev' = "IN" /\
                     date_of (ev_timestamp ev') = day) (ev :: evs) ->
  let first := record_event db ev in
  let later := record_events (fst first) evs in
  success (snd first) = true /\
  action (snd first) = Some "inserted" /\
  attendance_logs (fst first) =
    attendance_logs db ++
    [first_sighting_row db e (ev_camera_id ev) (ev_confidence ev)
       (ev_timestamp ev)] /\
  rows_of (fst first) e day =
    [first_sighting_row db e (ev_camera_id ev) (ev_confidence ev)
       (ev_timestamp ev)] /\
  length (snd later) = length evs /\
  Forall (fun r => success r = true /\ action r = Some "skipped")
         (snd later) /\
  fst later = fst first.
Proof.
  intros Hrows He Hcam Hall first later.
  inversion Hall as [|? ? (Hev & Hty & Hday) Hrest]; subst.
  assert (Hfirst :
    first =
    ({| employees := employees db;
        attendance_logs :=
          attendance_logs db ++
          [first_sighting_row db (ev_emp_id ev) (ev_camera_id ev)
             (ev_confidence ev) (ev_timestamp ev)];
        next_id := next_id db + 1 |}, ok "IN logged" "inserted")).
  { subst first. unfold record_event, log_attendance_update_only.
    rewrite Hty. simpl String.eqb. cbv iota.
    rewrite (proj2 (select_none_rows_of _ _ _) Hrows).
    now rewrite (insert_first_in_ok _ _ _ (ev_confidence ev) _ He Hrows
                   Hcam). }
  assert (Hnew : rows_of (fst first) (ev_emp_id ev)
                   (date_of (ev_timestamp ev)) =
                 [first_sighting_row db (ev_emp_id ev) (ev_camera_id ev)
                    (ev_confidence ev) (ev_timestamp ev)]).
  { rewrite Hfirst. unfold rows_of in *. simpl.
    rewrite filter_app, Hrows. simpl. unfold key_matches. simpl.
    now rewrite String.eqb_refl, Z.eqb_refl. }
  destruct (later_in_events_skipped (fst first) (ev_emp_id ev)
              (date_of (ev_timestamp ev)) evs) as (Hdb & Hlen & Hskip);
    [rewrite Hnew; discriminate | exact Hrest |].
  subst later. rewrite Hfirst in *. simpl in *. repeat split; trivial.
Qed.

(** C5, as amended.  A call with event kind IN or OUT that succeeds
    returns one of the actions "inserted", "updated" and "skipped", and
    each of the three is returned by some such call. *)
Theorem action_inserted_updated_skipped :
  (forall (db : database) (e event_type camera_id : string)
          (confidence : Q) (timestamp : datetime),
      event_type = "IN" \/ event_type = "OUT" ->
      let r := snd (log_attendance_update_only db e event_type camera_id
                      confidence timestamp) in
      success r = true ->
      action r = Some "inserted" \/ action r = Some "updated" \/
      action r = Some "skipped") /\
  (forall a : string,
      a = "inserted" \/ a = "updated" \/ a = "skipped" ->
      exists db e event_type camera_id confidence timestamp,
        (event_type = "IN" \/ event_type = "OUT") /\
        let r := snd (log_attendance_update_only db e event_type camera_id
                        confidence timestamp) in
        success r = true /\ action r = Some a).
Proof.
  split.
  - intros db e ty cam conf ts Hty r. subst r.
    unfold log_attendance_update_only, commit.
    destruct Hty as [-> | ->]; simpl String.eqb; cbv iota.
    + destruct (select_by_emp_date _ _ _); simpl; [auto|].
      destruct (insert_first_in _ _ _ _ _ _) as [db'|[db' err]]; simpl;
        [auto|discriminate].
    + destruct (select_by_emp_date _ _ _) as [existing|]; simpl.
      * destruct (first_in existing);
          destruct (update_where_id _ _ _ _) as [db'|[db' err]]; simpl;
          solve [auto | discriminate].
      * destruct (insert_first_in _ _ _ _ _ _) as [db'|[db' err]]; simpl;
          [auto|discriminate].
  - pose (db0 := {| employees := ["E001"]; attendance_logs := [];
                    next_id := 1 |}).
    pose (t0 := {| wall_seconds := 0; tzinfo := None |}).
    pose (db1 := fst (log_attendance_update_only db0 "E001" "IN" "cam-entry"
                        (9 # 10)%Q t0)).
    intros a [-> | [-> | ->]].
    + exists db0, "E001", "IN", "cam-entry", (9 # 10)%Q, t0.
      split; [now left|]. split; reflexivity.
    + exists db1, "E001", "OUT", "cam-exit", (9 # 10)%Q, t0.
      split; [now right|]. split; reflexivity.
    + exists db1, "E001", "IN", "cam-entry", (9 # 10)%Q, t0.
      split; [now left|]. split; reflexivity.
Qed.

(** *** first-IN and last-OUT along a day *)

Lemma same_day_time_le (t1 t2 : datetime) :
  date_of t1 = date_of t2 ->
  timestamp_ist t1 <= timestamp_ist t2 ->
  time_of t1 <= time_of t2.
Proof.
  unfold date_of, time_of. intros Hday Hle.
  pose proof (Z.div_mod (timestamp_ist t1) 86400) as H1.
  pose proof (Z.div_mod (timestamp_ist t2) 86400) as H2.
  rewrite Hday in H1. lia.
Qed.

Lemma day_invariant_tail e day db ev pending :
  day_invariant e day db (ev :: pending) -> day_invariant e day db pending.
Proof.
  intros [Hlen Hrows]. split; [exact Hlen|].
  intros r Hr. destruct (Hrows r Hr) as (a & Ha & Hb & Hp).
  exists a. repeat split; trivial. now inversion Hp.
Qed.

Lemma day_invariant_first_sighting e db db' ev pending :
  ev_emp_id ev = e ->
  rows_of db e (date_of (ev_timestamp ev)) = [] ->
  Forall (fun ev' => time_of (ev_timestamp ev)
                     <= time_of (ev_timestamp ev')) pending ->
  insert_first_in db e (date_of (ev_timestamp ev))
    (time_of (ev_timestamp ev)) (ev_camera_id ev) (ev_confidence ev)
    = inl db' ->
  day_invariant e (date_of (ev_timestamp ev)) db' pending.
Proof.
  intros He Hrows Hpend Hins.
  apply insert_first_in_inl in Hins.
  pose proof (rows_of_app_row _ _ e (date_of (ev_timestamp ev)) _ Hins)
    as Hnew.
  rewrite Hrows in Hnew. unfold key_matches in Hnew. simpl in Hnew.
  rewrite String.eqb_refl, Z.eqb_refl in Hnew. simpl in Hnew.
  unfold day_invariant. rewrite Hnew. split; [simpl; lia|].
  intros r [<-|[]]. exists (time_of (ev_timestamp ev)).
  repeat split; [discriminate|exact Hpend].
Qed.

Lemma day_invariant_same_rows e day db db' pending :
  attendance_logs db' = attendance_logs db ->
  day_invariant e day db pending -> day_invariant e day db' pending.
Proof.
  intros Hlogs. unfold day_invariant, rows_of. now rewrite Hlogs.
Qed.

Lemma day_invariant_refused_insert e day db day' time_only camera_id
    confidence db' err pending :
  insert_first_in db e day' time_only camera_id confidence
    = inr (db', err) ->
  day_invariant e day db pending -> day_invariant e day db' pending.
Proof.
  intros Hins. apply day_invariant_same_rows.
  destruct (insert_first_in_inr _ _ _ _ _ _ _ _ Hins) as [-> | ->];
    reflexivity.
Qed.

Lemma record_event_day_invariant e day db ev pending :
  ev_emp_id ev = e ->
  date_of (ev_timestamp ev) = day ->
  Forall (fun ev' => time_of (ev_timestamp ev)
                     <= time_of (ev_timestamp ev')) pending ->
  day_invariant e day db (ev :: pending) ->
  day_invariant e day (fst (record_event db ev)) pending.
Proof.
  intros He Hday Hpend Hinv. subst day.
  pose proof (day_invariant_tail _ _ _ _ _ Hinv) as Htail.
  unfold record_event, log_attendance_update_only, commit. rewrite He.
  destruct (String.eqb (ev_type ev) "IN").
  { destruct (select_by_emp_date db e _) eqn:Hsel; [exact Htail|].
    apply select_none_rows_of in Hsel.
    destruct (insert_first_in _ _ _ _ _ _) as [db'|[db' err]] eqn:Hins;
      [|exact (day_invariant_refused_insert _ _ _ _ _ _ _ _ _ _ Hins Htail)].
    simpl. eapply day_invariant_first_sighting; eauto. }
  destruct (String.eqb (ev_type ev) "OUT"); [|exact Htail].
  destruct (select_by_emp_date db e _) as [existing|] eqn:Hsel.
  2:{ apply select_none_rows_of in Hsel.
      destruct (insert_first_in _ _ _ _ _ _) as [db'|[db' err]] eqn:Hins;
        [|exact (day_invariant_refused_insert _ _ _ _ _ _ _ _ _ _ Hins
                   Htail)].
      simpl. eapply day_invariant_first_sighting; eauto. }
  destruct (select_some_rows_of _ _ _ _ Hsel) as [others Hrows].
  destruct Hinv as [Hlen Hrow]. rewrite Hrows in Hlen, Hrow.
  destruct others as [|other others]; [|simpl in Hlen; lia].
  destruct (Hrow existing (or_introl eq_refl)) as (a & Ha & Hb & Hp).
  rewrite Ha.
  destruct (update_where_id _ _ _ _) as [db'|[db' err]] eqn:Hupd;
    [|apply update_where_id_inr in Hupd; subst db'; exact Htail].
  simpl. apply update_where_id_inl in Hupd.
  pose proof (rows_of_update _ _ _ _ e (date_of (ev_timestamp ev))
                (set_last_out_key _ _ _) Hupd) as Hnew.
  rewrite Hrows in Hnew. simpl in Hnew. rewrite Z.eqb_refl in Hnew.
  unfold day_invariant. rewrite Hnew. split; [simpl; lia|].
  intros r [<-|[]]. exists a. simpl.
  inversion Hp as [|? ? Hev Hrest]; subst.
  repeat split; trivial. intros b [= <-]. exact Hev.
Qed.

Lemma record_events_day_invariant e day evs :
  forall db,
    Forall (fun ev => ev_emp_id ev = e /\
                      date_of (ev_timestamp ev) = day) evs ->
    chronological evs ->
    day_invariant e day db evs ->
    day_invariant e day (fst (record_events db evs)) [].
Proof.
  induction evs as [|ev evs IH]; simpl; intros db Hall Hchron Hinv;
    [exact Hinv|].
  inversion Hall as [|? ? [He Hday] Hrest]; subst.
  destruct Hchron as [Hfirst Hchron].
  assert (Hpend : Forall (fun ev' => time_of (ev_timestamp ev)
                                     <= time_of (ev_timestamp ev')) evs).
  { rewrite Forall_forall in *. intros ev' Hin.
    apply same_day_time_le; [|now apply Hfirst].
    symmetry. now apply Hrest. }
  pose proof (record_event_day_invariant _ _ _ _ _ eq_refl eq_refl
                Hpend Hinv) as Hstep.
  destruct (record_event db ev) as [db1 r1]. simpl in Hstep.
  specialize (IH db1 Hrest Hchron Hstep).
  destruct (record_events db1 evs) as [db2 rs]. exact IH.
Qed.

(** C4, as amended.  For every sequence of calls with event kinds IN and
    OUT for one identity within one day that starts without a record and
    whose timestamps do not decrease from one call to the next, whatever
    the order of the kinds, the day has at most one record at the end,
    its first-IN is set, and first-IN <= last-OUT whenever last-OUT is
    set. *)
Theorem first_in_le_last_out
    (db : database) (e : string) (day : Z) (evs : list event) :
  rows_of db e day = [] ->
  Forall (fun ev => ev_emp_id ev = e /\
                    (ev_type ev = "IN" \/ ev_type ev = "OUT") /\
                    date_of (ev_timestamp ev) = day) evs ->
  chronological evs ->
  let final := fst (record_events db evs) in
  (length (rows_of final e day) <= 1)%nat /\
  forall r,
    In r (rows_of final e day) ->
    exists a,
      first_in r = Some a /\
      forall b, last_out r = Some b -> a <= b.
Proof.
  intros Hrows Hall Hchron final.
  assert (Hinv : day_invariant e day final []).
  { apply record_events_day_invariant; trivial.
    - eapply Forall_impl; [|exact Hall]. simpl. tauto.
    - unfold day_invariant. rewrite Hrows. split; [simpl; lia|].
      intros r []. }
  destruct Hinv as [Hlen Hrow]. split; [exact Hlen|].
  intros r Hr. destruct (Hrow r Hr) as (a & Ha & Hb & _). eauto.
Qed.
End LedgerFacts.

(** *** The ledger on concrete days *)

Section LedgerExamples.
Import PooledDatabaseService Examples.
Local Open Scope Z_scope.

(** Closes the side conditions on a literal list of events. *)
Ltac literal_events :=
  repeat first
    [ apply Forall_nil
    | apply Forall_cons
    | split
    | reflexivity
    | left; reflexivity
    | right; reflexivity ].

Lemma out_without_record_sets_first_in_witness :
  let res := log_attendance_update_only empty_ledger "E001" "OUT"
               "cam-exit" (9 # 10)%Q (ist_time 9 0) in
  success (snd res) = true /\
  action (snd res) = Some "inserted" /\
  attendance_logs (fst res) =
    attendance_logs empty_ledger ++
    [first_sighting_row empty_ledger "E001" "cam-exit" (9 # 10)%Q
       (ist_time 9 0)] /\
  exists r,
    rows_of (fst res) "E001" 20000 = [r] /\
    first_in r = Some 32400 /\
    in_camera_id r = Some "cam-exit" /\
    in_confidence r = Some (9 # 10)%Q /\
    last_out r = None /\ out_camera_id r = None /\ out_confidence r = None /\
    emp_id r = "E001" /\
    exists day time_only,
      date r = day /\ first_in r = Some time_only /\
      0 <= time_only < 86400 /\
      86400 * day + time_only = 20000 * 86400 + 9 * 3600.
Proof.
  apply (out_without_record_sets_first_in empty_ledger "E001" "cam-exit"
           (9 # 10)%Q (ist_time 9 0)).
  - reflexivity.
  - simpl. now left.
  - reflexivity.
Defined.

(** The same call at 23:45 UTC, given as a naive timestamp: on the IST
    clock it is 05:15 of the next day, and the record says so. *)
Example out_without_record_late_utc :
  attendance_logs
    (fst (log_attendance_update_only empty_ledger "E001" "OUT" "cam-exit"
            (9 # 10)%Q
            {| wall_seconds := 19999 * 86400 + 23 * 3600 + 45 * 60;
               tzinfo := None |}))
  = [ {| id := 1; emp_id := "E001"; date := 20000;
         first_in := Some (5 * 3600 + 15 * 60);
         last_out := None;
         in_camera_id := Some "cam-exit"; in_confidence := Some (9 # 10)%Q;
         out_camera_id := None; out_confidence := None |} ].
Proof. reflexivity. Qed.

Lemma repeated_in_recorded_once_witness :
  let first := record_event empty_ledger (sighting "IN" "cam-entry" 9 0) in
  let later := record_events (fst first)
                 [sighting "IN" "cam-entry" 9 1;
                  sighting "IN" "cam-entry" 13 30] in
  action (snd first) = Some "inserted" /\
  Forall (fun r => success r = true /\ action r = Some "skipped")
         (snd later) /\
  fst later = fst first.
Proof.
  destruct (repeated_in_recorded_once empty_ledger "E001" 20000
              (sighting "IN" "cam-entry" 9 0)
              [sighting "IN" "cam-entry" 9 1;
               sighting "IN" "cam-entry" 13 30])
    as (_ & H1 & _ & _ & _ & H2 & H3).
  - reflexivity.
  - simpl. now left.
  - reflexivity.
  - literal_events.
  - cbv zeta. repeat split; assumption.
Defined.

(** C5 as stated fails: the first IN of a day succeeds with the action
    "inserted", which is none of "created", "updated" and "skipped". *)
Lemma first_in_action_is_not_created :
  let r := snd (log_attendance_update_only empty_ledger "E001" "IN"
                  "cam-entry" (9 # 10)%Q (ist_time 9 0)) in
  success r = true /\
  action r = Some "inserted" /\
  ~ (action r = Some "created" \/ action r = Some "updated" \/
     action r = Some "skipped").
Proof.
  cbv zeta. split; [reflexivity|]. split; [reflexivity|].
  intros [H|[H|H]]; discriminate H.
Qed.

Lemma action_inserted_updated_skipped_witness :
  action (snd (log_attendance_update_only empty_ledger "E001" "OUT"
                 "cam-exit" (9 # 10)%Q (ist_time 9 0)))
    = Some "inserted" \/
  action (snd (log_attendance_update_only empty_ledger "E001" "OUT"
                 "cam-exit" (9 # 10)%Q (ist_time 9 0)))
    = Some "updated" \/
  action (snd (log_attendance_update_only empty_ledger "E001" "OUT"
                 "cam-exit" (9 # 10)%Q (ist_time 9 0)))
    = Some "skipped".
Proof.
  apply (proj1 action_inserted_updated_skipped empty_ledger "E001" "OUT"
           "cam-exit" (9 # 10)%Q (ist_time 9 0)).
  - now right.
  - reflexivity.
Defined.

(** C4 as stated fails: the function takes the timestamp as it is given.
    An IN stamped 10:00 followed by an OUT call stamped 09:00 of the same
    day leaves first-IN = 10:00 after last-OUT = 09:00. *)
Lemma out_stamped_before_in_breaks_order :
  let evs := [sighting "IN" "cam-entry" 10 0;
              sighting "OUT" "cam-exit" 9 0] in
  let final := fst (record_events empty_ledger evs) in
  Forall (fun ev => ev_emp_id ev = "E001" /\
                    (ev_type ev = "IN" \/ ev_type ev = "OUT") /\
                    date_of (ev_timestamp ev) = 20000) evs /\
  exists r,
    rows_of final "E001" 20000 = [r] /\
    first_in r = Some 36000 /\ last_out r = Some 32400 /\
    ~ (36000 <= 32400).
Proof.
  cbv zeta. split.
  - literal_events.
  - eexists. split; [reflexivity|]. repeat split. lia.
Qed.

Lemma first_in_le_last_out_witness :
  let final := fst (record_events empty_ledger
                      [sighting "OUT" "cam-exit" 9 0;
                       sighting "IN" "cam-entry" 9 5;
                       sighting "OUT" "cam-exit" 18 0]) in
  (length (rows_of final "E001" 20000) <= 1)%nat /\
  forall r,
    In r (rows_of final "E001" 20000) ->
    exists a,
      first_in r = Some a /\ forall b, last_out r = Some b -> a <= b.
Proof.
  apply (first_in_le_last_out empty_ledger "E001" 20000
           [sighting "OUT" "cam-exit" 9 0;
            sighting "IN" "cam-entry" 9 5;
            sighting "OUT" "cam-exit" 18 0]).
  - reflexivity.
  - literal_events.
  - simpl. repeat constructor; vm_compute; discriminate.
Defined.
End LedgerExamples.

(** ** The frame loop of the camera worker *)

Section CameraFacts.
Import CameraService.
Local Open Scope nat_scope.










(** A worker whose first connection ends at a failed read after six
    frames and whose second connection gives three: the counter goes on,
    and the frames processed are the 1st, 4th and 7th of the worker.  A
    run of the loop entered with [frame_count = 4] drains its first two
    frames. *)
Example process_camera_two_connections :
  process_camera [[true; true; true; true; true; true; false; true];
                  [true; true; true]]
  = (9, [Processed; Drained; Drained; Processed; Drained; Drained;
         Processed; Drained; Drained]) /\
  frame_loop 4 [true; true; true; true]
  = (8, [Drained; Drained; Processed; Drained]).
Proof. split; reflexivity. Qed.

End CameraFacts.

(** ** The broadcast hub *)

Section BroadcastFacts.
Import WebSocketManager.
Local Open Scope nat_scope.

Lemma collect_tasks_no_call_error (conns : list websocket) :
  Forall (fun c => send_json c <> RaisesWhenCalled) conns ->
  collect_tasks conns = (conns, []).
Proof.
  induction 1 as [|c conns Hc _ IH]; simpl; [reflexivity|].
  rewrite IH. destruct (send_json c); congruence.
Qed.

(** A frame or another message: the registry is the same after caching. *)
Lemma cache_frame_connections self m :
  active_connections (cache_frame self m) = active_connections self.
Proof.
  unfold cache_frame. destruct (camera m) as [c|]; [|reflexivity].
  destruct (String.eqb c "entry"); [reflexivity|].
  destruct (String.eqb c "exit"); reflexivity.
Qed.

(** When no call of [send_json] raises before it is awaited (a coroutine
    function never does), [broadcast] delivers to every viewer whose send
    completes and removes nobody, also not the viewers whose send
    failed. *)
Lemma broadcast_removes_nobody (self : manager) (m : message) :
  Forall (fun c => send_json c <> RaisesWhenCalled)
         (active_connections self) ->
  active_connections (fst (broadcast self m)) = active_connections self /\
  snd (broadcast self m) =
    map ws_id
      (filter (fun c => match send_json c with
                        | Delivers => true
                        | _ => false
                        end) (active_connections self)).
Proof.
  intros Hall. unfold broadcast.
  destruct (active_connections self) as [|c conns] eqn:Hconns;
    [split; [exact Hconns|reflexivity]|].
  set (self1 := if String.eqb (msg_type m) "frame" then cache_frame self m
                else self).
  assert (H1 : active_connections self1 = c :: conns).
  { subst self1. destruct (String.eqb _ _);
      [rewrite cache_frame_connections|]; exact Hconns. }
  rewrite H1, (collect_tasks_no_call_error _ Hall). simpl.
  split; [exact H1|reflexivity].
Qed.

(** C10 on three viewers, the send to viewer 2 failing: the message
    reaches viewers 1 and 3, and viewer 2 is still registered after the
    broadcast, in [active_connections] and in [connection_users]. *)
Theorem broadcast_keeps_viewer_whose_send_failed :
  snd (broadcast Examples.three_viewers Examples.status_message) = [1; 3] /\
  map ws_id (active_connections
               (fst (broadcast Examples.three_viewers
                       Examples.status_message))) = [1; 2; 3] /\
  map fst (connection_users
             (fst (broadcast Examples.three_viewers
                     Examples.status_message))) = [1; 2; 3].
Proof. repeat split. Qed.
End BroadcastFacts.


(** * Further properties of the modelled code *)

(** ** The ledger: what a call never does *)

Section LedgerInvariants.
Import PooledDatabaseService AttendanceTable.
Local Open Scope Z_scope.

(** A statement that is refused changes no row and no employee. *)
Definition rows_kept (db db' : database) : Prop :=
  employees db' = employees db /\
  attendance_logs db' = attendance_logs db /\
  (db' = db \/ db' = draw_id db).

Lemma rows_kept_refl db : rows_kept db db.
Proof. repeat split. now left. Qed.

Lemma rows_kept_draw db : rows_kept db (draw_id db).
Proof. repeat split. now right. Qed.

Lemma draw_id_neq db : draw_id db <> db.
Proof.
  intros H. apply (f_equal next_id) in H. simpl in H. lia.
Qed.

(** The three ways a call can leave the table. *)
Lemma log_attendance_outcomes db e ty cam conf ts :
  let res := log_attendance_update_only db e ty cam conf ts in
  rows_kept db (fst res) \/
  (success (snd res) = true /\
   rows_of db e (date_of ts) = [] /\
   existsb (key_matches e (date_of ts)) (attendance_logs db) = false /\
   employees (fst res) = employees db /\
   next_id (fst res) = next_id db + 1 /\
   attendance_logs (fst res) =
     attendance_logs db ++ [first_sighting_row db e cam conf ts]) \/
  (exists existing f,
      success (snd res) = true /\
      ty = "OUT" /\
      select_by_emp_date db e (date_of ts) = Some existing /\
      ((exists a, first_in existing = Some a /\
                  f = set_last_out (time_of ts) cam conf) \/
       (first_in existing = None /\
        f = set_first_in (time_of ts) cam conf)) /\
      employees (fst res) = employees db /\
      next_id (fst res) = next_id db /\
      attendance_logs (fst res) =
        map (fun r => if Z.eqb (id r) (id existing) then f r else r)
            (attendance_logs db)).
Proof.
  intros res. subst res.
  assert (Hins : forall msg act,
    let res := commit
                 (insert_first_in db e (date_of ts) (time_of ts) cam conf)
                 (ok msg act) in
    rows_kept db (fst res) \/
    (success (snd res) = true /\
     existsb (key_matches e (date_of ts)) (attendance_logs db) = false /\
     employees (fst res) = employees db /\
     next_id (fst res) = next_id db + 1 /\
     attendance_logs (fst res) =
       attendance_logs db ++ [first_sighting_row db e cam conf ts])).
  { intros msg act. unfold insert_first_in, commit.
    destruct (negb (fits_varchar50 cam)); [left; apply rows_kept_refl|].
    destruct (negb (_ || _)); [left; apply rows_kept_refl|].
    destruct (existsb (key_matches e (date_of ts)) (attendance_logs db));
      [left; apply rows_kept_draw|].
    destruct (negb (existsb (String.eqb e) (employees db)));
      [left; apply rows_kept_draw|].
    right. simpl. repeat split. }
  assert (Hupd : forall existing f msg act,
    let res := commit (update_where_id db (id existing) cam f)
                 (ok msg act) in
    rows_kept db (fst res) \/
    (success (snd res) = true /\
     employees (fst res) = employees db /\
     next_id (fst res) = next_id db /\
     attendance_logs (fst res) =
       map (fun r => if Z.eqb (id r) (id existing) then f r else r)
           (attendance_logs db))).
  { intros existing f msg act. unfold update_where_id, commit.
    destruct (negb (fits_varchar50 cam)); [left; apply rows_kept_refl|].
    right. simpl. repeat split. }
  unfold log_attendance_update_only.
  destruct (String.eqb ty "IN") eqn:Ein.
  { destruct (select_by_emp_date db e (date_of ts)) eqn:Hsel;
      [left; apply rows_kept_refl|].
    destruct (Hins "IN logged" "inserted") as [H|(H1 & H2 & H3 & H4 & H5)];
      [now left|].
    right; left. apply select_none_rows_of in Hsel. repeat split; assumption. }
  destruct (String.eqb ty "OUT") eqn:Eout; [|left; apply rows_kept_refl].
  apply String.eqb_eq in Eout.
  destruct (select_by_emp_date db e (date_of ts)) as [existing|] eqn:Hsel.
  - destruct (first_in existing) as [a|] eqn:Hfirst.
    + destruct (Hupd existing (set_last_out (time_of ts) cam conf)
                  "OUT updated" "updated") as [H|(H1 & H2 & H3 & H4)];
        [now left|].
      right; right. exists existing, (set_last_out (time_of ts) cam conf).
      repeat split; trivial. left. now exists a.
    + destruct (Hupd existing (set_first_in (time_of ts) cam conf)
                  "IN logged (EXIT camera used)" "updated")
        as [H|(H1 & H2 & H3 & H4)]; [now left|].
      right; right. exists existing, (set_first_in (time_of ts) cam conf).
      repeat split; trivial. now right.
  - destruct (Hins "IN logged (EXIT camera used)" "inserted")
      as [H|(H1 & H2 & H3 & H4 & H5)]; [now left|].
    right; left. apply select_none_rows_of in Hsel. repeat split; assumption.
Qed.

(** An INSERT that is refused although no row has the key. *)
Lemma refused_insert db e day time_only cam conf msg act :
  let res := commit (insert_first_in db e day time_only cam conf)
               (ok msg act) in
  existsb (key_matches e day) (attendance_logs db) = false ->
  success (snd res) = false ->
  action (snd res) = None /\
  rows_kept db (fst res) /\
  (fst res = draw_id db <->
   fits_varchar50 cam = true /\ fits_varchar20 e = true).
Proof.
  intros res Hkey. subst res. unfold insert_first_in, commit.
  rewrite Hkey.
  destruct (fits_varchar50 cam); cbn [negb].
  2:{ intros _. split; [reflexivity|]. split; [apply rows_kept_refl|].
      cbn [fst]. split; [|intros [? _]; discriminate].
      intros H. symmetry in H. now apply draw_id_neq in H. }
  destruct (existsb (String.eqb e) (employees db)); cbn [orb negb].
  { discriminate. }
  destruct (fits_varchar20 e); cbn [negb fst snd]; intros _.
  - split; [reflexivity|]. split; [apply rows_kept_draw|]. tauto.
  - split; [reflexivity|]. split; [apply rows_kept_refl|].
    split; [|intros [_ ?]; discriminate].
    intros H. symmetry in H. now apply draw_id_neq in H.
Qed.

(** X1.  A call that reports failure has changed no row of the table and
    no employee, and carries no action.  The store is as it was, but for
    the counter of ids, which is one further exactly when the event kind
    is IN or OUT and both the camera id and the identity fit their
    columns: the INSERT was then refused on its row (the identity is not
    enrolled), and the id drawn for that row is not given back. *)
Theorem failed_call_changes_no_row
    (db : database) (e event_type camera_id : string) (confidence : Q)
    (timestamp : datetime) :
  let res := log_attendance_update_only db e event_type camera_id
               confidence timestamp in
  success (snd res) = false ->
  action (snd res) = None /\
  employees (fst res) = employees db /\
  attendance_logs (fst res) = attendance_logs db /\
  (fst res = db \/ fst res = draw_id db) /\
  (fst res = draw_id db <->
   (event_type = "IN" \/ event_type = "OUT") /\
   fits_varchar50 camera_id = true /\ fits_varchar20 e = true).
Proof.
  intros res.
  assert (Hpack : forall db',
    action (snd res) = None /\ rows_kept db db' /\
    (db' = draw_id db <->
     (event_type = "IN" \/ event_type = "OUT") /\
     fits_varchar50 camera_id = true /\ fits_varchar20 e = true) ->
    fst res = db' ->
    action (snd res) = None /\
    employees (fst res) = employees db /\
    attendance_logs (fst res) = attendance_logs db /\
    (fst res = db \/ fst res = draw_id db) /\
    (fst res = draw_id db <->
     (event_type = "IN" \/ event_type = "OUT") /\
     fits_varchar50 camera_id = true /\ fits_varchar20 e = true)).
  { intros db' (Ha & (H1 & H2 & H3) & H4) ->. tauto. }
  intros Hfail. apply (Hpack (fst res)); [|reflexivity]. clear Hpack.
  subst res. revert Hfail. unfold log_attendance_update_only.
  assert (Hsame : forall P : Prop,
            ~ P -> (db = draw_id db <-> P)).
  { intros P HP. split; [|tauto].
    intros H. symmetry in H. now apply draw_id_neq in H. }
  destruct (String.eqb event_type "IN") eqn:Ein.
  { apply String.eqb_eq in Ein. subst event_type.
    destruct (select_by_emp_date db e (date_of timestamp)) eqn:Hsel;
      [discriminate|].
    intros Hfail.
    destruct (refused_insert db e (date_of timestamp) (time_of timestamp)
                camera_id confidence "IN logged" "inserted"
                (rows_of_none_existsb _ _ _
                   (proj1 (select_none_rows_of _ _ _) Hsel)) Hfail)
      as (Ha & Hk & Hd).
    split; [exact Ha|]. split; [exact Hk|]. rewrite Hd. tauto. }
  destruct (String.eqb event_type "OUT") eqn:Eout.
  2:{ intros _. cbn [fst snd failed action].
      split; [reflexivity|]. split; [apply rows_kept_refl|].
      apply Hsame. intros [[-> | ->] _]; discriminate. }
  apply String.eqb_eq in Eout. subst event_type.
  destruct (select_by_emp_date db e (date_of timestamp)) as [existing|]
    eqn:Hsel.
  - assert (Hupd : forall f msg act,
      success (snd (commit (update_where_id db (id existing) camera_id f)
                      (ok msg act))) = false ->
      action (snd (commit (update_where_id db (id existing) camera_id f)
                     (ok msg act))) = None /\
      rows_kept db
        (fst (commit (update_where_id db (id existing) camera_id f)
                (ok msg act))) /\
      (fst (commit (update_where_id db (id existing) camera_id f)
              (ok msg act)) = draw_id db <->
       ("OUT" = "IN" \/ "OUT" = "OUT") /\
       fits_varchar50 camera_id = true /\ fits_varchar20 e = true)).
    { intros f msg act. unfold update_where_id, commit.
      destruct (fits_varchar50 camera_id); cbn [negb fst snd];
        [discriminate|].
      intros _. split; [reflexivity|]. split; [apply rows_kept_refl|].
      apply Hsame. intros (_ & ? & _). discriminate. }
    destruct (first_in existing); apply Hupd.
  - intros Hfail.
    destruct (refused_insert db e (date_of timestamp) (time_of timestamp)
                camera_id confidence "IN logged (EXIT camera used)"
                "inserted"
                (rows_of_none_existsb _ _ _
                   (proj1 (select_none_rows_of _ _ _) Hsel)) Hfail)
      as (Ha & Hk & Hd).
    split; [exact Ha|]. split; [exact Hk|]. rewrite Hd. tauto.
Qed.

(** X2.  For an enrolled employee and a camera id that fits its column,
    a call with event kind IN or OUT always succeeds. *)
Theorem enrolled_call_succeeds
    (db : database) (e event_type camera_id : string) (confidence : Q)
    (timestamp : datetime) :
  event_type = "IN" \/ event_type = "OUT" ->
  In e (employees db) ->
  fits_varchar50 camera_id = true ->
  success (snd (log_attendance_update_only db e event_type camera_id
                  confidence timestamp)) = true.
Proof.
  intros Hty He Hcam.
  unfold log_attendance_update_only, commit, update_where_id.
  rewrite Hcam.
  destruct Hty as [-> | ->]; simpl String.eqb; cbv iota.
  - destruct (select_by_emp_date _ _ _) eqn:Hsel; [reflexivity|].
    apply select_none_rows_of in Hsel.
    now rewrite (insert_first_in_ok _ _ _ confidence _ He Hsel Hcam).
  - destruct (select_by_emp_date _ _ _) as [existing|] eqn:Hsel.
    + destruct (first_in existing); reflexivity.
    + apply select_none_rows_of in Hsel.
      now rewrite (insert_first_in_ok _ _ _ confidence _ He Hsel Hcam).
Qed.

Lemma map_update_same {B : Type} (g : row -> B) (f : row -> row)
    (rid : Z) (l : list row) :
  (forall r, g (f r) = g r) ->
  map g (map (fun r => if Z.eqb (id r) rid then f r else r) l) = map g l.
Proof.
  intros Hg. rewrite map_map. apply map_ext. intros r.
  destruct (Z.eqb (id r) rid); [apply Hg|reflexivity].
Qed.

Lemma existsb_key_not_in db e day :
  existsb (key_matches e day) (attendance_logs db) = false ->
  ~ In (e, day) (map key_of (attendance_logs db)).
Proof.
  intros Hex Hin. apply in_map_iff in Hin. destruct Hin as (r & Hk & Hr).
  assert (existsb (key_matches e day) (attendance_logs db) = true);
    [|congruence].
  apply existsb_exists. exists r. split; [exact Hr|].
  unfold key_of in Hk. inversion Hk; subst.
  apply key_matches_true. now split.
Qed.

(** X3.  Every call keeps the table well formed: ids stay distinct and
    below the counter, and there is at most one row per identity and
    day. *)
Theorem log_attendance_keeps_table_well_formed
    (db : database) (e event_type camera_id : string) (confidence : Q)
    (timestamp : datetime) :
  well_formed db ->
  well_formed (fst (log_attendance_update_only db e event_type camera_id
                      confidence timestamp)).
Proof.
  intros (Hid & Hlt & Hkey).
  destruct (log_attendance_outcomes db e event_type camera_id confidence
              timestamp) as [H|[H|H]].
  - destruct H as (_ & _ & [-> | ->]); [now repeat split|].
    unfold well_formed, draw_id. cbn [attendance_logs next_id].
    repeat split; trivial.
    eapply Forall_impl; [|exact Hlt]. simpl. intros; lia.
  - destruct H as (_ & _ & Hex & _ & Hnext & Hlogs).
    unfold well_formed. rewrite Hlogs, Hnext, !map_app. simpl.
    repeat split.
    + apply NoDup_app; [exact Hid|repeat constructor; intros []|].
      intros x Hx [<-|[]]. apply in_map_iff in Hx.
      destruct Hx as (r & Hr & Hin). rewrite Forall_forall in Hlt.
      specialize (Hlt r Hin). lia.
    + apply Forall_app. split.
      * eapply Forall_impl; [|exact Hlt]. simpl. intros; lia.
      * constructor; [simpl; lia|constructor].
    + apply NoDup_app; [exact Hkey|repeat constructor; intros []|].
      intros x Hx [<-|[]]. now apply (existsb_key_not_in _ _ _ Hex).
  - destruct H as (existing & f & _ & _ & _ & Hf & _ & Hnext & Hlogs).
    assert (Hsame : forall r, id (f r) = id r /\ key_of (f r) = key_of r)
      by (destruct Hf as [(a & _ & ->)|[_ ->]]; intros r; split; reflexivity).
    unfold well_formed. rewrite Hlogs, Hnext.
    rewrite (map_update_same id f), (map_update_same key_of f)
      by apply Hsame.
    repeat split; trivial.
    apply Forall_forall. intros r' Hr'. apply in_map_iff in Hr'.
    destruct Hr' as (r & <- & Hin). rewrite Forall_forall in Hlt.
    specialize (Hlt r Hin).
    destruct (Z.eqb (id r) (id existing)); [|exact Hlt].
    now rewrite (proj1 (Hsame r)).
Qed.

Lemma NoDup_map_eq {B : Type} (g : row -> B) (l : list row) (x y : row) :
  NoDup (map g l) -> In x l -> In y l -> g x = g y -> x = y.
Proof.
  induction l as [|z l IH]; simpl; intros Hnd Hx Hy Hg; [contradiction|].
  inversion Hnd as [|? ? Hz Hnd']; subst.
  destruct Hx as [->|Hx], Hy as [->|Hy]; trivial.
  - exfalso. apply Hz. rewrite Hg. now apply in_map.
  - exfalso. apply Hz. rewrite <- Hg. now apply in_map.
  - now apply IH.
Qed.

Lemma select_some_in db e day r :
  select_by_emp_date db e day = Some r ->
  In r (attendance_logs db) /\ emp_id r = e /\ date r = day.
Proof.
  intros H. apply find_some in H. destruct H as [Hin Hk].
  apply key_matches_true in Hk. tauto.
Qed.

(** X4.  Once first-IN of a row is set no call changes it, nor the camera
    and confidence recorded with it; the row stays where it is, with its
    id, identity and day. *)
Theorem first_in_is_never_changed
    (db : database) (e event_type camera_id : string) (confidence : Q)
    (timestamp : datetime) (i : nat) (r : row) (a : Z) :
  well_formed db ->
  nth_error (attendance_logs db) i = Some r ->
  first_in r = Some a ->
  exists r',
    nth_error (attendance_logs
                 (fst (log_attendance_update_only db e event_type
                         camera_id confidence timestamp))) i = Some r' /\
    first_in r' = Some a /\
    in_camera_id r' = in_camera_id r /\
    in_confidence r' = in_confidence r /\
    id r' = id r /\ emp_id r' = emp_id r /\ date r' = date r.
Proof.
  intros (Hid & _ & _) Hnth Hfirst.
  destruct (log_attendance_outcomes db e event_type camera_id confidence
              timestamp) as [H|[H|H]].
  - destruct H as (_ & -> & _). exists r. now repeat split.
  - destruct H as (_ & _ & _ & _ & _ & Hlogs). rewrite Hlogs.
    exists r. repeat split; trivial.
    rewrite nth_error_app1; [exact Hnth|].
    apply nth_error_Some. congruence.
  - destruct H as (existing & f & _ & _ & Hsel & Hf & _ & _ & Hlogs).
    rewrite Hlogs, nth_error_map, Hnth. simpl.
    destruct (Z.eqb (id r) (id existing)) eqn:E;
      [|exists r; now repeat split].
    apply Z.eqb_eq in E.
    destruct Hf as [(a' & _ & ->)|[Hnone ->]].
    + exists (set_last_out (time_of timestamp) camera_id confidence r).
      now repeat split.
    + exfalso. apply select_some_in in Hsel. destruct Hsel as [Hin _].
      assert (r = existing)
        by (eapply NoDup_map_eq; eauto; eapply nth_error_In; eauto).
      congruence.
Qed.

(** X5.  A call for one identity and day leaves the rows of every other
    identity and of every other day as they were. *)
Theorem other_rows_are_untouched
    (db : database) (e event_type camera_id : string) (confidence : Q)
    (timestamp : datetime) (e' : string) (day' : Z) :
  well_formed db ->
  e' <> e \/ day' <> date_of timestamp ->
  rows_of (fst (log_attendance_update_only db e event_type camera_id
                  confidence timestamp)) e' day'
  = rows_of db e' day'.
Proof.
  intros (Hid & _ & _) Hother.
  assert (Hkey : forall r, emp_id r = e -> date r = date_of timestamp ->
                           key_matches e' day' r = false).
  { intros r He Hd. unfold key_matches. rewrite He, Hd.
    destruct Hother as [Hne|Hne].
    - apply String.eqb_neq in Hne. rewrite String.eqb_sym in Hne.
      now rewrite Hne.
    - apply Z.eqb_neq in Hne. rewrite Z.eqb_sym in Hne. rewrite Hne.
      apply andb_false_r. }
  destruct (log_attendance_outcomes db e event_type camera_id confidence
              timestamp) as [H|[H|H]].
  - destruct H as (_ & Hlogs & _). unfold rows_of. now rewrite Hlogs.
  - destruct H as (_ & _ & _ & _ & _ & Hlogs).
    rewrite (rows_of_app_row _ _ e' day' _ Hlogs).
    rewrite (Hkey (first_sighting_row db e camera_id confidence timestamp)
               eq_refl eq_refl).
    apply app_nil_r.
  - destruct H as (existing & f & _ & _ & Hsel & Hf & _ & _ & Hlogs).
    assert (Hsame : forall r, emp_id (f r) = emp_id r /\ date (f r) = date r)
      by (destruct Hf as [(a & _ & ->)|[_ ->]]; intros r; split; reflexivity).
    rewrite (rows_of_update _ _ _ _ e' day' Hsame Hlogs).
    apply select_some_in in Hsel. destruct Hsel as (Hin & He & Hd).
    rewrite <- (map_id (rows_of db e' day')) at 2.
    apply map_ext_in. intros r Hr. unfold rows_of in Hr.
    apply filter_In in Hr. destruct Hr as [Hr Hk].
    destruct (Z.eqb (id r) (id existing)) eqn:E; [|reflexivity].
    apply Z.eqb_eq in E.
    assert (r = existing) by (eapply NoDup_map_eq; eauto). subst r.
    rewrite (Hkey _ He Hd) in Hk. discriminate.
Qed.

Lemma filter_key_at_most_one (l : list row) (e : string) (day : Z) :
  NoDup (map key_of l) ->
  (length (filter (key_matches e day) l) <= 1)%nat.
Proof.
  induction l as [|r l IH]; simpl; intros Hnd; [lia|].
  inversion Hnd as [|? ? Hr Hnd']; subst.
  destruct (key_matches e day r) eqn:Hk; [|now apply IH].
  simpl. apply key_matches_true in Hk. destruct Hk as [He Hd].
  destruct (filter (key_matches e day) l) as [|r' rest] eqn:Hf; [simpl; lia|].
  exfalso. apply Hr.
  assert (Hin : In r' (filter (key_matches e day) l))
    by (rewrite Hf; now left).
  apply filter_In in Hin. destruct Hin as [Hin Hk'].
  apply key_matches_true in Hk'. destruct Hk' as [He' Hd'].
  replace (key_of r) with (key_of r')
    by (unfold key_of; congruence).
  now apply in_map.
Qed.

Lemma selected_row_is_the_only_one db e day existing :
  well_formed db ->
  select_by_emp_date db e day = Some existing ->
  rows_of db e day = [existing].
Proof.
  intros (_ & _ & Hkey) Hsel.
  destruct (select_some_rows_of _ _ _ _ Hsel) as [rest Hrows].
  pose proof (filter_key_at_most_one _ e day Hkey) as Hlen.
  fold (rows_of db e day) in Hlen. rewrite Hrows in *.
  destruct rest; [reflexivity|simpl in Hlen; lia].
Qed.

(** X6.  An OUT for a day whose record has first-IN set succeeds with
    action "updated" and replaces last-OUT, its camera and its confidence
    by those of the event, whatever was stored before; first-IN and the
    rest of the record stay. *)
Theorem out_replaces_last_out
    (db : database) (e camera_id : string) (confidence : Q)
    (timestamp : datetime) (existing : row) (a : Z) :
  well_formed db ->
  select_by_emp_date db e (date_of timestamp) = Some existing ->
  first_in existing = Some a ->
  fits_varchar50 camera_id = true ->
  let res := log_attendance_update_only db e "OUT" camera_id confidence
               timestamp in
  snd res = ok "OUT updated" "updated" /\
  rows_of (fst res) e (date_of timestamp) =
    [ {| id := id existing; emp_id := emp_id existing;
         date := date existing;
         first_in := Some a; last_out := Some (time_of timestamp);
         in_camera_id := in_camera_id existing;
         out_camera_id := Some camera_id;
         in_confidence := in_confidence existing;
         out_confidence := Some confidence |} ].
Proof.
  intros Hwf Hsel Hfirst Hcam res. subst res.
  pose proof (selected_row_is_the_only_one _ _ _ _ Hwf Hsel) as Hrows.
  unfold log_attendance_update_only. simpl String.eqb. cbv iota.
  rewrite Hsel, Hfirst. unfold update_where_id. rewrite Hcam. simpl.
  split; [reflexivity|].
  unfold rows_of in *. simpl.
  rewrite (filter_map_same_key (key_matches e (date_of timestamp))).
  - rewrite Hrows. simpl. rewrite Z.eqb_refl.
    unfold set_last_out. now rewrite Hfirst.
  - intros r. now destruct (Z.eqb (id r) (id existing)).
Qed.

(** X7.  An OUT for a day whose record has no first-IN succeeds with
    action "updated" and is stored as the arrival: first-IN, its camera
    and its confidence are set from the event and last-OUT is left as it
    was. *)
Theorem out_fills_missing_first_in
    (db : database) (e camera_id : string) (confidence : Q)
    (timestamp : datetime) (existing : row) :
  well_formed db ->
  select_by_emp_date db e (date_of timestamp) = Some existing ->
  first_in existing = None ->
  fits_varchar50 camera_id = true ->
  let res := log_attendance_update_only db e "OUT" camera_id confidence
               timestamp in
  snd res = ok "IN logged (EXIT camera used)" "updated" /\
  rows_of (fst res) e (date_of timestamp) =
    [ {| id := id existing; emp_id := emp_id existing;
         date := date existing;
         first_in := Some (time_of timestamp);
         last_out := last_out existing;
         in_camera_id := Some camera_id;
         out_camera_id := out_camera_id existing;
         in_confidence := Some confidence;
         out_confidence := out_confidence existing |} ].
Proof.
  intros Hwf Hsel Hfirst Hcam res. subst res.
  pose proof (selected_row_is_the_only_one _ _ _ _ Hwf Hsel) as Hrows.
  unfold log_attendance_update_only. simpl String.eqb. cbv iota.
  rewrite Hsel, Hfirst. unfold update_where_id. rewrite Hcam. simpl.
  split; [reflexivity|].
  unfold rows_of in *. simpl.
  rewrite (filter_map_same_key (key_matches e (date_of timestamp))).
  - rewrite Hrows. simpl. now rewrite Z.eqb_refl.
  - intros r. now destruct (Z.eqb (id r) (id existing)).
Qed.

(** *** The retention job *)

Lemma filter_split_length {A : Type} (p : A -> bool) (l : list A) :
  (length (filter p l) + length (filter (fun x => negb (p x)) l)
   = length l)%nat.
Proof.
  induction l as [|x l IH]; simpl; [reflexivity|].
  destruct (p x); simpl; lia.
Qed.

Lemma NoDup_map_filter {A B : Type} (g : A -> B) (p : A -> bool)
    (l : list A) :
  NoDup (map g l) -> NoDup (map g (filter p l)).
Proof.
  induction l as [|x l IH]; simpl; intros Hnd; [constructor|].
  inversion Hnd as [|? ? Hx Hnd']; subst.
  destruct (p x); simpl; [|now apply IH].
  constructor; [|now apply IH].
  intros Hin. apply Hx. apply in_map_iff in Hin.
  destruct Hin as (y & Hy & Hin). apply filter_In in Hin.
  rewrite <- Hy. apply in_map. tauto.
Qed.

Lemma date_minus_days_spec (d days : Z) :
  (Z.abs days <= timedelta_max_days /\ date_min <= d - days <= date_max /\
   date_minus_days d days = Some (d - days)) \/
  ((timedelta_max_days < Z.abs days \/ d - days < date_min \/
    date_max < d - days) /\
   date_minus_days d days = None).
Proof.
  unfold date_minus_days.
  destruct (Z.ltb timedelta_max_days (Z.abs days)) eqn:E1.
  { right. apply Z.ltb_lt in E1. split; [now left|reflexivity]. }
  apply Z.ltb_ge in E1.
  destruct (Z.ltb (d - days) date_min) eqn:E2; cbn [orb].
  { right. apply Z.ltb_lt in E2. split; [right; now left|reflexivity]. }
  apply Z.ltb_ge in E2.
  destruct (Z.ltb date_max (d - days)) eqn:E3.
  { right. apply Z.ltb_lt in E3. split; [right; now right|reflexivity]. }
  apply Z.ltb_ge in E3. left. repeat split; assumption.
Qed.

(** X8.  When the cutoff date [today - days_to_keep] is a date
    ([days_to_keep] is at most 999999999 either way and the cutoff lies
    between 0001-01-01 and 9999-12-31), [cleanup_old_logs] returns and
    has deleted exactly the rows dated before the cutoff: a row is left
    if and only if it was there and is not older than the cutoff, the
    rows left keep their order and content, the count reported is the
    number of rows deleted, and the table stays well formed.  Otherwise
    the function returns nothing: the [OverflowError] is not caught. *)
Theorem cleanup_old_logs_deletes_only_old_rows
    (db : database) (today days_to_keep : Z) :
  (Z.abs days_to_keep <= timedelta_max_days ->
   date_min <= today - days_to_keep <= date_max ->
   exists db' deleted,
     cleanup_old_logs db today days_to_keep = Some (db', deleted) /\
     (forall r,
         In r (attendance_logs db') <->
         In r (attendance_logs db) /\ today - days_to_keep <= date r) /\
     (forall e day,
         today - days_to_keep <= day ->
         rows_of db' e day = rows_of db e day) /\
     deleted + Z.of_nat (length (attendance_logs db'))
       = Z.of_nat (length (attendance_logs db)) /\
     0 <= deleted /\
     employees db' = employees db /\
     next_id db' = next_id db /\
     (well_formed db -> well_formed db')) /\
  (timedelta_max_days < Z.abs days_to_keep \/
   today - days_to_keep < date_min \/ date_max < today - days_to_keep ->
   cleanup_old_logs db today days_to_keep = None).
Proof.
  unfold cleanup_old_logs.
  destruct (date_minus_days_spec today days_to_keep)
    as [(H1 & H2 & ->)|(H & ->)].
  2:{ split; [|reflexivity]. intros; exfalso; lia. }
  split; [|intros; exfalso; lia].
  intros _ _. eexists. eexists. split; [reflexivity|].
  cbn [attendance_logs employees next_id].
  split; [|split; [|split; [|split; [|split; [|split]]]]].
  - intros r. rewrite filter_In, negb_true_iff, Z.ltb_ge. tauto.
  - intros e day Hday. unfold rows_of. cbn [attendance_logs].
    induction (attendance_logs db) as [|r l IH]; simpl; [reflexivity|].
    destruct (Z.ltb (date r) (today - days_to_keep)) eqn:Hold; simpl.
    + destruct (key_matches e day r) eqn:Hk; [|exact IH].
      apply key_matches_true in Hk. apply Z.ltb_lt in Hold. lia.
    + destruct (key_matches e day r); now rewrite IH.
  - pose proof (filter_split_length
                  (fun r => Z.ltb (date r) (today - days_to_keep))
                  (attendance_logs db)). lia.
  - lia.
  - reflexivity.
  - reflexivity.
  - intros (Hid & Hlt & Hkey). unfold well_formed.
    cbn [attendance_logs next_id].
    split; [now apply NoDup_map_filter|].
    split; [|now apply NoDup_map_filter].
    apply Forall_forall. intros r Hr.
    apply filter_In in Hr. rewrite Forall_forall in Hlt. now apply Hlt.
Qed.
End LedgerInvariants.

Section LedgerInvariantExamples.
Import PooledDatabaseService AttendanceTable Examples MoreExamples.
Local Open Scope Z_scope.

(** Closes [well_formed] of a literal table. *)
Ltac literal_table :=
  unfold well_formed; simpl;
  repeat first
    [ split
    | apply NoDup_nil
    | apply NoDup_cons
    | apply Forall_nil
    | apply Forall_cons
    | lia
    | (simpl; intuition (discriminate || lia)) ].

Lemma ledger_after_in_well_formed : well_formed ledger_after_in.
Proof. literal_table. Qed.

Lemma ledger_with_blank_row_well_formed : well_formed ledger_with_blank_row.
Proof. literal_table. Qed.

Lemma failed_call_changes_no_row_witness :
  let res := log_attendance_update_only ledger_after_in "E404" "OUT"
               "cam-exit" (9 # 10)%Q (ist_time 18 0) in
  action (snd res) = None /\
  employees (fst res) = ["E001"] /\
  attendance_logs (fst res) = attendance_logs ledger_after_in /\
  (fst res = ledger_after_in \/ fst res = draw_id ledger_after_in) /\
  (fst res = draw_id ledger_after_in <->
   ("OUT" = "IN" \/ "OUT" = "OUT") /\
   fits_varchar50 "cam-exit" = true /\ fits_varchar20 "E404" = true).
Proof.
  apply (failed_call_changes_no_row ledger_after_in "E404" "OUT"
           "cam-exit" (9 # 10)%Q (ist_time 18 0)).
  reflexivity.
Defined.

(** The call above for an identity that is not enrolled: the INSERT is
    refused by the foreign key, the rows stay and the counter of ids
    goes from 2 to 3.  With a camera id of 51 characters the statement
    is refused before a row is formed and the counter stays. *)
Example refused_insert_draws_an_id :
  next_id ledger_after_in = 2 /\
  log_attendance_update_only ledger_after_in "E404" "OUT" "cam-exit"
    (9 # 10)%Q (ist_time 18 0)
  = ({| employees := ["E001"];
        attendance_logs := attendance_logs ledger_after_in;
        next_id := 3 |},
     failed "violates foreign key constraint") /\
  log_attendance_update_only ledger_after_in "E404" "OUT"
    "camera-at-the-exit-gate-of-the-second-floor-lobby-x"
    (9 # 10)%Q (ist_time 18 0)
  = (ledger_after_in,
     failed "value too long for type character varying(50)").
Proof. repeat split. Qed.

(** The retention job on day 20000: with 365 days to keep, the row of
    day 19000 goes and the row of day 20000 stays; with 800000 days to
    keep the cutoff would lie before 0001-01-01 and the call raises. *)
Example cleanup_old_logs_keeps_a_year :
  exists db',
    cleanup_old_logs ledger_with_blank_row 20000 365 = Some (db', 1) /\
    map date (attendance_logs ledger_with_blank_row) = [19000; 20000] /\
    map date (attendance_logs db') = [20000].
Proof. eexists. repeat split. Qed.

Example cleanup_old_logs_overflow :
  cleanup_old_logs ledger_with_blank_row 20000 800000 = None /\
  cleanup_old_logs ledger_with_blank_row 20000 1000000000 = None.
Proof. split; reflexivity. Qed.

Lemma enrolled_call_succeeds_witness :
  success (snd (log_attendance_update_only ledger_after_in "E001" "OUT"
                  "cam-exit" (9 # 10)%Q (ist_time 18 0))) = true.
Proof.
  apply (enrolled_call_succeeds ledger_after_in "E001" "OUT" "cam-exit"
           (9 # 10)%Q (ist_time 18 0)).
  - now right.
  - simpl. now left.
  - reflexivity.
Defined.

Lemma log_attendance_keeps_table_well_formed_witness :
  well_formed (fst (log_attendance_update_only ledger_after_in "E001" "OUT"
                      "cam-exit" (9 # 10)%Q (ist_time 18 0))).
Proof.
  apply (log_attendance_keeps_table_well_formed ledger_after_in "E001" "OUT"
           "cam-exit" (9 # 10)%Q (ist_time 18 0)).
  exact ledger_after_in_well_formed.
Defined.

Lemma first_in_is_never_changed_witness :
  exists r',
    nth_error (attendance_logs
                 (fst (log_attendance_update_only ledger_after_in "E001"
                         "OUT" "cam-exit" (9 # 10)%Q (ist_time 18 0)))) 0
      = Some r' /\
    first_in r' = Some 32400 /\
    in_camera_id r' = Some "cam-entry" /\
    in_confidence r' = Some (9 # 10)%Q /\
    id r' = 1 /\ emp_id r' = "E001" /\ date r' = 20000.
Proof.
  apply (first_in_is_never_changed ledger_after_in "E001" "OUT" "cam-exit"
           (9 # 10)%Q (ist_time 18 0) 0
           (first_sighting_row empty_ledger "E001" "cam-entry" (9 # 10)%Q
              (ist_time 9 0)) 32400).
  - exact ledger_after_in_well_formed.
  - reflexivity.
  - reflexivity.
Defined.

Lemma other_rows_are_untouched_witness :
  rows_of (fst (log_attendance_update_only ledger_with_blank_row "E001"
                  "OUT" "cam-exit" (9 # 10)%Q (ist_time 18 0))) "E001" 19000
  = rows_of ledger_with_blank_row "E001" 19000.
Proof.
  apply (other_rows_are_untouched ledger_with_blank_row "E001" "OUT"
           "cam-exit" (9 # 10)%Q (ist_time 18 0) "E001" 19000).
  - exact ledger_with_blank_row_well_formed.
  - right. vm_compute. discriminate.
Defined.

Lemma out_replaces_last_out_witness :
  snd (log_attendance_update_only ledger_after_in "E001" "OUT" "cam-exit"
         (8 # 10)%Q (ist_time 18 0)) = ok "OUT updated" "updated" /\
  rows_of (fst (log_attendance_update_only ledger_after_in "E001" "OUT"
                  "cam-exit" (8 # 10)%Q (ist_time 18 0))) "E001" 20000 =
    [ {| id := 1; emp_id := "E001"; date := 20000;
         first_in := Some 32400; last_out := Some 64800;
         in_camera_id := Some "cam-entry"; out_camera_id := Some "cam-exit";
         in_confidence := Some (9 # 10)%Q;
         out_confidence := Some (8 # 10)%Q |} ].
Proof.
  apply (out_replaces_last_out ledger_after_in "E001" "cam-exit" (8 # 10)%Q
           (ist_time 18 0)
           (first_sighting_row empty_ledger "E001" "cam-entry" (9 # 10)%Q
              (ist_time 9 0)) 32400).
  - exact ledger_after_in_well_formed.
  - reflexivity.
  - reflexivity.
  - reflexivity.
Defined.

Lemma out_fills_missing_first_in_witness :
  snd (log_attendance_update_only ledger_with_blank_row "E001" "OUT"
         "cam-exit" (8 # 10)%Q (ist_time 18 0))
    = ok "IN logged (EXIT camera used)" "updated" /\
  rows_of (fst (log_attendance_update_only ledger_with_blank_row "E001" "OUT"
                  "cam-exit" (8 # 10)%Q (ist_time 18 0))) "E001" 20000 =
    [ {| id := 2; emp_id := "E001"; date := 20000;
         first_in := Some 64800; last_out := None;
         in_camera_id := Some "cam-exit"; out_camera_id := None;
         in_confidence := Some (8 # 10)%Q; out_confidence := None |} ].
Proof.
  apply (out_fills_missing_first_in ledger_with_blank_row "E001" "cam-exit"
           (8 # 10)%Q (ist_time 18 0)
           {| id := 2; emp_id := "E001"; date := 20000;
              first_in := None; last_out := None;
              in_camera_id := None; out_camera_id := None;
              in_confidence := None; out_confidence := None |}).
  - exact ledger_with_blank_row_well_formed.
  - reflexivity.
  - reflexivity.
  - reflexivity.
Defined.
End LedgerInvariantExamples.

(** ** The index after a reload *)

Section IndexInvariants.
Import FaceRecognitionServiceFAISS.
Local Open Scope Q_scope.
Variable normalize_L2 : embedding -> embedding.

Lemma load_face_map_fields (self : service) (fm : face_map_t) :
  let self' := load_face_map normalize_L2 self fm in
  embeddings_cache self' = flat_map (fun kv => embeddings (snd kv)) fm /\
  emp_id_map self' =
    flat_map (fun kv => map (fun _ => fst kv) (embeddings (snd kv))) fm /\
  recognition_threshold self' = recognition_threshold self /\
  face_map self' = fm /\
  (forall index,
      faiss_index self' = Some index ->
      xb index = map normalize_L2 (embeddings_cache self')).
Proof.
  unfold load_face_map.
  destruct (flat_map (fun kv => embeddings (snd kv)) fm) eqn:E; simpl.
  - repeat split. intros index H. discriminate.
  - repeat split. intros index [= <-]. reflexivity.
Qed.

Lemma emp_id_map_rows (fm : face_map_t) :
  forall i e,
    nth_error
      (flat_map (fun kv : string * employee =>
                   map (fun _ => fst kv) (embeddings (snd kv))) fm) i
      = Some e ->
    exists emp v,
      In (e, emp) fm /\ In v (embeddings emp) /\
      nth_error (flat_map (fun kv : string * employee =>
                             embeddings (snd kv)) fm) i = Some v.
Proof.
  induction fm as [|[k emp] fm IH]; simpl; intros i e H.
  - destruct i; discriminate.
  - destruct (Nat.lt_ge_cases i (length (embeddings emp))) as [Hlt|Hge].
    + rewrite nth_error_app1 in H by now rewrite length_map.
      rewrite nth_error_map in H.
      destruct (nth_error (embeddings emp) i) as [v|] eqn:Hv;
        [|discriminate].
      simpl in H. inversion H; subst.
      exists emp, v. repeat split.
      * now left.
      * eapply nth_error_In; eauto.
      * now rewrite nth_error_app1.
    + rewrite nth_error_app2 in H by now rewrite length_map.
      rewrite length_map in H.
      destruct (IH _ _ H) as (emp' & v & Hin & Hv & Hnth).
      exists emp', v. repeat split; [now right|exact Hv|].
      now rewrite nth_error_app2.
Qed.

Lemma emp_id_map_length (fm : face_map_t) :
  length (flat_map (fun kv : string * employee =>
                      map (fun _ => fst kv) (embeddings (snd kv))) fm)
  = length (flat_map (fun kv : string * employee =>
                        embeddings (snd kv)) fm).
Proof.
  induction fm as [|[k emp] fm IH]; simpl; [reflexivity|].
  now rewrite !length_app, length_map, IH.
Qed.

(** The lengths after a load. *)
Lemma loaded_lengths (self : service) (fm : face_map_t) :
  let self' := load_face_map normalize_L2 self fm in
  length (emp_id_map self') = length (embeddings_cache self') /\
  (forall index,
      faiss_index self' = Some index ->
      length (xb index) = length (emp_id_map self')) /\
  (faiss_index self' = None <-> embeddings_cache self' = []).
Proof.
  intros self'.
  destruct (load_face_map_fields self fm) as (Hc & Hi & _ & _ & Hx).
  fold self' in Hc, Hi, Hx.
  assert (Hlen : length (emp_id_map self') = length (embeddings_cache self'))
    by (rewrite Hc, Hi; apply emp_id_map_length).
  split; [exact Hlen|]. split.
  - intros index Hidx. now rewrite (Hx _ Hidx), length_map, Hlen.
  - subst self'. unfold load_face_map.
    destruct (flat_map (fun kv => embeddings (snd kv)) fm); simpl;
      split; intros; (reflexivity || discriminate).
Qed.

(** X9.  After [load_face_map], [emp_id_map], [embeddings_cache] and the
    rows of the index have one length, the index is absent exactly when
    there is no embedding, and position [i] of [emp_id_map] names an
    employee of the face map one of whose embeddings is at position [i]
    of the cache. *)
Theorem load_face_map_aligns_index (self : service) (fm : face_map_t) :
  let self' := load_face_map normalize_L2 self fm in
  length (emp_id_map self') = length (embeddings_cache self') /\
  (forall index,
      faiss_index self' = Some index ->
      length (xb index) = length (emp_id_map self')) /\
  (faiss_index self' = None <-> embeddings_cache self' = []) /\
  (forall i e,
      nth_error (emp_id_map self') i = Some e ->
      exists emp v,
        In (e, emp) fm /\ In v (embeddings emp) /\
        nth_error (embeddings_cache self') i = Some v).
Proof.
  intros self'.
  destruct (loaded_lengths self fm) as (Hlen & Hrows & Hnone).
  destruct (load_face_map_fields self fm) as (Hc & Hi & _).
  fold self' in Hlen, Hrows, Hnone, Hc, Hi.
  repeat split; trivial; try apply Hnone.
  intros i e Hnth. rewrite Hi in Hnth. rewrite Hc.
  now apply emp_id_map_rows.
Qed.

(** *** No lookup of a loaded index goes out of range *)

Lemma enumerate_from_bound {A : Type} (l : list A) :
  forall i n x,
    In (n, x) (enumerate_from i l) -> (i <= n < i + length l)%nat.
Proof.
  induction l as [|y l IH]; simpl; intros i n x H; [contradiction|].
  destruct H as [H|H].
  - inversion H; subst. lia.
  - apply IH in H. lia.
Qed.

Lemma enumerate_from_length {A : Type} (l : list A) :
  forall i, length (enumerate_from i l) = length l.
Proof.
  induction l as [|y l IH]; simpl; intros i; [reflexivity|].
  now rewrite IH.
Qed.

Lemma search_result index query k neighbors :
  search index query k = Some neighbors ->
  length neighbors = Nat.min k (length (xb index)) /\
  Forall (fun n => (fst n < length (xb index))%nat) neighbors /\
  descending snd neighbors.
Proof.
  unfold search. destruct (Nat.eqb _ _); [|discriminate].
  intros [= <-]. split; [|split].
  - now rewrite length_firstn, sorted_reverse_length, enumerate_from_length,
      length_map.
  - apply Forall_forall. intros [n x] Hin. simpl.
    apply In_firstn in Hin.
    apply (Permutation_in _ (Permutation_sym (sorted_reverse_perm snd _)))
      in Hin.
    apply enumerate_from_bound in Hin. rewrite length_map in Hin. lia.
  - pose proof (sorted_reverse_descending snd
                  (enumerate_from 0 (map (inner_product query) (xb index))))
      as Hd.
    revert Hd. generalize (sorted_reverse snd
      (enumerate_from 0 (map (inner_product query) (xb index)))).
    induction k as [|k IH]; intros l Hd; [exact I|].
    destruct l as [|x l]; [exact I|]. simpl in *.
    destruct Hd as [Hx Hl]. split; [|now apply IH].
    apply Forall_forall. intros y Hy. apply In_firstn in Hy.
    rewrite Forall_forall in Hx. now apply Hx.
Qed.

Lemma group_by_employee_in_range ids neighbors :
  forall acc,
    Forall (fun n => (fst n < length ids)%nat) neighbors ->
    exists res, group_by_employee ids neighbors acc = Some res.
Proof.
  induction neighbors as [|[idx sim] ns IH]; simpl; intros acc Hall.
  - eauto.
  - inversion Hall as [|? ? Hidx Hrest]; subst. simpl in Hidx.
    destruct (nth_error ids idx) as [e|] eqn:E.
    + now apply IH.
    + apply nth_error_None in E. lia.
Qed.

(** X10.  On a service that [load_face_map] has loaded, a query of the
    dimension of the index is always answered: the search gives
    min(20, number of embeddings) neighbours, best first, and the grouping
    by employee never looks outside [emp_id_map]. *)
Theorem loaded_index_answers_every_query
    (self : service) (fm : face_map_t) (index : IndexFlatIP)
    (face_embedding : embedding) :
  let self' := load_face_map normalize_L2 self fm in
  faiss_index self' = Some index ->
  length (normalize_L2 face_embedding) = d index ->
  exists neighbors emp_scores,
    neighbors_of normalize_L2 self' index face_embedding = Some neighbors /\
    length neighbors = Nat.min 20 (length (embeddings_cache self')) /\
    descending snd neighbors /\
    emp_scores_of normalize_L2 self' index face_embedding = Some emp_scores /\
    recognize_face normalize_L2 self' face_embedding =
      if Qle_bool (recognition_threshold self') (snd (best_of emp_scores))
      then best_of emp_scores
      else (None, snd (best_of emp_scores)).
Proof.
  intros self' Hidx Hdim.
  destruct (loaded_lengths self fm) as (Hlen & Hrows & Hnone).
  fold self' in Hlen, Hrows, Hnone.
  specialize (Hrows _ Hidx).
  assert (Hs : exists neighbors,
             neighbors_of normalize_L2 self' index face_embedding
             = Some neighbors).
  { unfold neighbors_of, search. apply Nat.eqb_eq in Hdim. rewrite Hdim.
    eauto. }
  destruct Hs as [neighbors Hnb].
  pose proof Hnb as Hnb'. unfold neighbors_of in Hnb'.
  destruct (search_result _ _ _ _ Hnb') as (Hn & Hrange & Hdesc).
  destruct (group_by_employee_in_range (emp_id_map self') neighbors [])
    as [es Hes].
  { eapply Forall_impl; [|exact Hrange]. simpl. intros n Hn'. lia. }
  assert (Hes' : emp_scores_of normalize_L2 self' index face_embedding
                 = Some es)
    by (unfold emp_scores_of; now rewrite Hnb).
  exists neighbors, es. repeat split; trivial.
  - rewrite Hn, Hrows, Hlen.
    rewrite (Nat.min_l (Nat.min 20 (length (embeddings_cache self')))) by lia.
    reflexivity.
  - assert (Hmap : Nat.eqb (length (emp_id_map self')) 0 = false).
    { apply Nat.eqb_neq. intros H0. rewrite Hlen in H0.
      apply length_zero_iff_nil in H0. apply Hnone in H0. congruence. }
    rewrite (recognize_face_unfold normalize_L2 _ _ _ _ Hidx Hmap Hes').
    destruct (Qle_bool _ _); [|reflexivity]. now destruct (best_of es).
Qed.

Lemma scores_append_key_in acc e s k :
  In k (map fst (scores_append acc e s)) -> In k (map fst acc) \/ k = e.
Proof.
  rewrite scores_append_keys. destruct (existsb _ _); [now left|].
  rewrite in_app_iff. simpl. intuition.
Qed.

Lemma group_by_employee_keys ids neighbors :
  forall acc res,
    group_by_employee ids neighbors acc = Some res ->
    forall k, In k (map fst res) -> In k (map fst acc) \/ In k ids.
Proof.
  induction neighbors as [|[idx sim] ns IH]; simpl; intros acc res H k Hk.
  - inversion H; subst. now left.
  - destruct (nth_error ids idx) as [e|] eqn:E; [|discriminate].
    destruct (IH _ _ H k Hk) as [Hin|Hin]; [|now right].
    apply scores_append_key_in in Hin. destruct Hin as [Hin| ->];
      [now left|].
    right. eapply nth_error_In; eauto.
Qed.

(** An identity that is returned is an entry of [emp_id_map]. *)
Lemma recognized_identity_in_emp_id_map (self : service)
    (face_embedding : embedding) (e : string) (c : Q) :
  recognize_face normalize_L2 self face_embedding = (Some e, c) ->
  In e (emp_id_map self).
Proof.
  intros Hrec.
  destruct (recognize_face_cases normalize_L2 self face_embedding)
    as [H0|(index & es & Hidx & Hmap & Hes)]; [congruence|].
  rewrite (recognize_face_unfold normalize_L2 _ _ _ _ Hidx Hmap Hes) in Hrec.
  destruct (Qle_bool _ _); [|discriminate].
  destruct (best_of_spec es) as (_ & _ & Hsrc).
  destruct Hsrc as [[Hnone _]|(e1 & s1 & He1 & Hin & _)].
  - inversion Hrec. congruence.
  - inversion Hrec as [[Hb Hc]]. rewrite He1 in Hb. inversion Hb; subst e1.
    unfold emp_scores_of in Hes.
    destruct (neighbors_of normalize_L2 self index face_embedding)
      as [neighbors|]; [|discriminate].
    destruct (group_by_employee_keys _ _ _ _ Hes e) as [[]|Hk]; [|exact Hk].
    change e with (fst (e, s1)). now apply in_map.
Qed.

(** An entry of the loaded [emp_id_map] is a key of the face map that has
    an embedding. *)
Lemma loaded_emp_id_has_embedding (self : service) (fm : face_map_t)
    (e : string) :
  In e (emp_id_map (load_face_map normalize_L2 self fm)) ->
  exists emp, In (e, emp) fm /\ embeddings emp <> [].
Proof.
  intros Hin. apply In_nth_error in Hin. destruct Hin as [i Hi].
  destruct (load_face_map_fields self fm) as (_ & Hids & _).
  cbv zeta in Hids. rewrite Hids in Hi.
  destruct (emp_id_map_rows _ _ _ Hi) as (emp & v & Hin & Hv & _).
  exists emp. split; [exact Hin|]. intros Hnil. rewrite Hnil in Hv.
  contradiction.
Qed.

(** X11.  After a reload, an identity that [recognize_face] returns is a
    key of the loaded face map and has at least one embedding there. *)
Theorem recognized_identity_is_enrolled
    (self : service) (fm : face_map_t) (face_embedding : embedding)
    (e : string) (c : Q) :
  recognize_face normalize_L2 (load_face_map normalize_L2 self fm)
    face_embedding = (Some e, c) ->
  exists emp, In (e, emp) fm /\ embeddings emp <> [].
Proof.
  intros Hrec. apply recognized_identity_in_emp_id_map in Hrec.
  exact (loaded_emp_id_has_embedding self fm e Hrec).
Qed.

(** X12.  Let [top] be the best matched similarity of an identity.  When
    [top] is not negative the confidence of the identity is at most
    [top]; when [top] is negative the confidence is at most [top] times
    0.6, which is above [top]. *)
Theorem confidence_at_most_best_similarity (sims : list Q) (top : Q) :
  In top sims ->
  Forall (fun x => x <= top) sims ->
  (0 <= top -> confidence_of sims <= top) /\
  (top < 0 -> confidence_of sims <= top * (6 # 10)).
Proof.
  intros Hin Hall.
  destruct sims as [|x [|y rest]].
  - contradiction.
  - rewrite confidence_of_single. destruct Hin as [->|[]].
    split; intros H; lra.
  - destruct (confidence_of_two_or_more (x :: y :: rest))
      as (t & second & r & Hperm & Htop & _ & Hclose & Hfar);
      [simpl; lia|].
    rewrite Forall_forall in Hall.
    assert (Ht : t <= top)
      by (apply Hall; eapply Permutation_in;
          [apply Permutation_sym, Hperm|now left]).
    assert (Hs : second <= t) by now inversion Htop.
    destruct (Qlt_le_dec (8 # 100) (t - second)) as [Hgap|Hgap].
    + rewrite (Hfar Hgap). split; intros H; lra.
    + rewrite (Hclose Hgap).
      split; intros H; apply Qle_shift_div_r; lra.
Qed.
End IndexInvariants.

Section IndexExamples.
Import FaceRecognitionServiceFAISS Examples.
Local Open Scope Q_scope.

Lemma loaded_index_answers_every_query_witness :
  exists neighbors emp_scores,
    neighbors_of unit_normalize two_employees_service two_employees_index
      near_E001 = Some neighbors /\
    length neighbors = Nat.min 20 (length (embeddings_cache
                                             two_employees_service)) /\
    descending snd neighbors /\
    emp_scores_of unit_normalize two_employees_service two_employees_index
      near_E001 = Some emp_scores /\
    recognize_face unit_normalize two_employees_service near_E001 =
      if Qle_bool (recognition_threshold two_employees_service)
                  (snd (best_of emp_scores))
      then best_of emp_scores
      else (None, snd (best_of emp_scores)).
Proof.
  apply (loaded_index_answers_every_query unit_normalize init two_employees
           two_employees_index near_E001).
  - reflexivity.
  - reflexivity.
Defined.

Lemma recognized_identity_is_enrolled_witness :
  exists emp, In ("E001", emp) two_employees /\ embeddings emp <> [].
Proof.
  apply (recognized_identity_is_enrolled unit_normalize init two_employees
           near_E001 "E001"
           (snd (recognize_face unit_normalize two_employees_service
                   near_E001))).
  reflexivity.
Defined.

Lemma confidence_at_most_best_similarity_witness :
  (0 <= 82 # 100 -> confidence_of [82 # 100; 77 # 100] <= 82 # 100) /\
  (82 # 100 < 0 ->
   confidence_of [82 # 100; 77 # 100] <= (82 # 100) * (6 # 10)).
Proof.
  apply (confidence_at_most_best_similarity [82 # 100; 77 # 100] (82 # 100)).
  - now left.
  - repeat constructor; discriminate.
Defined.

(** With a negative best similarity the confidence can be above it: two
    poses at -1/2 and -1 are far apart, and the penalized best, -3/10,
    is above -1/2. *)
Example confidence_above_negative_best :
  confidence_of [-(1 # 2); -1] == -(3 # 10) /\
  -(1 # 2) < confidence_of [-(1 # 2); -1].
Proof. split; reflexivity. Qed.
End IndexExamples.

(** ** The employees table and the face map loaded from it *)

Section EmployeeStoreFacts.
Import FaceRecognitionServiceFAISS EmployeeStore.
Local Open Scope nat_scope.
Local Arguments embedding_columns : simpl never.

Lemma non_null_In (cols : list (option embedding)) (x : embedding) :
  In x (non_null cols) <-> In (Some x) cols.
Proof.
  induction cols as [|[y|] cols IH]; simpl; [tauto| |].
  - rewrite IH. split; intros [H|H]; auto; left; congruence.
  - rewrite IH. split; [auto|]. intros [H|H]; [discriminate|exact H].
Qed.

Lemma non_null_length (cols : list (option embedding)) :
  length (non_null cols) <= length cols.
Proof.
  induction cols as [|[y|] cols IH]; simpl; lia.
Qed.

Lemma dict_set_In fm k v k' v' :
  In (k', v') (dict_set fm k v) -> In (k', v') fm \/ (k' = k /\ v' = v).
Proof.
  induction fm as [|[k0 v0] fm IH]; simpl.
  - intros [H|[]]. inversion H. now right.
  - destruct (String.eqb k0 k) eqn:E; simpl.
    + apply String.eqb_eq in E. subst k0.
      intros [H|H]; [inversion H; now right|now left; right].
    + intros [H|H]; [now left; left|].
      destruct (IH H) as [H'|H']; [left; now right|now right].
Qed.

Lemma dict_set_new fm k v : In (k, v) (dict_set fm k v).
Proof.
  induction fm as [|[k0 v0] fm IH]; simpl; [now left|].
  destruct (String.eqb k0 k) eqn:E; simpl.
  - apply String.eqb_eq in E. subst k0. now left.
  - now right.
Qed.

Lemma dict_set_other fm k v k' v' :
  k' <> k -> In (k', v') fm -> In (k', v') (dict_set fm k v).
Proof.
  intros Hne. induction fm as [|[k0 v0] fm IH]; simpl; [contradiction|].
  intros [H|H].
  - inversion H; subst. apply String.eqb_neq in Hne. rewrite Hne. now left.
  - destruct (String.eqb k0 k); [now right|right; now apply IH].
Qed.

Lemma add_row_In fm r k v :
  In (k, v) (add_row fm r) ->
  In (k, v) fm \/
  (k = emp_id r /\ v = entry_of r /\ non_null (embedding_columns r) <> []).
Proof.
  unfold add_row, entry_of.
  destruct (non_null (embedding_columns r)) as [|x xs] eqn:E; [now left|].
  intros H. apply dict_set_In in H. destruct H as [H|[-> ->]]; [now left|].
  right. repeat split. discriminate.
Qed.

Lemma fold_add_row_In (rows : list employee_row) :
  forall fm k v,
    In (k, v) (fold_left add_row rows fm) ->
    In (k, v) fm \/
    exists r, In r rows /\ k = emp_id r /\ v = entry_of r /\
              non_null (embedding_columns r) <> [].
Proof.
  induction rows as [|r rows IH]; simpl; intros fm k v H; [now left|].
  destruct (IH _ _ _ H) as [H1|(r' & Hin & Hr')].
  - apply add_row_In in H1. destruct H1 as [H1|H1]; [now left|].
    right. exists r. split; [now left|exact H1].
  - right. exists r'. split; [now right|exact Hr'].
Qed.

Lemma fold_add_row_keeps (rows : list employee_row) :
  forall fm k v,
    In (k, v) fm ->
    (forall r, In r rows -> emp_id r <> k) ->
    In (k, v) (fold_left add_row rows fm).
Proof.
  induction rows as [|r rows IH]; simpl; intros fm k v Hin Hne; [exact Hin|].
  apply IH; [|intros r' Hr'; apply Hne; now right].
  unfold add_row. destruct (non_null (embedding_columns r)); [exact Hin|].
  apply dict_set_other; [|exact Hin].
  intros Heq. apply (Hne r); [now left|now symmetry].
Qed.

Lemma fold_add_row_has (rows : list employee_row) :
  forall fm r,
    NoDup (map emp_id rows) ->
    In r rows ->
    non_null (embedding_columns r) <> [] ->
    In (emp_id r, entry_of r) (fold_left add_row rows fm).
Proof.
  induction rows as [|r0 rows IH]; cbn [fold_left map In];
    intros fm r Hnd Hin Hemb; [contradiction|].
  inversion Hnd as [|? ? Hr0 Hnd']; subst.
  destruct Hin as [->|Hin]; [|now apply IH].
  apply fold_add_row_keeps.
  - unfold add_row, entry_of.
    destruct (non_null (embedding_columns r)) eqn:E; [congruence|].
    apply dict_set_new.
  - intros r' Hr' Heq. apply Hr0. rewrite <- Heq. now apply in_map.
Qed.

(** X13.  Every entry of the face map that [load_all_embeddings] builds
    comes from an active row of that id: it carries the name of the row
    and its non-null embeddings, of which there are between one and
    eight. *)
Theorem load_all_embeddings_entries
    (tbl : employees_table) (e : string) (emp : employee) :
  In (e, emp) (load_all_embeddings tbl) ->
  exists r,
    In r tbl /\ emp_id r = e /\ is_active r = true /\
    FaceRecognitionServiceFAISS.name emp = EmployeeStore.name r /\
    embeddings emp = non_null (embedding_columns r) /\
    1 <= length (embeddings emp) <= 8.
Proof.
  unfold load_all_embeddings. intros H.
  apply fold_add_row_In in H.
  destruct H as [[]|(r & Hin & -> & -> & Hemb)].
  apply filter_In in Hin. destruct Hin as [Hin Hact].
  exists r. repeat split; trivial; unfold entry_of; cbn [embeddings].
  - destruct (non_null (embedding_columns r)) eqn:E; [congruence|].
    cbn [length]. lia.
  - apply (non_null_length (embedding_columns r)).
Qed.

Lemma filter_unique (tbl : employees_table) (p : employee_row -> bool) :
  unique_ids tbl -> NoDup (map emp_id (filter p tbl)).
Proof.
  unfold unique_ids. induction tbl as [|r tbl IH]; simpl; intros Hnd;
    [constructor|].
  inversion Hnd as [|? ? Hr Hnd']; subst.
  destruct (p r); simpl; [|now apply IH].
  constructor; [|now apply IH].
  intros Hin. apply Hr. apply in_map_iff in Hin.
  destruct Hin as (y & Hy & Hin). apply filter_In in Hin.
  rewrite <- Hy. apply in_map. tauto.
Qed.

(** X14.  With unique ids, every active row that has at least one
    embedding is in the face map, under its id, with its name and all its
    non-null embeddings in column order. *)
Theorem load_all_embeddings_complete
    (tbl : employees_table) (r : employee_row) :
  unique_ids tbl ->
  In r tbl ->
  is_active r = true ->
  non_null (embedding_columns r) <> [] ->
  In (emp_id r,
      {| FaceRecognitionServiceFAISS.name := EmployeeStore.name r;
         embeddings := non_null (embedding_columns r) |})
     (load_all_embeddings tbl).
Proof.
  intros Huniq Hin Hact Hemb. unfold load_all_embeddings.
  apply (fold_add_row_has (filter is_active tbl) [] r).
  - now apply filter_unique.
  - apply filter_In. now split.
  - exact Hemb.
Qed.

(** *** Updates by employee id *)

Lemma update_where_emp_id_ids tbl e f :
  (forall r, emp_id (f r) = emp_id r) ->
  map emp_id (fst (update_where_emp_id tbl e f)) = map emp_id tbl.
Proof.
  intros Hf. unfold update_where_emp_id. cbn [fst].
  rewrite map_map. apply map_ext. intros r.
  destruct (String.eqb (emp_id r) e); [apply Hf|reflexivity].
Qed.

Lemma update_where_emp_id_rowcount tbl e f :
  snd (update_where_emp_id tbl e f) = 0 <->
  forall r, In r tbl -> emp_id r <> e.
Proof.
  unfold update_where_emp_id. cbn [snd]. split.
  - intros H0 r Hr He. apply length_zero_iff_nil in H0.
    assert (Hin : In r (filter (fun r => String.eqb (emp_id r) e) tbl))
      by (apply filter_In; split; [exact Hr|now apply String.eqb_eq]).
    rewrite H0 in Hin. contradiction.
  - intros Hall. apply length_zero_iff_nil.
    induction tbl as [|r tbl IH]; cbn [filter]; [reflexivity|].
    destruct (String.eqb (emp_id r) e) eqn:E.
    + apply String.eqb_eq in E. exfalso. apply (Hall r); [now left|exact E].
    + apply IH. intros r' Hr'. apply Hall. now right.
Qed.

Lemma update_where_emp_id_In tbl e f r' :
  In r' (fst (update_where_emp_id tbl e f)) <->
  exists r, In r tbl /\
            r' = if String.eqb (emp_id r) e then f r else r.
Proof.
  unfold update_where_emp_id. cbn [fst]. rewrite in_map_iff.
  split; intros (r & H1 & H2); exists r; split; auto.
Qed.

Lemma set_slot_emp_id a s r : emp_id (set_slot a s r) = emp_id r.
Proof. now destruct a. Qed.

Lemma set_slot_is_active a s r : is_active (set_slot a s r) = is_active r.
Proof. now destruct a. Qed.

Lemma get_set_slot a s r : get_slot a (set_slot a s r) = s.
Proof. now destruct a. Qed.

Lemma get_set_slot_other a b s r :
  a <> b -> get_slot b (set_slot a s r) = get_slot b r.
Proof. destruct a, b; intros H; try reflexivity; congruence. Qed.

Lemma slot_embedding_in_columns a r emb :
  slot_embedding (get_slot a r) = Some emb ->
  In emb (non_null (embedding_columns r)).
Proof.
  intros H. apply non_null_In. unfold embedding_columns.
  destruct a; cbn [get_slot] in H; rewrite <- H; cbn [In]; tauto.
Qed.

(** X16.  Saving an embedding of 512 components under a valid angle for
    an active employee succeeds, and the next [load_all_embeddings] has
    the employee with that embedding among its embeddings. *)
Theorem saved_embedding_is_loaded
    (tbl : employees_table) (r : employee_row) (emb : embedding)
    (angle_name : string) (a : angle) (quality : Q) :
  unique_ids tbl ->
  In r tbl ->
  is_active r = true ->
  angle_mapping angle_name = Some a ->
  length emb = vector_dim ->
  let res := save_face_embedding tbl (emp_id r) emb angle_name quality in
  snd res = done "Face saved" /\
  exists emp,
    In (emp_id r, emp) (load_all_embeddings (fst res)) /\
    In emb (embeddings emp).
Proof.
  intros Huniq Hin Hact Hang Hdim res. subst res.
  unfold save_face_embedding. rewrite Hang.
  apply Nat.eqb_eq in Hdim. rewrite Hdim.
  set (new := {| slot_embedding := Some emb; slot_quality := Some quality |}).
  destruct (update_where_emp_id tbl (emp_id r) (set_slot a new))
    as [tbl' rowcount] eqn:Hupd.
  assert (Htbl : tbl' = fst (update_where_emp_id tbl (emp_id r)
                               (set_slot a new))) by now rewrite Hupd.
  assert (Hcount : rowcount = snd (update_where_emp_id tbl (emp_id r)
                                     (set_slot a new))) by now rewrite Hupd.
  destruct (Nat.eqb rowcount 0) eqn:E.
  { apply Nat.eqb_eq in E. rewrite Hcount in E. exfalso.
    exact (proj1 (update_where_emp_id_rowcount _ _ _) E r Hin eq_refl). }
  cbn [fst snd]. split; [reflexivity|].
  exists (entry_of (set_slot a new r)).
  assert (Hnew : In emb (non_null (embedding_columns (set_slot a new r)))).
  { apply (slot_embedding_in_columns a). now rewrite get_set_slot. }
  split; [|exact Hnew].
  rewrite <- (set_slot_emp_id a new r).
  apply (fold_add_row_has (filter is_active tbl') [] (set_slot a new r)).
  - apply filter_unique. unfold unique_ids. rewrite Htbl.
    rewrite update_where_emp_id_ids; [exact Huniq|].
    intros r0. apply set_slot_emp_id.
  - apply filter_In. split; [|now rewrite set_slot_is_active].
    rewrite Htbl. apply update_where_emp_id_In. exists r.
    split; [exact Hin|]. now rewrite String.eqb_refl.
  - intros Hnil. rewrite Hnil in Hnew. contradiction.
Qed.

(** X18.  After [delete_employee], [create_employee] with the same id
    does not insert a row: it reactivates the old one with the new name,
    department and position and keeps its embeddings, so that the next
    [load_all_embeddings] has the employee with the old embeddings under
    the new name. *)
Theorem reactivation_keeps_embeddings
    (tbl : employees_table) (r : employee_row) (n dep pos : string) :
  unique_ids tbl ->
  In r tbl ->
  details_fit n dep pos = true ->
  non_null (embedding_columns r) <> [] ->
  let deleted := fst (delete_employee tbl (emp_id r)) in
  let res := create_employee deleted (emp_id r) n dep pos in
  snd res = done "Employee reactivated" /\
  length (fst res) = length tbl /\
  In (set_details n dep pos true r) (fst res) /\
  In (emp_id r,
      {| FaceRecognitionServiceFAISS.name := n;
         embeddings := non_null (embedding_columns r) |})
     (load_all_embeddings (fst res)).
Proof.
  intros Huniq Hin Hfit Hemb deleted res.
  assert (Hdel : deleted = fst (update_where_emp_id tbl (emp_id r)
                                  (set_active false))).
  { subst deleted. unfold delete_employee.
    destruct (update_where_emp_id tbl (emp_id r) (set_active false))
      as [tbl' rowcount] eqn:Hupd.
    destruct (Nat.eqb rowcount 0) eqn:E; [|reflexivity].
    apply Nat.eqb_eq in E.
    assert (E' : snd (update_where_emp_id tbl (emp_id r) (set_active false))
                 = 0) by now rewrite Hupd.
    exfalso.
    exact (proj1 (update_where_emp_id_rowcount _ _ _) E' r Hin eq_refl). }
  assert (Hr1 : In (set_active false r) deleted).
  { rewrite Hdel. apply update_where_emp_id_In. exists r.
    split; [exact Hin|]. now rewrite String.eqb_refl. }
  assert (Hsel : exists x, select_employee deleted (emp_id r) = Some x /\
                           emp_id x = emp_id r /\ is_active x = false).
  { unfold select_employee.
    destruct (find (fun r0 => String.eqb (emp_id r0) (emp_id r)) deleted)
      as [x|] eqn:Hfind.
    - exists x. split; [reflexivity|].
      apply find_some in Hfind. destruct Hfind as [Hx Hex].
      apply String.eqb_eq in Hex. split; [exact Hex|].
      rewrite Hdel in Hx. apply update_where_emp_id_In in Hx.
      destruct Hx as (r0 & _ & ->).
      destruct (String.eqb (emp_id r0) (emp_id r)) eqn:E; [reflexivity|].
      apply String.eqb_neq in E. contradiction.
    - exfalso. apply (find_none _ _ Hfind) in Hr1.
      cbn in Hr1. rewrite String.eqb_refl in Hr1. discriminate. }
  destruct Hsel as (x & Hsel & Hx & Hinactive).
  assert (Hres : res = (fst (update_where_emp_id deleted (emp_id r)
                               (set_details n dep pos true)),
                        done "Employee reactivated")).
  { subst res. unfold create_employee.
    now rewrite Hsel, Hinactive, Hfit, Hx. }
  assert (Hnew : In (set_details n dep pos true r) (fst res)).
  { rewrite Hres. cbn [fst]. apply update_where_emp_id_In.
    exists (set_active false r). split; [exact Hr1|].
    cbn [set_active set_details emp_id]. now rewrite String.eqb_refl. }
  rewrite Hres in *. cbn [fst snd] in *.
  split; [reflexivity|]. split; [|split; [exact Hnew|]].
  - unfold update_where_emp_id. cbn [fst]. rewrite length_map, Hdel.
    unfold update_where_emp_id. cbn [fst]. apply length_map.
  - apply (fold_add_row_has _ [] (set_details n dep pos true r)).
    + apply filter_unique. unfold unique_ids.
      rewrite update_where_emp_id_ids by reflexivity.
      rewrite Hdel, update_where_emp_id_ids by reflexivity.
      exact Huniq.
    + apply filter_In. now split.
    + exact Hemb.
Qed.

Lemma select_employee_none tbl e :
  select_employee tbl e = None -> ~ In e (map emp_id tbl).
Proof.
  intros Hnone Hin. apply in_map_iff in Hin. destruct Hin as (r & He & Hr).
  apply (find_none _ _ Hnone) in Hr. cbn in Hr.
  rewrite He, String.eqb_refl in Hr. discriminate.
Qed.

(** X19.  The four operations on the employees table keep [emp_id]
    unique: none of them ever leaves two rows with one id. *)
Theorem table_operations_keep_ids_unique (tbl : employees_table) :
  unique_ids tbl ->
  (forall e n dep pos, unique_ids (fst (create_employee tbl e n dep pos))) /\
  (forall e n dep pos, unique_ids (fst (update_employee tbl e n dep pos))) /\
  (forall e, unique_ids (fst (delete_employee tbl e))) /\
  (forall e emb angle_name quality,
      unique_ids (fst (save_face_embedding tbl e emb angle_name quality))).
Proof.
  intros Huniq. unfold unique_ids in *. repeat split.
  - intros e n dep pos. unfold create_employee.
    destruct (select_employee tbl e) as [existing|] eqn:Hsel.
    + destruct (negb (is_active existing)); [|exact Huniq].
      destruct (details_fit n dep pos); [|exact Huniq].
      cbn [fst]. now rewrite update_where_emp_id_ids.
    + destruct (fits_varchar 20 e && details_fit n dep pos); [|exact Huniq].
      cbn [fst]. rewrite map_app. cbn [map].
      apply NoDup_app; [exact Huniq|repeat constructor; intros []|].
      intros k Hk [<-|[]]. now apply (select_employee_none _ _ Hsel).
  - intros e n dep pos. unfold update_employee.
    destruct (details_fit n dep pos); [|exact Huniq].
    pose proof (update_where_emp_id_ids tbl e
                  (fun r => set_details n dep pos (is_active r) r)
                  (fun r => eq_refl)) as Hids.
    destruct (update_where_emp_id tbl e _) as [tbl' rowcount].
    cbn [fst] in Hids.
    destruct (Nat.eqb rowcount 0); cbn [fst]; [exact Huniq|].
    now rewrite Hids.
  - intros e. unfold delete_employee.
    pose proof (update_where_emp_id_ids tbl e (set_active false)
                  (fun r => eq_refl)) as Hids.
    destruct (update_where_emp_id tbl e _) as [tbl' rowcount].
    cbn [fst] in Hids.
    destruct (Nat.eqb rowcount 0); cbn [fst]; [exact Huniq|].
    now rewrite Hids.
  - intros e emb angle_name quality. unfold save_face_embedding.
    destruct (angle_mapping angle_name) as [a|]; [|exact Huniq].
    destruct (Nat.eqb (length emb) vector_dim); [|exact Huniq].
    pose proof (update_where_emp_id_ids tbl e
                  (set_slot a {| slot_embedding := Some emb;
                                 slot_quality := Some quality |})
                  (set_slot_emp_id a _)) as Hids.
    destruct (update_where_emp_id tbl e _) as [tbl' rowcount].
    cbn [fst] in Hids.
    destruct (Nat.eqb rowcount 0); cbn [fst]; [exact Huniq|].
    now rewrite Hids.
Qed.
End EmployeeStoreFacts.

(** ** Recognition after a reload from the table *)

Section ReloadFacts.
Import FaceRecognitionServiceFAISS EmployeeStore.
Local Open Scope nat_scope.
Local Arguments embedding_columns : simpl never.
Variable normalize_L2 : embedding -> embedding.

(** X15.  After a reload from the table, as the camera worker does it
    ([load_face_map (load_all_embeddings ...)]), an identity that
    [recognize_face] returns is the id of an active row that has at least
    one embedding: an employee who is deactivated or has no embedding is
    never recognized. *)
Theorem recognized_after_reload_is_active
    (self : service) (tbl : employees_table) (face_embedding : embedding)
    (e : string) (c : Q) :
  recognize_face normalize_L2
    (load_face_map normalize_L2 self (load_all_embeddings tbl))
    face_embedding = (Some e, c) ->
  exists r,
    In r tbl /\ emp_id r = e /\ is_active r = true /\
    non_null (embedding_columns r) <> [].
Proof.
  intros Hrec.
  apply recognized_identity_in_emp_id_map in Hrec.
  apply loaded_emp_id_has_embedding in Hrec.
  destruct Hrec as (emp & Hin & _).
  unfold load_all_embeddings in Hin. apply fold_add_row_In in Hin.
  destruct Hin as [[]|(r & Hr & -> & _ & Hemb)].
  apply filter_In in Hr. destruct Hr as [Hr Hact].
  exists r. now repeat split.
Qed.

(** X17.  [delete_employee] succeeds exactly when the id is in the table;
    it leaves a failed call without effect, and after a successful call
    and a reload of the face map [recognize_face] never returns that
    employee. *)
Theorem deleted_employee_is_never_recognized
    (self : service) (tbl : employees_table) (e : string) :
  let res := delete_employee tbl e in
  (success (snd res) = true <-> exists r, In r tbl /\ emp_id r = e) /\
  (success (snd res) = false -> fst res = tbl) /\
  (success (snd res) = true ->
   forall face_embedding c,
     recognize_face normalize_L2
       (load_face_map normalize_L2 self (load_all_embeddings (fst res)))
       face_embedding <> (Some e, c)).
Proof.
  intros res. subst res. unfold delete_employee.
  destruct (update_where_emp_id tbl e (set_active false))
    as [tbl' rowcount] eqn:Hupd.
  assert (Htbl : tbl' = fst (update_where_emp_id tbl e (set_active false)))
    by now rewrite Hupd.
  assert (Hcount : rowcount = snd (update_where_emp_id tbl e
                                     (set_active false)))
    by now rewrite Hupd.
  destruct (Nat.eqb rowcount 0) eqn:E; cbn [fst snd success refused done].
  - apply Nat.eqb_eq in E. rewrite Hcount in E.
    pose proof (proj1 (update_where_emp_id_rowcount _ _ _) E) as E'.
    clear E. rename E' into E.
    split; [|split; [reflexivity|discriminate]].
    split; [discriminate|]. intros (r & Hr & He). exfalso.
    now apply (E r).
  - split; [|split; [discriminate|]].
    + split; [|reflexivity]. intros _.
      apply Nat.eqb_neq in E. rewrite Hcount in E.
      destruct (filter (fun r => String.eqb (emp_id r) e) tbl) as [|r l]
        eqn:Hf; [exfalso; apply E; unfold update_where_emp_id; cbn [snd];
                 now rewrite Hf|].
      assert (Hr : In r (filter (fun r => String.eqb (emp_id r) e) tbl))
        by (rewrite Hf; now left).
      apply filter_In in Hr. destruct Hr as [Hr He].
      apply String.eqb_eq in He. now exists r.
    + intros _ q c Hrec.
      apply recognized_identity_in_emp_id_map in Hrec.
      apply loaded_emp_id_has_embedding in Hrec.
      destruct Hrec as (emp & Hin & _).
      unfold load_all_embeddings in Hin. apply fold_add_row_In in Hin.
      destruct Hin as [[]|(r' & Hr' & He' & _)].
      apply filter_In in Hr'. destruct Hr' as [Hr' Hact].
      rewrite Htbl in Hr'. apply update_where_emp_id_In in Hr'.
      destruct Hr' as (r & Hr & ->).
      destruct (String.eqb (emp_id r) e) eqn:Ee.
      * cbn in Hact. discriminate.
      * apply String.eqb_neq in Ee. congruence.
Qed.
End ReloadFacts.

Section EmployeeStoreExamples.
Import FaceRecognitionServiceFAISS EmployeeStore Examples MoreExamples.
Local Open Scope nat_scope.

Ltac literal_ids :=
  unfold unique_ids; cbn;
  repeat first
    [ apply NoDup_nil
    | apply NoDup_cons
    | (cbn; intuition discriminate) ].

Lemma staff_unique_ids : unique_ids staff.
Proof. literal_ids. Qed.

Lemma load_all_embeddings_entries_witness :
  exists r,
    In r staff /\ emp_id r = "E002" /\ is_active r = true /\
    "Ravi" = EmployeeStore.name r /\
    [[0; 1]%Q] = non_null (embedding_columns r) /\
    1 <= 1 <= 8.
Proof.
  apply (load_all_embeddings_entries staff "E002"
           {| FaceRecognitionServiceFAISS.name := "Ravi";
              embeddings := [[0; 1]%Q] |}).
  cbn. right. now left.
Defined.

Lemma load_all_embeddings_complete_witness :
  In ("E001",
      {| FaceRecognitionServiceFAISS.name := "Asha";
         embeddings := [[1; 0]; [4 # 5; 3 # 5]]%Q |})
     (load_all_embeddings staff).
Proof.
  apply (load_all_embeddings_complete staff
           (staff_row "E001" "Asha" true (pose [1; 0]%Q)
              (pose [4 # 5; 3 # 5]%Q))).
  - exact staff_unique_ids.
  - now left.
  - reflexivity.
  - discriminate.
Defined.

Lemma recognized_after_reload_is_active_witness :
  exists r,
    In r staff /\ emp_id r = "E001" /\ is_active r = true /\
    non_null (embedding_columns r) <> [].
Proof.
  apply (recognized_after_reload_is_active unit_normalize init staff
           near_E001 "E001"
           (snd (recognize_face unit_normalize
                   (load_face_map unit_normalize init
                      (load_all_embeddings staff)) near_E001))).
  reflexivity.
Defined.

Lemma saved_embedding_is_loaded_witness :
  snd (save_face_embedding staff "E003" embedding_512 "looking_up" (7 # 10)%Q)
    = done "Face saved" /\
  exists emp,
    In ("E003", emp)
       (load_all_embeddings
          (fst (save_face_embedding staff "E003" embedding_512 "looking_up"
                  (7 # 10)%Q))) /\
    In embedding_512 (embeddings emp).
Proof.
  apply (saved_embedding_is_loaded staff
           (staff_row "E003" "Mina" true empty_slot empty_slot)
           embedding_512 "looking_up" A_looking_up (7 # 10)%Q).
  - exact staff_unique_ids.
  - cbn. tauto.
  - reflexivity.
  - reflexivity.
  - reflexivity.
Defined.

Lemma reactivation_keeps_embeddings_witness :
  snd (create_employee (fst (delete_employee staff "E002")) "E002"
         "Ravi K" "Sales" "Lead") = done "Employee reactivated" /\
  length (fst (create_employee (fst (delete_employee staff "E002")) "E002"
                 "Ravi K" "Sales" "Lead")) = length staff /\
  In (set_details "Ravi K" "Sales" "Lead" true
        (staff_row "E002" "Ravi" true (pose [0; 1]%Q) empty_slot))
     (fst (create_employee (fst (delete_employee staff "E002")) "E002"
             "Ravi K" "Sales" "Lead")) /\
  In ("E002",
      {| FaceRecognitionServiceFAISS.name := "Ravi K";
         embeddings := [[0; 1]%Q] |})
     (load_all_embeddings
        (fst (create_employee (fst (delete_employee staff "E002")) "E002"
                "Ravi K" "Sales" "Lead"))).
Proof.
  apply (reactivation_keeps_embeddings staff
           (staff_row "E002" "Ravi" true (pose [0; 1]%Q) empty_slot)
           "Ravi K" "Sales" "Lead").
  - exact staff_unique_ids.
  - cbn. tauto.
  - reflexivity.
  - discriminate.
Defined.

Lemma table_operations_keep_ids_unique_witness :
  unique_ids (fst (create_employee staff "E005" "Lena" "Ops" "Analyst")) /\
  unique_ids (fst (delete_employee staff "E001")).
Proof.
  destruct (table_operations_keep_ids_unique staff staff_unique_ids)
    as (Hcreate & _ & Hdelete & _).
  split; [apply Hcreate|apply Hdelete].
Defined.
End EmployeeStoreExamples.

(** ** The monitoring session *)

Section MonitoringFacts.
Import WebSocketManager MonitoringHub.
Local Open Scope nat_scope.

Lemma drop_disconnected_cache (disconnected : list websocket) :
  forall self,
    last_frame_entry (drop_disconnected self disconnected)
      = last_frame_entry self /\
    last_frame_exit (drop_disconnected self disconnected)
      = last_frame_exit self.
Proof.
  induction disconnected as [|ws rest IH]; intros self; cbn [drop_disconnected];
    [split; reflexivity|].
  destruct (existsb (ws_eqb ws) (active_connections self)); [|apply IH].
  destruct (IH {| active_connections :=
                    remove_first ws (active_connections self);
                  connection_users := pop_user ws (connection_users self);
                  last_frame_entry := last_frame_entry self;
                  last_frame_exit := last_frame_exit self |}) as [H1 H2].
  split; assumption.
Qed.

(** The cache after a broadcast to a registry that is not empty. *)
Lemma broadcast_cache (self : manager) (m : message) :
  active_connections self <> [] ->
  let cached := if String.eqb (msg_type m) "frame" then cache_frame self m
                else self in
  last_frame_entry (fst (broadcast self m)) = last_frame_entry cached /\
  last_frame_exit (fst (broadcast self m)) = last_frame_exit cached.
Proof.
  intros Hne cached. unfold broadcast.
  destruct (active_connections self) as [|c conns]; [congruence|].
  fold cached.
  destruct (collect_tasks (active_connections cached))
    as [tasks disconnected].
  cbn [fst]. apply drop_disconnected_cache.
Qed.

(** X20.  [broadcast] touches the frame cache only for a message of type
    "frame" with camera "entry" or "exit" and only while a viewer is
    registered: then the image of the message becomes the cached frame of
    that camera and the other camera's frame stays; with no viewer
    registered the manager is left as it is, and no other message changes
    the cache. *)
Theorem broadcast_caches_frames_only (self : manager) (m : message) :
  (active_connections self = [] -> broadcast self m = (self, [])) /\
  (active_connections self <> [] ->
   msg_type m = "frame" ->
   (camera m = Some "entry" ->
    last_frame_entry (fst (broadcast self m)) = image m /\
    last_frame_exit (fst (broadcast self m)) = last_frame_exit self) /\
   (camera m = Some "exit" ->
    last_frame_exit (fst (broadcast self m)) = image m /\
    last_frame_entry (fst (broadcast self m)) = last_frame_entry self)) /\
  (msg_type m <> "frame" \/
   (camera m <> Some "entry" /\ camera m <> Some "exit") ->
   last_frame_entry (fst (broadcast self m)) = last_frame_entry self /\
   last_frame_exit (fst (broadcast self m)) = last_frame_exit self).
Proof.
  split; [|split].
  - intros Hnil. unfold broadcast. now rewrite Hnil.
  - intros Hne Hty.
    destruct (broadcast_cache self m Hne) as [He Hx].
    rewrite Hty in He, Hx.
    change (String.eqb "frame" "frame") with true in He, Hx.
    cbv iota in He, Hx.
    split; intros Hcam; rewrite He, Hx; unfold cache_frame; rewrite Hcam;
      split; reflexivity.
  - intros Hother.
    destruct (active_connections self) as [|c conns] eqn:Hconns.
    { unfold broadcast. rewrite Hconns. split; reflexivity. }
    assert (Hne : active_connections self <> []) by congruence.
    destruct (broadcast_cache self m Hne) as [He Hx]. rewrite He, Hx.
    destruct (String.eqb (msg_type m) "frame") eqn:Ety;
      [|split; reflexivity].
    apply String.eqb_eq in Ety.
    destruct Hother as [Hty|[Hn1 Hn2]]; [contradiction|].
    unfold cache_frame. destruct (camera m) as [c0|]; [|split; reflexivity].
    destruct (String.eqb c0 "entry") eqn:E1.
    { apply String.eqb_eq in E1. subst c0. contradiction. }
    destruct (String.eqb c0 "exit") eqn:E2.
    { apply String.eqb_eq in E2. subst c0. contradiction. }
    split; reflexivity.
Qed.

(** X21.  A frame of the entry camera that was broadcast while a viewer
    was registered is replayed to a viewer who joins later while the
    cameras run: the endpoint sends it the connection status, then the
    cached frames, among them that frame, and only then the notice that
    the cameras are running. *)
Theorem late_joiner_gets_cached_frame
    (h : hub) (img : string) (ws : websocket)
    (user_id user_name user_role : string) :
  active_connections (manager_of h) <> [] ->
  img <> "" ->
  is_monitoring h = true ->
  send_json ws = Delivers ->
  let frame := {| msg_type := "frame"; camera := Some "entry";
                  image := Some img |} in
  let h' := with_manager h (fst (broadcast (manager_of h) frame)) in
  exists h1 frames n,
    on_connect h' ws user_id user_name user_role =
      (h1,
       Sent (ws_id ws)
         (ConnectionStatus n true user_role (String.eqb user_role "admin"))
       :: frames ++
          [Sent (ws_id ws) (AlreadyRunning (started_by h) n)],
       true) /\
    n = S (length (active_connections (manager_of h'))) /\
    In (Sent (ws_id ws) (CachedFrame "entry" img)) frames /\
    Forall (fun e => exists c i, e = Sent (ws_id ws) (CachedFrame c i))
           frames.
Proof.
  intros Hne Himg Hmon Hsend frame h'.
  assert (Hcache : last_frame_entry (fst (broadcast (manager_of h) frame))
                   = Some img)
    by (rewrite (proj1 (broadcast_cache (manager_of h) frame Hne));
        reflexivity).
  unfold on_connect, connect, send_to. rewrite Hsend.
  cbn [with_manager is_monitoring manager_of started_by h'].
  rewrite Hmon.
  eexists. eexists. eexists. split; [reflexivity|]. split.
  - cbn [active_connections]. rewrite length_app. cbn [length]. lia.
  - unfold send_cached_frames, send_cached.
    cbn [manager_of with_manager last_frame_entry last_frame_exit].
    rewrite Hcache, Hsend.
    assert (Ht : truthy (Some img) = Some img)
      by (destruct img; [congruence|reflexivity]).
    rewrite Ht. clear Ht. split; [now left|].
    constructor; [now exists "entry", img|].
    destruct (truthy (last_frame_exit
                        (fst (broadcast (manager_of h) frame)))) as [x|];
      [|constructor].
    constructor; [now exists "exit", x|constructor].
Qed.

(** *** Registering and leaving *)

Lemma remove_first_appended (ws : websocket) (l : list websocket) :
  existsb (fun c => ws_eqb c ws) l = false ->
  remove_first ws (l ++ [ws]) = l.
Proof.
  induction l as [|c l IH]; cbn [existsb app remove_first]; intros H.
  - unfold ws_eqb. now rewrite Nat.eqb_refl.
  - apply orb_false_iff in H. destruct H as [Hc Hl].
    rewrite Hc. now rewrite IH.
Qed.

Lemma existsb_appended (ws : websocket) (l : list websocket) :
  existsb (fun c => ws_eqb c ws) (l ++ [ws]) = true.
Proof.
  rewrite existsb_app. cbn [existsb]. unfold ws_eqb at 2.
  rewrite Nat.eqb_refl. now rewrite orb_true_r.
Qed.

Lemma pop_set_user (ws : websocket) users v :
  existsb (fun kv => Nat.eqb (fst kv) (ws_id ws)) users = false ->
  pop_user ws (set_user users (ws_id ws) v) = users.
Proof.
  unfold pop_user.
  induction users as [|[k u] users IH]; cbn [existsb set_user filter fst];
    intros H.
  - now rewrite Nat.eqb_refl.
  - apply orb_false_iff in H. destruct H as [Hk Hrest].
    rewrite Hk. cbn [filter fst]. rewrite Hk. cbn [negb].
    now rewrite IH.
Qed.

(** X22.  [disconnect] undoes [connect] for a viewer that was not
    registered before, does nothing for a viewer that is not registered,
    and in no case changes the monitoring flag or the name of the
    starter, also when the viewer who started the cameras leaves. *)
Theorem connect_then_disconnect
    (h : hub) (ws : websocket) (user_id user_name user_role : string) :
  is_monitoring (disconnect h ws) = is_monitoring h /\
  started_by (disconnect h ws) = started_by h /\
  (existsb (fun c => ws_eqb c ws) (active_connections (manager_of h))
     = false ->
   disconnect h ws = h /\
   (existsb (fun kv => Nat.eqb (fst kv) (ws_id ws))
            (connection_users (manager_of h)) = false ->
    disconnect (fst (connect h ws user_id user_name user_role)) ws = h)).
Proof.
  split; [|split].
  - unfold disconnect. now destruct (existsb _ _).
  - unfold disconnect. now destruct (existsb _ _).
  - intros Hfresh. split.
    + unfold disconnect. now rewrite Hfresh.
    + intros Huser. unfold disconnect, connect.
      cbn [fst manager_of with_manager active_connections connection_users
           last_frame_entry last_frame_exit is_monitoring started_by].
      rewrite existsb_appended, (remove_first_appended _ _ Hfresh),
        (pop_set_user _ _ _ Huser).
      destruct h as [[conns users fe fx] mon by_]. reflexivity.
Qed.

(** *** Start and stop *)

Lemma broadcast_status_flags (h : hub) (camera_status : string) :
  is_monitoring (fst (broadcast_status h camera_status)) = is_monitoring h /\
  started_by (fst (broadcast_status h camera_status)) = started_by h /\
  filter is_spawn (snd (broadcast_status h camera_status)) = [].
Proof.
  unfold broadcast_status.
  destruct (broadcast (manager_of h) status_message) as [m' delivered].
  repeat split.
Qed.

Lemma send_cached_frames_no_spawn (h : hub) (ws : websocket) :
  filter is_spawn (send_cached_frames h ws) = [].
Proof.
  unfold send_cached_frames, send_cached.
  rewrite filter_app.
  destruct (truthy (last_frame_entry (manager_of h)));
    destruct (truthy (last_frame_exit (manager_of h)));
    destruct (send_json ws); reflexivity.
Qed.

Lemma reply_flags (h : hub) (ws : websocket) (m : outbound)
    (then_do : list effect) :
  filter is_spawn then_do = [] ->
  is_monitoring (fst (fst (reply h ws m then_do))) = is_monitoring h /\
  started_by (fst (fst (reply h ws m then_do))) = started_by h /\
  filter is_spawn (snd (fst (reply h ws m then_do))) = [].
Proof.
  intros Hno. unfold reply, send_to, disconnect.
  destruct (send_json ws); cbn [fst snd filter is_spawn];
    try (destruct (existsb _ _)); repeat split; assumption.
Qed.

(** What one request does to the flag, the starter and the camera
    tasks. *)
Lemma handle_action_flags (h : hub) (ws : websocket)
    (user_name user_role action : string) (stats : nat * nat * nat) :
  let res := handle_action h ws user_name user_role action stats in
  let h' := fst (fst res) in
  let spawned := filter is_spawn (snd (fst res)) in
  (action = "start" /\ is_monitoring h = false /\
   is_monitoring h' = true /\ started_by h' = Some user_name /\
   spawned = [SpawnCamera "entry"; SpawnCamera "exit"]) \/
  (action = "stop" /\ is_monitoring h' = false /\
   started_by h' = started_by h /\ spawned = [] /\
   (user_role = "admin" \/ started_by h = Some user_name)) \/
  (is_monitoring h' = is_monitoring h /\ started_by h' = started_by h /\
   spawned = [] /\
   (action = "start" -> is_monitoring h = true) /\
   (action = "stop" ->
    user_role <> "admin" /\ started_by h <> Some user_name)).
Proof.
  intros res h' spawned. subst res h' spawned. unfold handle_action.
  destruct (String.eqb action "start") eqn:Estart.
  { apply String.eqb_eq in Estart. subst action.
    destruct (is_monitoring h) eqn:Hmon; cbn [negb].
    - right; right.
      destruct (reply_flags h ws
                  (AlreadyRunning (started_by h)
                     (length (active_connections (manager_of h))))
                  (send_cached_frames h ws)
                  (send_cached_frames_no_spawn h ws)) as (H1 & H2 & H3).
      rewrite H1, H2, H3, Hmon. repeat split; trivial; discriminate.
    - left.
      pose proof (broadcast_status_flags
                    {| manager_of := manager_of h; is_monitoring := true;
                       started_by := Some user_name |} "started")
        as (H1 & H2 & H3).
      destruct (broadcast_status _ _) as [h2 sent].
      cbn [fst snd] in *. cbn [filter is_spawn]. rewrite H3.
      repeat split; assumption. }
  destruct (String.eqb action "stop") eqn:Estop.
  { apply String.eqb_eq in Estop. subst action.
    destruct (String.eqb user_role "admin"
              || match started_by h with
                 | Some starter => String.eqb user_name starter
                 | None => false
                 end) eqn:Eauth.
    - right; left.
      pose proof (broadcast_status_flags
                    {| manager_of := manager_of h; is_monitoring := false;
                       started_by := started_by h |} "stopped")
        as (H1 & H2 & H3).
      destruct (broadcast_status _ _) as [h2 sent].
      cbn [fst snd] in *. repeat split; trivial.
      apply orb_true_iff in Eauth. destruct Eauth as [E|E].
      + left. now apply String.eqb_eq.
      + right. destruct (started_by h) as [starter|]; [|discriminate].
        apply String.eqb_eq in E. now subst.
    - right; right.
      destruct (reply_flags h ws (StopRefused (started_by h)) [] eq_refl)
        as (H1 & H2 & H3).
      rewrite H1, H2, H3. repeat split; trivial; try discriminate.
      + intros Hadmin. apply orb_false_iff in Eauth.
        destruct Eauth as [E _]. subst user_role.
        cbn in E. discriminate.
      + intros Hstarter. apply orb_false_iff in Eauth.
        destruct Eauth as [_ E]. rewrite Hstarter, String.eqb_refl in E.
        discriminate. }
  right; right.
  assert (Hns : action <> "start") by now apply String.eqb_neq.
  assert (Hnp : action <> "stop") by now apply String.eqb_neq.
  destruct (String.eqb action "get_cached_frames").
  { cbn [fst snd]. rewrite send_cached_frames_no_spawn.
    repeat split; trivial; intros; contradiction. }
  destruct (String.eqb action "stats").
  { destruct (reply_flags h ws
                (StatsReply stats (length (active_connections (manager_of h)))
                   (if is_monitoring h then started_by h else None))
                [] eq_refl) as (H1 & H2 & H3).
    rewrite H1, H2, H3. repeat split; trivial; intros; contradiction. }
  cbn [fst snd filter]. repeat split; trivial; intros; contradiction.
Qed.

(** X23.  [stop] is honoured exactly for a viewer with role "admin" or
    with the name of the viewer who started the cameras: then the
    monitoring flag goes off (whether or not it was on) and the starter's
    name is kept; any other [stop] changes neither the flag nor the
    starter, reaches no other viewer and starts nothing. *)
Theorem stop_needs_admin_or_starter
    (h : hub) (ws : websocket) (user_name user_role : string)
    (stats : nat * nat * nat) :
  let res := handle_action h ws user_name user_role "stop" stats in
  let h' := fst (fst res) in
  started_by h' = started_by h /\
  filter is_spawn (snd (fst res)) = [] /\
  ((user_role = "admin" \/ started_by h = Some user_name) ->
   is_monitoring h' = false) /\
  (user_role <> "admin" -> started_by h <> Some user_name ->
   is_monitoring h' = is_monitoring h /\
   Forall (fun e => e = Sent (ws_id ws) (StopRefused (started_by h)))
          (snd (fst res))).
Proof.
  intros res h'.
  pose proof (handle_action_flags h ws user_name user_role "stop" stats)
    as Hflags.
  cbv zeta in Hflags. fold res in Hflags. fold h' in Hflags.
  destruct Hflags as [(Hs & _)|[(_ & Hoff & Hby & Hsp & Hauth)
                               |(Hmon & Hby & Hsp & _ & Hnot)]];
    [discriminate| |].
  - split; [exact Hby|]. split; [exact Hsp|]. split; [intros _; exact Hoff|].
    intros Hna Hns. destruct Hauth; contradiction.
  - destruct (Hnot eq_refl) as [Hna Hns].
    split; [exact Hby|]. split; [exact Hsp|]. split.
    + intros [Ha|Hs]; contradiction.
    + intros _ _. split; [exact Hmon|].
      subst res. unfold handle_action. cbn [String.eqb Ascii.eqb Bool.eqb].
      assert (E : String.eqb user_role "admin"
                  || match started_by h with
                     | Some starter => String.eqb user_name starter
                     | None => false
                     end = false).
      { apply orb_false_iff. split; [now apply String.eqb_neq|].
        destruct (started_by h) as [starter|]; [|reflexivity].
        apply String.eqb_neq. congruence. }
      rewrite E. unfold reply, send_to.
      destruct (send_json ws); cbn [fst snd]; repeat constructor.
Qed.

Lemma handle_all_cons (h : hub) (rq : request) (rest : list request)
    (stats : nat * nat * nat) :
  handle_all h (rq :: rest) stats =
  (fst (handle_all
          (fst (fst (handle_action h (rq_ws rq) (rq_user_name rq)
                       (rq_user_role rq) (rq_action rq) stats)))
          rest stats),
   snd (fst (handle_action h (rq_ws rq) (rq_user_name rq)
               (rq_user_role rq) (rq_action rq) stats))
   ++ snd (handle_all
             (fst (fst (handle_action h (rq_ws rq) (rq_user_name rq)
                          (rq_user_role rq) (rq_action rq) stats)))
             rest stats)).
Proof.
  cbn [handle_all].
  destruct (handle_action h (rq_ws rq) (rq_user_name rq) (rq_user_role rq)
              (rq_action rq) stats) as [[h1 effs] go].
  cbn [fst snd]. now destruct (handle_all h1 rest stats).
Qed.

(** While the cameras run, requests other than [stop] start nothing. *)
Lemma running_session_spawns_nothing (rqs : list request)
    (stats : nat * nat * nat) :
  forall h,
    is_monitoring h = true ->
    Forall (fun rq => rq_action rq <> "stop") rqs ->
    is_monitoring (fst (handle_all h rqs stats)) = true /\
    started_by (fst (handle_all h rqs stats)) = started_by h /\
    filter is_spawn (snd (handle_all h rqs stats)) = [].
Proof.
  induction rqs as [|rq rest IH]; intros h Hmon Hall.
  - cbn. repeat split; assumption.
  - inversion Hall as [|? ? Hrq Hrest]; subst.
    rewrite handle_all_cons. cbn [fst snd]. rewrite filter_app.
    pose proof (handle_action_flags h (rq_ws rq) (rq_user_name rq)
                  (rq_user_role rq) (rq_action rq) stats) as Hflags.
    cbv zeta in Hflags.
    destruct Hflags as [(_ & Hoff & _)|[(Hstop & _)
                                       |(Hm & Hby & Hsp & _)]];
      [congruence|contradiction|].
    rewrite Hmon in Hm.
    destruct (IH _ Hm Hrest) as (H1 & H2 & H3).
    rewrite H1, H2, H3, Hsp, Hby. repeat split.
Qed.

(** X24.  Whatever the viewers send, as long as none of them sends
    [stop]: the camera tasks are started at most once, by the first
    [start] that finds the cameras off, as the pair entry, exit; that
    viewer stays the recorded starter, and every later [start] starts
    nothing. *)
Theorem cameras_are_started_once
    (h : hub) (rqs : list request) (stats : nat * nat * nat) :
  Forall (fun rq => rq_action rq <> "stop") rqs ->
  let res := handle_all h rqs stats in
  let spawned := filter is_spawn (snd res) in
  (is_monitoring h = true ->
   spawned = [] /\ is_monitoring (fst res) = true /\
   started_by (fst res) = started_by h) /\
  (is_monitoring h = false ->
   (spawned = [] /\ is_monitoring (fst res) = false /\
    Forall (fun rq => rq_action rq <> "start") rqs) \/
   (spawned = [SpawnCamera "entry"; SpawnCamera "exit"] /\
    is_monitoring (fst res) = true /\
    exists rq, In rq rqs /\ rq_action rq = "start" /\
               started_by (fst res) = Some (rq_user_name rq))).
Proof.
  intros Hall res spawned. subst res spawned. split.
  - intros Hmon.
    destruct (running_session_spawns_nothing rqs stats h Hmon Hall)
      as (H1 & H2 & H3).
    now repeat split.
  - revert h. induction rqs as [|rq rest IH]; intros h Hmon.
    + left. cbn. repeat split; trivial.
    + inversion Hall as [|? ? Hrq Hrest]; subst.
      rewrite handle_all_cons. cbn [fst snd]. rewrite filter_app.
      pose proof (handle_action_flags h (rq_ws rq) (rq_user_name rq)
                    (rq_user_role rq) (rq_action rq) stats) as Hflags.
      cbv zeta in Hflags.
      destruct Hflags as [(Hstart & _ & Hon & Hby & Hsp)
                         |[(Hstop & _)|(Hm & Hby & Hsp & Hst & _)]];
        [|contradiction|].
      * right.
        destruct (running_session_spawns_nothing rest stats _ Hon Hrest)
          as (H1 & H2 & H3).
        rewrite Hsp, H3, H1, H2, Hby. repeat split.
        exists rq. repeat split; [now left|exact Hstart].
      * rewrite Hmon in Hm.
        destruct (IH Hrest _ Hm) as [(H1 & H2 & H3)|(H1 & H2 & rq' & H3)].
        -- left. rewrite Hsp, H1. repeat split; trivial.
           constructor; [|exact H3]. intros Hs.
           specialize (Hst Hs). congruence.
        -- right. rewrite Hsp, H1. repeat split; trivial.
           exists rq'. destruct H3 as (Hin & Ha & Hb).
           repeat split; trivial. now right.
Qed.
End MonitoringFacts.


Section MonitoringExamples.
Import WebSocketManager MonitoringHub Examples MoreExamples.
Local Open Scope nat_scope.

Lemma late_joiner_gets_cached_frame_witness :
  exists h1 frames n,
    on_connect
      (with_manager running_hub
         (fst (broadcast (manager_of running_hub)
                 {| msg_type := "frame"; camera := Some "entry";
                    image := Some "/9j/4AAQ" |})))
      (viewer 4) "u4" "Lena" "user" =
      (h1,
       Sent 4 (ConnectionStatus n true "user" false)
       :: frames ++ [Sent 4 (AlreadyRunning (Some "Asha") n)],
       true) /\
    n = S (length (active_connections
                     (manager_of
                        (with_manager running_hub
                           (fst (broadcast (manager_of running_hub)
                                   {| msg_type := "frame";
                                      camera := Some "entry";
                                      image := Some "/9j/4AAQ" |})))))) /\
    In (Sent 4 (CachedFrame "entry" "/9j/4AAQ")) frames /\
    Forall (fun e => exists c i, e = Sent 4 (CachedFrame c i)) frames.
Proof.
  apply (late_joiner_gets_cached_frame running_hub "/9j/4AAQ" (viewer 4)
           "u4" "Lena" "user").
  - discriminate.
  - discriminate.
  - reflexivity.
  - reflexivity.
Defined.

Lemma cameras_are_started_once_witness :
  filter is_spawn
    (snd (handle_all idle_hub
            [asks 3 "Mina" "user" "start"; asks 1 "Asha" "admin" "start";
             asks 1 "Asha" "admin" "stats"] (0, 0, 0)))
    = [SpawnCamera "entry"; SpawnCamera "exit"] /\
  started_by
    (fst (handle_all idle_hub
            [asks 3 "Mina" "user" "start"; asks 1 "Asha" "admin" "start";
             asks 1 "Asha" "admin" "stats"] (0, 0, 0)))
    = Some "Mina".
Proof.
  destruct (proj2 (cameras_are_started_once idle_hub
                     [asks 3 "Mina" "user" "start";
                      asks 1 "Asha" "admin" "start";
                      asks 1 "Asha" "admin" "stats"] (0, 0, 0)
                     ltac:(repeat constructor; discriminate))
              eq_refl) as [(H & _)|(H & _ & _)].
  - discriminate H.
  - split; [exact H|reflexivity].
Defined.
End MonitoringExamples.

(** ** The camera worker on a processed frame *)

Section CameraWorkerFacts.
Import FaceRecognitionServiceFAISS CameraWorker.
Local Open Scope nat_scope.
Variable normalize_L2 : embedding -> embedding.

(** The actions of a successful ledger call, whatever the event type. *)
Lemma successful_call_action db e ty cam conf ts :
  PooledDatabaseService.success
    (snd (PooledDatabaseService.log_attendance_update_only db e ty cam conf
            ts)) = true ->
  In (PooledDatabaseService.action
        (snd (PooledDatabaseService.log_attendance_update_only db e ty cam
                conf ts)))
     [Some "inserted"; Some "updated"; Some "skipped"].
Proof.
  unfold PooledDatabaseService.log_attendance_update_only,
    PooledDatabaseService.commit.
  destruct (String.eqb ty "IN").
  { destruct (PooledDatabaseService.select_by_emp_date _ _ _);
      [cbn; tauto|].
    destruct (PooledDatabaseService.insert_first_in _ _ _ _ _ _)
      as [db'|[db' err]]; cbn; [tauto|discriminate]. }
  destruct (String.eqb ty "OUT"); [|cbn; discriminate].
  destruct (PooledDatabaseService.select_by_emp_date _ _ _) as [existing|].
  - destruct (PooledDatabaseService.first_in existing);
      destruct (PooledDatabaseService.update_where_id _ _ _ _)
        as [db'|[db' err]];
      cbn; solve [tauto | discriminate].
  - destruct (PooledDatabaseService.insert_first_in _ _ _ _ _ _)
      as [db'|[db' err]]; cbn; [tauto|discriminate].
Qed.

(** An identity comes back only with a confidence that reaches the
    threshold of the service. *)
Lemma returned_confidence_reaches_threshold svc q e c :
  recognize_face normalize_L2 svc q = (Some e, c) ->
  (recognition_threshold svc <= c)%Q.
Proof.
  intros Hrec.
  destruct (recognize_face_cases normalize_L2 svc q)
    as [H0|(index & es & Hidx & Hmap & Hes)]; [congruence|].
  rewrite (recognize_face_unfold normalize_L2 _ _ _ _ Hidx Hmap Hes) in Hrec.
  destruct (Qle_bool _ _) eqn:E; [|discriminate].
  apply Qle_bool_iff in E. inversion Hrec; subst. exact E.
Qed.

Lemma process_face_spec svc cam ts w f :
  let res := process_face normalize_L2 svc cam ts w f in
  total_faces (w_stats (fst res)) = total_faces (w_stats w) /\
  ((det_score f < 35 # 100)%Q -> res = (w, [])) /\
  ((35 # 100 <= det_score f)%Q ->
   recognized (w_stats (fst res)) + unknown (w_stats (fst res))
   = S (recognized (w_stats w) + unknown (w_stats w))) /\
  recognized (w_stats w) + length (snd res)
    <= recognized (w_stats (fst res)) /\
  unknown (w_stats w) <= unknown (w_stats (fst res)) /\
  Forall (well_formed_notification svc cam) (snd res).
Proof.
  intros res. subst res. unfold process_face.
  destruct (Qlt_bool (det_score f) (35 # 100)) eqn:Edet.
  { apply Qlt_bool_iff in Edet. cbn [fst snd length].
    repeat split; trivial; try lia; try constructor.
    intros Hge. exfalso. revert Edet. now apply Qle_not_lt. }
  apply Qlt_bool_false_iff in Edet.
  assert (Hlow : (det_score f < 35 # 100)%Q -> False)
    by (intros Hlt; revert Hlt; now apply Qle_not_lt).
  destruct (recognize_face normalize_L2 svc (face_embedding f))
    as [emp confidence] eqn:Hrec.
  destruct emp as [[|c rest]|];
    try (cbn [fst snd length w_stats total_faces recognized unknown];
         repeat split; trivial; try lia; try constructor;
         intros Hlt; now destruct (Hlow Hlt)).
  destruct (Qle_bool (40 # 100) confidence) eqn:Econf;
    [|cbn [fst snd length w_stats total_faces recognized unknown];
      repeat split; trivial; try lia; try constructor;
      intros Hlt; now destruct (Hlow Hlt)].
  apply Qle_bool_iff in Econf.
  pose proof (successful_call_action (w_db w) (String c rest) (purpose cam)
                (camera_id cam) confidence ts) as Hact.
  destruct (PooledDatabaseService.log_attendance_update_only (w_db w)
              (String c rest) (purpose cam) (camera_id cam) confidence ts)
    as [db' result].
  cbn [snd] in Hact.
  destruct (PooledDatabaseService.success result
            && negb match PooledDatabaseService.action result with
                    | Some a => String.eqb a "skipped"
                    | None => false
                    end) eqn:Esend;
    [|cbn [fst snd length w_stats total_faces recognized unknown];
      repeat split; trivial; try lia; try constructor;
      intros Hlt; now destruct (Hlow Hlt)].
  apply andb_true_iff in Esend. destruct Esend as [Hok Hnot].
  destruct (WebSocketManager.broadcast (w_manager w) attendance_message)
    as [m' delivered].
  cbn [fst snd length w_stats total_faces recognized unknown].
  repeat split; trivial; try lia;
    try (intros Hlt; now destruct (Hlow Hlt)).
  constructor; [|constructor].
  unfold well_formed_notification.
  cbn [n_action n_event_type n_confidence n_emp_id].
  split; [|split; [reflexivity|split; [exact Econf|split]]].
  - destruct (Hact Hok) as [H|[H|[H|[]]]]; rewrite <- H in *; auto.
    cbn in Hnot. discriminate.
  - apply (returned_confidence_reaches_threshold _ _ _ _ Hrec).
  - apply (recognized_identity_in_emp_id_map normalize_L2 _ _ _ _ Hrec).
Qed.

Lemma process_faces_cons svc cam ts w f rest :
  process_faces normalize_L2 svc cam ts w (f :: rest) =
  (fst (process_faces normalize_L2 svc cam ts
          (fst (process_face normalize_L2 svc cam ts w f)) rest),
   snd (process_face normalize_L2 svc cam ts w f) ++
   snd (process_faces normalize_L2 svc cam ts
          (fst (process_face normalize_L2 svc cam ts w f)) rest)).
Proof.
  cbn [process_faces].
  destruct (process_face normalize_L2 svc cam ts w f) as [w1 sent].
  cbn [fst snd].
  now destruct (process_faces normalize_L2 svc cam ts w1 rest).
Qed.

Lemma process_faces_spec svc cam ts (faces : list face) :
  forall w,
    let res := process_faces normalize_L2 svc cam ts w faces in
    total_faces (w_stats (fst res)) = total_faces (w_stats w) /\
    recognized (w_stats (fst res)) + unknown (w_stats (fst res))
    = recognized (w_stats w) + unknown (w_stats w)
      + length (filter scored faces) /\
    recognized (w_stats w) + length (snd res)
      <= recognized (w_stats (fst res)) /\
    unknown (w_stats w) <= unknown (w_stats (fst res)) /\
    Forall (well_formed_notification svc cam) (snd res) /\
    (Forall (fun f => (det_score f < 35 # 100)%Q) faces -> res = (w, [])).
Proof.
  induction faces as [|f rest IH]; intros w res; subst res.
  - cbn. repeat split; trivial; try lia; try constructor.
  - rewrite process_faces_cons. cbn [fst snd].
    destruct (process_face_spec svc cam ts w f)
      as (Ht & Hlow & Hhigh & Hrec & Hunk & Hwf).
    cbv zeta in Ht, Hlow, Hhigh, Hrec, Hunk, Hwf.
    destruct (IH (fst (process_face normalize_L2 svc cam ts w f)))
      as (It & Isum & Irec & Iunk & Iwf & Ilow).
    cbv zeta in It, Isum, Irec, Iunk, Iwf, Ilow.
    split; [congruence|]. split; [|split; [|split; [|split]]].
    + rewrite Isum. cbn [filter]. unfold scored at 2.
      destruct (Qlt_bool (det_score f) (35 # 100)) eqn:E; cbn [negb].
      * apply Qlt_bool_iff in E. rewrite (Hlow E). cbn [fst]. lia.
      * apply Qlt_bool_false_iff in E. rewrite (Hhigh E).
        cbn [length]. lia.
    + rewrite length_app. lia.
    + lia.
    + apply Forall_app. now split.
    + intros Hall. inversion Hall as [|? ? Hf Hrest]; subst.
      rewrite (Hlow Hf) in *. cbn [fst snd] in *.
      now rewrite (Ilow Hrest).
Qed.

(** X25.  A processed frame adds the number of detected faces to
    [total_faces] and one to either [recognized] or [unknown] for each of
    the first ten faces whose detection score is at least 0.35, and to
    nothing else; so the two counters never exceed [total_faces] once
    they did not. *)
Theorem frame_statistics
    (svc : service) (cam : camera)
    (timestamp : PooledDatabaseService.datetime) (w : world)
    (faces : list face) :
  let res := process_detections normalize_L2 svc cam timestamp w faces in
  let st := w_stats w in
  let st' := w_stats (fst res) in
  total_faces st' = total_faces st + length faces /\
  recognized st' + unknown st'
  = recognized st + unknown st + length (filter scored (firstn 10 faces)) /\
  recognized st <= recognized st' /\
  unknown st <= unknown st' /\
  recognized st' + unknown st' <= recognized st + unknown st + 10 /\
  (recognized st + unknown st <= total_faces st ->
   recognized st' + unknown st' <= total_faces st').
Proof.
  intros res st st'. subst res st st'. unfold process_detections.
  match goal with
  | |- context [process_faces _ _ _ _ ?w0 _] =>
      destruct (process_faces_spec svc cam timestamp (firstn 10 faces) w0)
        as (Ht & Hsum & Hrec & Hunk & _)
  end.
  cbv zeta in Ht, Hsum, Hrec, Hunk.
  cbn [w_stats total_faces recognized unknown] in Ht, Hsum, Hrec, Hunk.
  assert (Hcount : length (filter scored (firstn 10 faces))
                   <= length (firstn 10 faces)) by apply filter_length_le.
  pose proof (length_firstn 10 faces) as Hfirst.
  repeat split; try lia.
Qed.

(** X26.  Every attendance message that a processed frame sends carries
    the action "inserted" or "updated" (a skipped or failed ledger call
    sends none), the purpose of the camera as event type, a confidence of
    at least 0.40 and at least the threshold of the service, and an
    identity of [emp_id_map]; there are no more messages than faces
    counted as recognized. *)
Theorem attendance_messages_of_a_frame
    (svc : service) (cam : camera)
    (timestamp : PooledDatabaseService.datetime) (w : world)
    (faces : list face) :
  let res := process_detections normalize_L2 svc cam timestamp w faces in
  Forall (well_formed_notification svc cam) (snd res) /\
  recognized (w_stats w) + length (snd res)
    <= recognized (w_stats (fst res)).
Proof.
  intros res. subst res. unfold process_detections.
  match goal with
  | |- context [process_faces _ _ _ _ ?w0 _] =>
      destruct (process_faces_spec svc cam timestamp (firstn 10 faces) w0)
        as (_ & _ & Hrec & _ & Hwf & _)
  end.
  cbv zeta in Hrec, Hwf. cbn [w_stats recognized] in Hrec.
  split; assumption.
Qed.

(** X27.  When none of the first ten faces of a frame has a detection
    score of at least 0.35, the frame only adds its number of faces to
    [total_faces]: the ledger and the registry are untouched and no
    attendance message is sent, however many faces follow the tenth. *)
Theorem low_score_faces_are_ignored
    (svc : service) (cam : camera)
    (timestamp : PooledDatabaseService.datetime) (w : world)
    (faces : list face) :
  Forall (fun f => (det_score f < 35 # 100)%Q) (firstn 10 faces) ->
  process_detections normalize_L2 svc cam timestamp w faces =
  ({| w_stats := {| total_faces := total_faces (w_stats w) + length faces;
                    recognized := recognized (w_stats w);
                    unknown := unknown (w_stats w) |};
      w_db := w_db w;
      w_manager := w_manager w |}, []).
Proof.
  intros Hlow. unfold process_detections.
  match goal with
  | |- context [process_faces _ _ _ _ ?w0 _] =>
      destruct (process_faces_spec svc cam timestamp (firstn 10 faces) w0)
        as (_ & _ & _ & _ & _ & Hall)
  end.
  exact (Hall Hlow).
Qed.
End CameraWorkerFacts.


Section CameraWorkerExamples.
Import FaceRecognitionServiceFAISS CameraWorker Examples MoreExamples.
Local Open Scope nat_scope.

Lemma low_score_faces_are_ignored_witness :
  process_detections unit_normalize two_employees_service entry_camera
    (ist_time 9 0) quiet_world (repeat faint_face 12) =
  ({| w_stats := {| total_faces := 17; recognized := 2; unknown := 1 |};
      w_db := empty_ledger;
      w_manager := three_viewers |}, []).
Proof.
  apply (low_score_faces_are_ignored unit_normalize two_employees_service
           entry_camera (ist_time 9 0) quiet_world (repeat faint_face 12)).
  repeat constructor.
Defined.

(** A recognized face on an empty ledger: one message, action
    "inserted". *)
Example recognized_face_is_logged :
  let res := process_detections unit_normalize two_employees_service
               entry_camera (ist_time 9 0) quiet_world
               [ {| det_score := 90 # 100; face_embedding := near_E001 |};
                 {| det_score := 90 # 100; face_embedding := near_E001 |} ] in
  map n_action (snd res) = [Some "inserted"] /\
  map n_emp_id (snd res) = ["E001"] /\
  map n_delivered (snd res) = [[1; 3]] /\
  w_stats (fst res)
    = {| total_faces := 7; recognized := 4; unknown := 1 |}.
Proof. repeat split. Qed.
End CameraWorkerExamples.

(** ** The reconnect loop *)

Section ReconnectFacts.
Import CameraWorker.
Local Open Scope nat_scope.


End ReconnectFacts.

(** ** Logging in and sessions *)

Section AuthenticationFacts.
Import AuthenticationService.
Local Open Scope Z_scope.
Variable checkpw : string -> string -> option bool.

Lemma select_after_update (db : store) (uid : Z)
    (f : user_row -> user_row) (name : string) :
  (forall u, username (f u) = username u) ->
  select_user (update_user db uid f) name =
  option_map (fun u => if Z.eqb (id u) uid then f u else u)
             (select_user db name).
Proof.
  intros Hf. unfold select_user, update_user. cbn [users].
  induction (users db) as [|u l IH]; cbn [map find option_map];
    [reflexivity|].
  assert (Hname : username (if Z.eqb (id u) uid then f u else u)
                  = username u)
    by (destruct (Z.eqb (id u) uid); [apply Hf|reflexivity]).
  rewrite Hname. destruct (String.eqb (username u) name); [reflexivity|].
  exact IH.
Qed.

(** The selected row after a refused password. *)
Lemma wrong_password_step (db : store) (now : Z) (name password : string)
    (u : user_row) :
  select_user db name = Some u ->
  is_active u = true ->
  locked_until u = None ->
  password_ok checkpw password (password_hash u) = false ->
  authenticate_user checkpw db now name password
    = (handle_failed_login db now (id u), None) /\
  exists u',
    select_user (handle_failed_login db now (id u)) name = Some u' /\
    failed_attempts u' = failed_attempts u + 1 /\
    locked_until u' = (if Z.leb 4 (failed_attempts u)
                       then Some (now + lock_seconds) else None) /\
    is_active u' = true /\ password_hash u' = password_hash u /\
    id u' = id u.
Proof.
  intros Hsel Hact Hlock Hbad. split.
  - unfold authenticate_user. now rewrite Hsel, Hact, Hlock, Hbad.
  - unfold handle_failed_login.
    rewrite select_after_update by reflexivity.
    rewrite Hsel. cbn [option_map]. rewrite Z.eqb_refl.
    eexists. split; [reflexivity|]. cbn. rewrite Hlock.
    repeat split; trivial.
Qed.

Lemma login_attempts_app (db : store) (name : string)
    (a b : list (Z * string)) :
  login_attempts checkpw db name (a ++ b) =
  (fst (login_attempts checkpw (fst (login_attempts checkpw db name a))
          name b),
   snd (login_attempts checkpw db name a) ++
   snd (login_attempts checkpw (fst (login_attempts checkpw db name a))
          name b)).
Proof.
  revert db. induction a as [|[now p] a IH]; intros db.
  - cbn. now destruct (login_attempts checkpw db name b).
  - cbn [app login_attempts].
    destruct (authenticate_user checkpw db now name p) as [db1 r].
    rewrite IH.
    destruct (login_attempts checkpw db1 name a) as [db2 rs].
    cbn [fst snd].
    now destruct (login_attempts checkpw db2 name b).
Qed.

(** Fewer than five refused passwords in a row leave the account open. *)
Lemma failures_below_the_lock (name : string) (tries : list (Z * string)) :
  forall (db : store) (u : user_row),
    select_user db name = Some u ->
    is_active u = true ->
    locked_until u = None ->
    0 <= failed_attempts u ->
    failed_attempts u + Z.of_nat (length tries) <= 4 ->
    Forall (fun t => password_ok checkpw (snd t) (password_hash u) = false)
           tries ->
    Forall (fun r => r = None) (snd (login_attempts checkpw db name tries)) /\
    exists u',
      select_user (fst (login_attempts checkpw db name tries)) name
        = Some u' /\
      failed_attempts u' = failed_attempts u + Z.of_nat (length tries) /\
      locked_until u' = None /\ is_active u' = true /\
      password_hash u' = password_hash u /\ id u' = id u.
Proof.
  induction tries as [|[now p] rest IH]; intros db u Hsel Hact Hlock H0 Hle
    Hbad.
  - cbn. split; [constructor|]. exists u. repeat split; trivial. lia.
  - inversion Hbad as [|? ? Hp Hrest]; subst. cbn [snd] in Hp.
    cbn [length] in Hle. rewrite Nat2Z.inj_succ in Hle.
    destruct (wrong_password_step db now name p u Hsel Hact Hlock Hp)
      as (Hauth & u1 & Hsel1 & Hf1 & Hl1 & Ha1 & Hh1 & Hi1).
    assert (Hnolock : Z.leb 4 (failed_attempts u) = false)
      by (apply Z.leb_gt; lia).
    rewrite Hnolock in Hl1.
    cbn [login_attempts]. rewrite Hauth.
    destruct (IH (handle_failed_login db now (id u)) u1 Hsel1 Ha1 Hl1)
      as (Hnone & u' & Hsel' & Hf' & Hl' & Ha' & Hh' & Hi');
      [lia|lia|now rewrite Hh1|].
    destruct (login_attempts checkpw (handle_failed_login db now (id u))
                name rest) as [db2 rs].
    cbn [fst snd] in *. split; [now constructor|].
    exists u'. repeat split; trivial; try congruence.
    cbn [length]. rewrite Nat2Z.inj_succ. lia.
Qed.

(** X29.  Four refused passwords in a row on an open account with a clean
    counter leave it open; the fifth locks it for thirty minutes from the
    time of that attempt, and until then every attempt, also with the
    right password, is refused and leaves the store as it is. *)
Theorem five_failures_lock_the_account
    (db : store) (name : string) (u : user_row)
    (early : list (Z * string)) (t5 : Z) (p5 : string) :
  select_user db name = Some u ->
  is_active u = true ->
  locked_until u = None ->
  failed_attempts u = 0 ->
  length early = 4%nat ->
  Forall (fun t => password_ok checkpw (snd t) (password_hash u) = false)
         (early ++ [(t5, p5)]) ->
  let after4 := fst (login_attempts checkpw db name early) in
  let after5 := fst (login_attempts checkpw db name (early ++ [(t5, p5)])) in
  Forall (fun r => r = None)
         (snd (login_attempts checkpw db name (early ++ [(t5, p5)]))) /\
  (exists u4,
      select_user after4 name = Some u4 /\
      failed_attempts u4 = 4 /\ locked_until u4 = None) /\
  (exists u5,
      select_user after5 name = Some u5 /\
      failed_attempts u5 = 5 /\
      locked_until u5 = Some (t5 + lock_seconds)) /\
  (forall now password,
      now < t5 + lock_seconds ->
      authenticate_user checkpw after5 now name password = (after5, None)).
Proof.
  intros Hsel Hact Hlock Hzero Hlen Hbad after4 after5.
  apply Forall_app in Hbad. destruct Hbad as [Hearly Hlast].
  inversion Hlast as [|? ? Hp5 _]; subst. cbn [snd] in Hp5.
  destruct (failures_below_the_lock name early db u Hsel Hact Hlock)
    as (Hnone & u4 & Hsel4 & Hf4 & Hl4 & Ha4 & Hh4 & Hi4);
    [lia|rewrite Hzero, Hlen; cbn; lia|exact Hearly|].
  rewrite Hzero, Hlen in Hf4. cbn in Hf4. fold after4 in Hsel4.
  rewrite <- Hh4 in Hp5.
  destruct (wrong_password_step after4 t5 name p5 u4 Hsel4 Ha4 Hl4 Hp5)
    as (Hauth & u5 & Hsel5 & Hf5 & Hl5 & Ha5 & Hh5 & Hi5).
  rewrite Hf4 in Hf5, Hl5. cbn in Hf5, Hl5.
  assert (Hafter5 : after5 = handle_failed_login after4 t5 (id u4)).
  { subst after5. rewrite login_attempts_app. cbn [fst].
    fold after4. cbn [login_attempts]. now rewrite Hauth. }
  split; [|split; [|split]].
  - rewrite login_attempts_app. cbn [snd]. apply Forall_app.
    split; [exact Hnone|]. fold after4. cbn [login_attempts].
    rewrite Hauth. cbn. now repeat constructor.
  - exists u4. now repeat split.
  - exists u5. rewrite Hafter5. now repeat split.
  - intros now password Hnow. rewrite Hafter5.
    unfold authenticate_user. rewrite Hsel5, Ha5, Hl5. cbn [negb].
    apply Z.ltb_lt in Hnow. now rewrite Hnow.
Qed.

(** *** Sessions *)

Lemma flat_map_all_empty {A B : Type} (f : A -> list B) (l : list A) :
  (forall x, In x l -> f x = []) -> flat_map f l = [].
Proof.
  induction l as [|x l IH]; cbn [flat_map]; intros H; [reflexivity|].
  rewrite (H x (or_introl eq_refl)), IH; [reflexivity|].
  intros y Hy. apply H. now right.
Qed.

Lemma no_user_of_that_id (l : list user_row) (k : Z) :
  ~ In k (map id l) ->
  filter (fun v => Z.eqb (id v) k && is_active v) l = [].
Proof.
  induction l as [|w l IH]; cbn [map filter In]; intros Hk; [reflexivity|].
  destruct (Z.eqb (id w) k) eqn:E.
  - apply Z.eqb_eq in E. exfalso. apply Hk. now left.
  - cbn [andb]. apply IH. intros H. apply Hk. now right.
Qed.

Lemma the_active_user (l : list user_row) (u : user_row) :
  NoDup (map id l) ->
  In u l ->
  is_active u = true ->
  filter (fun v => Z.eqb (id v) (id u) && is_active v) l = [u].
Proof.
  induction l as [|v l IH]; cbn [map filter In]; intros Hnd Hin Hact;
    [contradiction|].
  inversion Hnd as [|? ? Hv Hnd']; subst.
  destruct Hin as [->|Hin].
  - rewrite Z.eqb_refl, Hact. cbn [andb]. f_equal.
    now apply no_user_of_that_id.
  - destruct (Z.eqb (id v) (id u)) eqn:E.
    + apply Z.eqb_eq in E. exfalso. apply Hv. rewrite E. now apply in_map.
    + cbn [andb]. now apply IH.
Qed.

Lemma cleanup_keeps_valid_pairs (db : store) (now : Z) (token : string) :
  valid_pairs (fst (cleanup_expired_sessions db now)) now token
  = valid_pairs db now token.
Proof.
  unfold valid_pairs, cleanup_expired_sessions. cbn [fst users sessions].
  induction (sessions db) as [|s l IH]; cbn [filter flat_map];
    [reflexivity|].
  destruct (Z.ltb (expires_at s) now || negb (session_active s)) eqn:Egone;
    cbn [negb].
  - rewrite IH.
    assert (Hnone : String.eqb (session_token s) token && session_active s
                    && Z.ltb now (expires_at s) = false).
    { apply orb_true_iff in Egone. destruct Egone as [E|E].
      - apply Z.ltb_lt in E.
        assert (Z.ltb now (expires_at s) = false) by (apply Z.ltb_ge; lia).
        rewrite H. apply andb_false_r.
      - apply negb_true_iff in E. rewrite E.
        now rewrite andb_false_r. }
    now rewrite Hnone.
  - cbn [flat_map]. now rewrite IH.
Qed.

(** X30.  A session created for an active user with a token that is not
    in use is valid for that user until eight hours have passed and not
    from then on, and it is invalid at any time once [delete_session] has
    been called for the token; [cleanup_expired_sessions] never changes
    what [validate_session] answers at the time of the cleanup. *)
Theorem session_lifecycle
    (db : store) (u : user_row) (t0 : Z) (token : string) :
  NoDup (map id (users db)) ->
  In u (users db) ->
  is_active u = true ->
  existsb (fun s => String.eqb (session_token s) token) (sessions db)
    = false ->
  let created := fst (create_session db t0 (id u) token) in
  snd (create_session db t0 (id u) token) = Some token /\
  (forall t, t < t0 + session_seconds ->
             validate_session created t token = Some (info_of u)) /\
  (forall t, t0 + session_seconds <= t ->
             validate_session created t token = None) /\
  (forall t, validate_session (delete_session created token) t token
             = None) /\
  (forall t other,
      validate_session (fst (cleanup_expired_sessions created t)) t other
      = validate_session created t other).
Proof.
  intros Hnd Hin Hact Hfresh created.
  assert (Hexists : existsb (fun v => Z.eqb (id v) (id u)) (users db) = true).
  { apply existsb_exists. exists u. split; [exact Hin|apply Z.eqb_refl]. }
  assert (Hcreated :
    create_session db t0 (id u) token =
    ({| users := users db;
        sessions := sessions db ++
                    [ {| session_token := token; user_id := id u;
                         expires_at := t0 + session_seconds;
                         session_active := true |} ] |}, Some token)).
  { unfold create_session. now rewrite Hfresh, Hexists. }
  assert (Hold : forall (now : Z) (g : session_row -> session_row),
    (forall s, session_token (g s) = session_token s) ->
    flat_map
      (fun s =>
         if String.eqb (session_token s) token && session_active s
            && Z.ltb now (expires_at s)
         then filter (fun v => Z.eqb (id v) (user_id s) && is_active v)
                     (users db)
         else []) (map g (sessions db)) = []).
  { intros now g Hg. apply flat_map_all_empty. intros s Hs.
    apply in_map_iff in Hs. destruct Hs as (s0 & <- & Hs0).
    rewrite Hg.
    assert (E : String.eqb (session_token s0) token = false).
    { destruct (String.eqb (session_token s0) token) eqn:E; [|reflexivity].
      assert (existsb (fun s => String.eqb (session_token s) token)
                (sessions db) = true); [|congruence].
      apply existsb_exists. now exists s0. }
    now rewrite E. }
  subst created. rewrite Hcreated. cbn [fst snd].
  split; [reflexivity|]. split; [|split; [|split]].
  - intros t Ht. unfold validate_session, valid_pairs.
    cbn [users sessions]. rewrite flat_map_app.
    rewrite <- (map_id (sessions db)) at 1.
    rewrite (Hold t (fun s => s)) by reflexivity.
    cbn [app flat_map session_token session_active expires_at user_id].
    rewrite String.eqb_refl. apply Z.ltb_lt in Ht. rewrite Ht.
    cbn [andb]. rewrite (the_active_user _ _ Hnd Hin Hact). reflexivity.
  - intros t Ht. unfold validate_session, valid_pairs.
    cbn [users sessions]. rewrite flat_map_app.
    rewrite <- (map_id (sessions db)) at 1.
    rewrite (Hold t (fun s => s)) by reflexivity.
    cbn [app flat_map session_token session_active expires_at user_id].
    apply Z.ltb_ge in Ht. rewrite Ht.
    now rewrite andb_false_r.
  - intros t. unfold validate_session, valid_pairs, delete_session.
    cbn [users sessions]. rewrite map_app, flat_map_app.
    rewrite Hold.
    + cbn [map app flat_map session_token]. rewrite String.eqb_refl.
      cbn [session_token session_active]. rewrite String.eqb_refl.
      reflexivity.
    + intros s. now destruct (String.eqb (session_token s) token).
  - intros t other. unfold validate_session.
    now rewrite cleanup_keeps_valid_pairs.
Qed.
End AuthenticationFacts.

Section AuthenticationExamples.
Import AuthenticationService MoreExamples.
Local Open Scope Z_scope.

Lemma five_failures_lock_the_account_witness :
  authenticate_user example_checkpw
    (fst (login_attempts example_checkpw one_account "asha"
            [(100, "guess1"); (110, "guess2"); (120, "guess3");
             (130, "guess4"); (140, "guess5")]))
    1000 "asha" "correct horse"
  = (fst (login_attempts example_checkpw one_account "asha"
            [(100, "guess1"); (110, "guess2"); (120, "guess3");
             (130, "guess4"); (140, "guess5")]), None).
Proof.
  destruct (five_failures_lock_the_account example_checkpw one_account
              "asha" operator
              [(100, "guess1"); (110, "guess2"); (120, "guess3");
               (130, "guess4")] 140 "guess5")
    as (_ & _ & _ & Hlocked).
  - reflexivity.
  - reflexivity.
  - reflexivity.
  - reflexivity.
  - reflexivity.
  - repeat constructor.
  - apply (Hlocked 1000 "correct horse"). reflexivity.
Defined.

(** With four failures the right password still opens the account and
    clears the counter. *)
Example fifth_attempt_with_right_password :
  let res := login_attempts example_checkpw one_account "asha"
               [(100, "guess1"); (110, "guess2"); (120, "guess3");
                (130, "guess4"); (140, "correct horse")] in
  snd res = [None; None; None; None; Some (info_of operator)] /\
  map failed_attempts (users (fst res)) = [0] /\
  map last_login (users (fst res)) = [Some 140].
Proof. repeat split. Qed.

Lemma session_lifecycle_witness :
  snd (create_session one_account 5000 7 "tok-1") = Some "tok-1" /\
  validate_session (fst (create_session one_account 5000 7 "tok-1"))
    (5000 + 28799) "tok-1" = Some (info_of operator) /\
  validate_session (fst (create_session one_account 5000 7 "tok-1"))
    (5000 + 28800) "tok-1" = None.
Proof.
  destruct (session_lifecycle one_account operator 5000 "tok-1")
    as (H1 & H2 & H3 & _).
  - repeat constructor. intros [].
  - now left.
  - reflexivity.
  - reflexivity.
  - split; [exact H1|]. split; [apply H2|apply H3]; unfold session_seconds;
      lia.
Defined.
End AuthenticationExamples.
